(** * CybLight login front-end: router, base64url, HTTP wrapper, error reporter

  A shallow embedding of the procedural parts of the single-page
  front-end (the router script and [public/assets/js/login.js]) and
  the properties the specification states about them. *)

From Stdlib Require Import ZArith NArith Lia List String Ascii Bool.
From Stdlib.Strings Require Import Byte.
From stdpp Require Import gmap strings list pretty.

Local Open Scope string_scope.

(** ** JavaScript string primitives used by the sources

  Strings are sequences of 8-bit characters.  [location.pathname] and
  the base64 texts are ASCII; the fixed needles searched for by
  [includes] are ASCII too, so matching on the UTF-8 bytes of a message
  agrees with matching on its UTF-16 code units. *)
Module JsString.

(** A string is truthy exactly when it is not empty. *)
Definition truthy (s : string) : bool :=
  match s with
  | EmptyString => false
  | String _ _ => true
  end.

(** [s.startsWith(needle)]. *)
Definition startsWith (needle s : string) : bool := String.prefix needle s.

(** [s.includes(needle)]: [needle] occurs at some position of [s]. *)
Fixpoint includes (needle s : string) : bool :=
  String.prefix needle s
  || match s with
     | EmptyString => false
     | String _ r => includes needle r
     end.

(** [s.replace(/^\/+/, '')]: the match can only start at position 0 and
    the greedy [+] takes the whole leading run of slashes. *)
Fixpoint replace_leading_slashes (s : string) : string :=
  match s with
  | EmptyString => EmptyString
  | String c r => if (c =? "/")%char then replace_leading_slashes r else s
  end.

(** [true] when [s] is a non-empty run of slashes, i.e. when [/\/+$/]
    matches at position 0 of [s]. *)
Fixpoint slash_run_to_end (s : string) : bool :=
  match s with
  | EmptyString => false
  | String c r =>
      (c =? "/")%char
      && match r with
         | EmptyString => true
         | String _ _ => slash_run_to_end r
         end
  end.

(** [s.replace(/\/+$/, '')]: the leftmost position from which a run of
    slashes reaches the end of the string is cut off. *)
Fixpoint replace_trailing_slashes (s : string) : string :=
  match s with
  | EmptyString => EmptyString
  | String c r =>
      if slash_run_to_end s then EmptyString
      else String c (replace_trailing_slashes r)
  end.

(** [n] slashes. *)
Fixpoint slashes (n : nat) : string :=
  match n with
  | O => EmptyString
  | S k => String "/" (slashes k)
  end.

End JsString.

(** ** The client-side router ([getRoute], [getRouteParam]) *)
Module Router.
Import JsString.

Definition routes : gset string :=
  list_to_set
    [ "signup"; "account-profile"; "account-security"; "account-sessions";
      "account-easter-eggs"; "verify-email"; "username"; "password";
      "2fa"; "2fa-verify"; "reset"; "done"; "strawberry-history" ].

(** The [path] constant computed at the head of both functions. *)
Definition stripped_path (pathname : string) : string :=
  replace_trailing_slashes (replace_leading_slashes pathname).

(** [getRoute()], reading [location.pathname]. *)
Definition getRoute (pathname : string) : string :=
  let path := stripped_path pathname in
  if bool_decide (path ∈ routes) then path
  else if truthy path && negb (includes "/" path) then "profile"
  else "username".

(** [getRouteParam(paramName)]; [None] is JavaScript's [null]. *)
Definition getRouteParam (pathname paramName : string) : option string :=
  let path := stripped_path pathname in
  if truthy path && negb (includes "/" path) && String.eqb paramName "username"
  then Some path
  else None.

(** The pieces of a string between slashes, as the specification speaks
    of path segments. *)
Fixpoint split_slash (s : string) : list string :=
  match s with
  | EmptyString => [EmptyString]
  | String c r =>
      if (c =? "/")%char then EmptyString :: split_slash r
      else
        match split_slash r with
        | h :: t => String c h :: t
        | [] => [String c EmptyString]
        end
  end.

(** The non-empty segments of a URL path. *)
Definition segments (pathname : string) : list string :=
  filter (λ s, s ≠ EmptyString) (split_slash pathname).

End Router.


(** ** Base64 and the base64url expressions of the passkey flows

  [btoa] and [atob] are the browser's functions (the forgiving-base64
  encode and decode of the WHATWG Infra standard).  A binary string and
  a base64 text are both lists of 8-bit characters; a [Uint8Array] is a
  list of bytes. *)
Module Base64.

Definition alphabet : list ascii :=
  list_ascii_of_string
    "ABCDEFGHIJKLMNOPQRSTUVWXYZabcdefghijklmnopqrstuvwxyz0123456789+/".

(** The character of a 6-bit value. *)
Definition sextet_char (n : N) : ascii := nth (N.to_nat n) alphabet "="%char.

Fixpoint index_of (c : ascii) (l : list ascii) (i : N) : option N :=
  match l with
  | [] => None
  | d :: r => if (c =? d)%char then Some i else index_of c r (N.succ i)
  end.

(** The 6-bit value of a character of the alphabet. *)
Definition char_sextet (c : ascii) : option N := index_of c alphabet 0%N.

(** [String.fromCharCode(...new Uint8Array(buf))]. *)
Definition fromCharCode (bytes : list byte) : list ascii := map ascii_of_byte bytes.

(** [Uint8Array.from(str, (c) => c.charCodeAt(0))]. *)
Definition charCodes (str : list ascii) : list byte := map byte_of_ascii str.

(** [btoa]: three bytes give four characters; one or two bytes left
    over give two or three characters and [=] padding. *)
Fixpoint btoa (s : list ascii) : list ascii :=
  match s with
  | [] => []
  | [a] =>
      let n := (N_of_ascii a * 16)%N in
      [sextet_char (n / 64); sextet_char (n mod 64); "="; "="]%char
  | [a; b] =>
      let n := ((N_of_ascii a * 256 + N_of_ascii b) * 4)%N in
      [sextet_char (n / 4096); sextet_char ((n / 64) mod 64);
       sextet_char (n mod 64); "="]%char
  | a :: b :: c :: r =>
      let n := (N_of_ascii a * 65536 + N_of_ascii b * 256 + N_of_ascii c)%N in
      sextet_char (n / 262144) :: sextet_char ((n / 4096) mod 64)
      :: sextet_char ((n / 64) mod 64) :: sextet_char (n mod 64) :: btoa r
  end.

(** ASCII whitespace: TAB, LF, FF, CR and SPACE. *)
Definition is_ascii_whitespace (c : ascii) : bool :=
  let n := N_of_ascii c in
  (n =? 9)%N || (n =? 10)%N || (n =? 12)%N || (n =? 13)%N || (n =? 32)%N.

(** One or two [=] at the end of the data are removed. *)
Definition remove_padding (data : list ascii) : list ascii :=
  match rev data with
  | c1 :: r1 =>
      if (c1 =? "=")%char then
        match r1 with
        | c2 :: r2 => if (c2 =? "=")%char then rev r2 else rev r1
        | [] => rev r1
        end
      else data
  | [] => data
  end.

Fixpoint sextets_of (data : list ascii) : option (list N) :=
  match data with
  | [] => Some []
  | c :: r =>
      match char_sextet c, sextets_of r with
      | Some n, Some l => Some (n :: l)
      | _, _ => None
      end
  end.

(** The decoding loop: six bits are appended to the buffer for each
    character, 24 bits are flushed as three bytes; 12 or 18 bits left at
    the end give one or two bytes, the last 4 or 2 bits being dropped. *)
Fixpoint decode_loop (l : list N) (buffer : N) (bits : nat) : list ascii :=
  match l with
  | [] =>
      if (bits =? 12)%nat then [ascii_of_N (buffer / 16)]
      else if (bits =? 18)%nat then
        let b := (buffer / 4)%N in
        [ascii_of_N (b / 256); ascii_of_N (b mod 256)]
      else []
  | n :: r =>
      let buffer' := (buffer * 64 + n)%N in
      let bits' := (bits + 6)%nat in
      if (bits' =? 24)%nat then
        ascii_of_N (buffer' / 65536) :: ascii_of_N ((buffer' / 256) mod 256)
        :: ascii_of_N (buffer' mod 256) :: decode_loop r 0%N 0%nat
      else decode_loop r buffer' bits'
  end.

(** [atob]; [None] stands for the [InvalidCharacterError] it throws. *)
Definition atob (data : list ascii) : option (list ascii) :=
  let data := filter (λ c, is_ascii_whitespace c = false) data in
  let data := if (length data mod 4 =? 0)%nat then remove_padding data else data in
  if (length data mod 4 =? 1)%nat then None
  else
    match sextets_of data with
    | None => None
    | Some l => Some (decode_loop l 0%N 0%nat)
    end.

(** [s.replace(/c/g, d)] for a single character [c]. *)
Definition replace_all (c d : ascii) (s : list ascii) : list ascii :=
  map (λ x, if (x =? c)%char then d else x) s.

(** [s.replace(/c/g, '')] for a single character [c]. *)
Definition remove_all (c : ascii) (s : list ascii) : list ascii :=
  filter (λ x, (x =? c)%char = false) s.

(** [btoa(String.fromCharCode(...new Uint8Array(buf)))
      .replace(/\+/g, '-').replace(/\//g, '_').replace(/=/g, '')],
    the expression used for every binary field of a credential. *)
Definition base64url_encode (buf : list byte) : list ascii :=
  remove_all "=" (replace_all "/" "_" (replace_all "+" "-" (btoa (fromCharCode buf)))).

(** The same text with its padding kept, as a server may send it. *)
Definition base64url_encode_padded (buf : list byte) : list ascii :=
  replace_all "/" "_" (replace_all "+" "-" (btoa (fromCharCode buf))).

(** [Uint8Array.from(atob(s.replace(/-/g, '+').replace(/_/g, '/')),
      (c) => c.charCodeAt(0))], the expression used for every base64url
    field of the server's options. *)
Definition base64url_decode (s : list ascii) : option (list byte) :=
  match atob (replace_all "_" "/" (replace_all "-" "+" s)) with
  | Some str => Some (charCodes str)
  | None => None
  end.

End Base64.


(** ** The texts [btoa] writes, for the round-trip argument *)
Module Base64Text.
Import Base64.
Local Open Scope list_scope.

(** The 6-bit values of the characters [btoa] writes before the padding. *)
Fixpoint enc_sextets (s : list ascii) : list N :=
  match s with
  | [] => []
  | [a] =>
      let n := (N_of_ascii a * 16)%N in [n / 64; n mod 64]%N
  | [a; b] =>
      let n := ((N_of_ascii a * 256 + N_of_ascii b) * 4)%N in
      [n / 4096; (n / 64) mod 64; n mod 64]%N
  | a :: b :: c :: r =>
      let n := (N_of_ascii a * 65536 + N_of_ascii b * 256 + N_of_ascii c)%N in
      (n / 262144 :: (n / 4096) mod 64 :: (n / 64) mod 64 :: n mod 64
       :: enc_sextets r)%N
  end.

(** The padding [btoa] appends. *)
Definition enc_padding (s : list ascii) : list ascii :=
  match (length s mod 3)%nat with
  | 1%nat => ["="; "="]%char
  | 2%nat => ["="]%char
  | _ => []
  end.

Definition to_url (c : ascii) : ascii :=
  let c := if (c =? "+")%char then "-"%char else c in
  if (c =? "/")%char then "_"%char else c.

Definition from_url (c : ascii) : ascii :=
  let c := if (c =? "-")%char then "+"%char else c in
  if (c =? "_")%char then "/"%char else c.

Definition sextet_ok (n : N) : bool :=
  let c := sextet_char n in
  negb (to_url c =? "=")%char
  && (from_url (to_url c) =? c)%char
  && match char_sextet c with Some m => (m =? n)%N | None => false end
  && negb (is_ascii_whitespace c)
  && negb (c =? "=")%char.

(** The standard and the URL-safe text of a list of 6-bit values. *)
Definition std_text (l : list N) : list ascii := map sextet_char l.
Definition url_text (l : list N) : list ascii :=
  map (λ n, to_url (sextet_char n)) l.

(** No padding, one [=] or two. *)
Inductive padding : list ascii → Prop :=
| padding_0 : padding []
| padding_1 : padding ["="%char]
| padding_2 : padding ["="%char; "="%char].

End Base64Text.

(** ** The HTTP client wrapper ([apiCall]) *)
Module Http.
Import JsString.

Definition API_BASE : string := "https://api.cyblight.org".

(** JSON values, for request and response bodies. *)
#[local] Unset Elimination Schemes.
Inductive Json : Type :=
| JNull
| JBool (b : bool)
| JNum (n : Z)
| JStr (s : string)
| JArr (items : list Json)
| JObj (fields : list (string * Json)).
#[local] Set Elimination Schemes.

(** A thrown [Error] object ([TypeError], [DOMException], ...): both of
    its properties are strings. *)
Record JsError : Type := { err_name : string; err_message : string }.

(** What callers read from a response: the flags, and what [json()] and
    [text()] resolve to ([None] when [json()] rejects). *)
Record Response : Type := {
  ok : bool;
  status : Z;
  statusText : string;
  json : option Json;
  text : string;
  headers : list (string * string);
}.

(** The [options] argument. *)
Record Options : Type := {
  method : option string;
  credentials : option string;
  opt_headers : option (gmap string string);
  body : option Json;
}.

Definition no_options : Options :=
  {| method := None; credentials := None; opt_headers := None; body := None |}.

(** The second argument of [fetch]; its [signal] is always the signal of
    the call's own [AbortController]. *)
Record RequestInit : Type := {
  init_method : option string;
  init_credentials : string;
  init_headers : gmap string string;
  init_body : option Json;
}.

(** [typeof navigator] and [navigator.onLine]. *)
Inductive Navigator : Type :=
| NavigatorUndefined
| NavigatorOnLine (onLine : bool).

(** How the [fetch] promise stands when the event loop next runs the
    call: fulfilled, rejected, or still pending when the abort timer is
    due. *)
Inductive FetchOutcome : Type :=
| Resolved (response : Response)
| Rejected (error : JsError)
| Pending.

(** The browser around one call. *)
Record Browser : Type := {
  navigator : Navigator;
  fetch : string → RequestInit → FetchOutcome;
  (** message of the [AbortError] a fetch rejects with once its signal
      is aborted; it differs between engines *)
  abort_message : string;
}.

(** What a call does to the world, in order. *)
Inductive Effect : Type :=
| SetTimeout (ms : Z)
| ClearTimeout
| Fetch (url : string) (init : RequestInit)
| Abort (after_ms : Z)
| Navigate (to : string).

(** Computations that log their effects. *)
Definition M (A : Type) : Type := A * list Effect.

Definition ret {A : Type} (a : A) : M A := (a, []).

Definition bind {A B : Type} (m : M A) (k : A → M B) : M B :=
  let (a, t1) := m in
  let (b, t2) := k a in
  (b, (t1 ++ t2)%list).

Definition emit (e : Effect) : M unit := (tt, [e]).

Notation "'do' x <- m ; k" := (bind m (λ x, k))
  (at level 10, x name, m at level 100, k at level 200).
Notation "'run' m ; k" := (bind m (λ _, k))
  (at level 10, m at level 100, k at level 200).

(** [a || b] on strings, where [a] may be [undefined]. *)
Definition or_string (a : option string) (b : string) : string :=
  match a with
  | Some s => if truthy s then s else b
  | None => b
  end.

Definition offlineResponse : Response :=
  {| ok := false;
     status := 0;
     statusText := "No internet connection";
     json := Some (JObj [("error",
               JStr "Нет подключения к интернету. Проверьте соединение.")]);
     text := "";
     headers := [] |}.

(** The [errorMessage] variable of the catch branch. *)
Definition errorMessage (error : JsError) : string :=
  if String.eqb (err_name error) "AbortError" then
    "Превышено время ожидания. Сервер не отвечает."
  else if includes "Failed to fetch" (err_message error) then
    "Не удалось подключиться к серверу. Проверьте интернет."
  else if includes "NetworkError" (err_message error) then
    "Ошибка сети. Проверьте подключение к интернету."
  else or_string (Some (err_message error)) "Неизвестная ошибка сети".

(** The mock response built by the catch branch. *)
Definition errorResponse (error : JsError) : Response :=
  {| ok := false;
     status := 0;
     statusText :=
       if String.eqb (err_name error) "AbortError" then "Request timeout"
       else err_message error;
     json := Some (JObj [("error", JStr (errorMessage error))]);
     text := "";
     headers := [] |}.

(** The condition guarding [CybRouter.navigate('username')]. *)
Definition redirects (response : Response) (endpoint : string) : bool :=
  (status response =? 401)%Z
  && negb (includes "/auth/me" endpoint)
  && negb (includes "/auth/login" endpoint)
  && negb (includes "/auth/register" endpoint)
  && negb (includes "/auth/login-history" endpoint)
  && negb (includes "/auth/trusted-devices" endpoint).

Definition request_url (endpoint : string) : string :=
  if startsWith "http" endpoint then endpoint else API_BASE +:+ endpoint.

Definition request_init (options : Options) : RequestInit :=
  {| init_method := method options;
     init_credentials := or_string (credentials options) "include";
     init_headers :=
       default ∅ (opt_headers options) ∪ {[ "Content-Type" := "application/json" ]};
     init_body := body options |}.

(** [await fetch(url, init)] under the abort timer: a promise still
    pending when the timer is due is aborted by the timer's callback and
    rejects with an [AbortError]. *)
Definition await_fetch (w : Browser) (url : string) (init : RequestInit)
    (timeoutMs : Z) : M (Response + JsError) :=
  match fetch w url init with
  | Resolved response => ret (inl response)
  | Rejected error => ret (inr error)
  | Pending =>
      run emit (Abort timeoutMs);
      ret (inr {| err_name := "AbortError"; err_message := abort_message w |})
  end.

(** [apiCall(endpoint, options = {}, timeoutMs = 10000)]; an argument
    left out is [None]. *)
Definition apiCall (w : Browser) (endpoint : string)
    (options : option Options) (timeoutMs : option Z) : M Response :=
  let options := default no_options options in
  let timeoutMs := default 10000%Z timeoutMs in
  match navigator w with
  | NavigatorOnLine false => ret offlineResponse
  | _ =>
      run emit (SetTimeout timeoutMs);
      let url := request_url endpoint in
      let init := request_init options in
      run emit (Fetch url init);
      do settled <- await_fetch w url init timeoutMs;
      match settled with
      | inl response =>
          run emit ClearTimeout;
          run (if redirects response endpoint then emit (Navigate "username")
               else ret tt);
          ret response
      | inr error =>
          run emit ClearTimeout;
          ret (errorResponse error)
      end
  end.

(** The endpoints named in the 401 condition. *)
Definition excluded_endpoints : list string :=
  [ "/auth/me"; "/auth/login"; "/auth/register"; "/auth/login-history";
    "/auth/trusted-devices" ].

Definition is_navigate (e : Effect) : bool :=
  match e with Navigate _ => true | _ => false end.

End Http.

(** ** [apiCall] on the event loop: the abort timer and the signal

  The same function with its [AbortController], the callback it passes
  to [setTimeout] and the signal it passes to [fetch] written out, on an
  event loop that runs the pending timers in the order they are due. A
  call whose promise nothing settles does not return: that is [None]. *)
Module EventLoop.
Import JsString Http.

(** An [AbortController], known by its number; its [signal] is known by
    the same number. *)
Definition Controller : Type := nat.

(** The callbacks passed to [setTimeout]: [() => controller.abort()]. *)
Inductive Callback : Type :=
| AbortCallback (controller : Controller).

(** A pending timer: the id [setTimeout] returned, the delay it was given,
    the time from which it is due and its callback. *)
Record Timer : Type := {
  timer_id : nat;
  delay : Z;
  due : Z;
  callback : Callback;
}.

(** The event loop: the clock (in ms), the pending timers in the order
    they were set, the controllers that have aborted, how many
    controllers and timers were made so far, and what was done so far. *)
Record Loop : Type := {
  now : Z;
  timers : list Timer;
  aborted : list Controller;
  controllers : nat;
  timeouts : nat;
  log : list Effect;
}.

(** A loop with nothing pending, as when the page has just loaded. *)
Definition idle : Loop :=
  {| now := 0; timers := []; aborted := []; controllers := 0; timeouts := 0;
     log := [] |}.

(** [new AbortController()]. *)
Definition newAbortController (st : Loop) : Controller * Loop :=
  (controllers st,
   {| now := now st; timers := timers st; aborted := aborted st;
      controllers := S (controllers st); timeouts := timeouts st;
      log := log st |}).

(** [setTimeout(callback, ms)]; a negative delay counts as 0. *)
Definition setTimeout (callback : Callback) (ms : Z) (st : Loop) : nat * Loop :=
  (timeouts st,
   {| now := now st;
      timers := timers st ++ [ {| timer_id := timeouts st; delay := ms;
                                  due := now st + Z.max 0 ms;
                                  callback := callback |} ];
      aborted := aborted st; controllers := controllers st;
      timeouts := S (timeouts st);
      log := log st ++ [SetTimeout ms] |}).

(** [clearTimeout(id)]. *)
Definition clearTimeout (id : nat) (st : Loop) : Loop :=
  {| now := now st;
     timers := filter (λ t, timer_id t ≠ id) (timers st);
     aborted := aborted st; controllers := controllers st;
     timeouts := timeouts st;
     log := log st ++ [ClearTimeout] |}.

(** [CybRouter.navigate(to)]. *)
Definition navigate (to : string) (st : Loop) : Loop :=
  {| now := now st; timers := timers st; aborted := aborted st;
     controllers := controllers st; timeouts := timeouts st;
     log := log st ++ [Navigate to] |}.

(** The promise [fetch] returns: what the network does with the request
    if it is left alone, and the signal the request was given. *)
Record Promise : Type := {
  fate : FetchOutcome;
  signal : option Controller;
}.

(** [fetch(url, { ...init, signal })]. *)
Definition fetch_with (w : Browser) (url : string) (init : RequestInit)
    (signal : option Controller) (st : Loop) : Promise * Loop :=
  ({| fate := fetch w url init; signal := signal |},
   {| now := now st; timers := timers st; aborted := aborted st;
      controllers := controllers st; timeouts := timeouts st;
      log := log st ++ [Fetch url init] |}).

(** The signal of the promise has aborted. *)
Definition signal_aborted (p : Promise) (st : Loop) : bool :=
  match signal p with
  | Some c => bool_decide (c ∈ aborted st)
  | None => false
  end.

(** The position of the timer that runs next: the one due first, and of
    those due at the same time the one set first. *)
Fixpoint earliest (l : list Timer) : option nat :=
  match l with
  | [] => None
  | t :: r =>
      match earliest r with
      | Some i =>
          match r !! i with
          | Some t' => if (due t' <? due t)%Z then Some (S i) else Some 0%nat
          | None => Some 0%nat
          end
      | None => Some 0%nat
      end
  end.

(** The loop runs the timer at position [i]: the clock is at its due
    time at least, the timer is no longer pending, and its callback
    aborts its controller. *)
Definition run_timer (i : nat) (t : Timer) (st : Loop) : Loop :=
  match callback t with
  | AbortCallback c =>
      {| now := Z.max (now st) (due t);
         timers := delete i (timers st);
         aborted := c :: aborted st;
         controllers := controllers st; timeouts := timeouts st;
         log := log st ++ [Abort (delay t)] |}
  end.

(** [await promise]: a request whose signal has aborted rejects with an
    [AbortError]; otherwise the promise settles as the network has it,
    and while it is pending the loop runs the next timer. With no timer
    left a pending promise is never settled. Each round runs one timer,
    so as many rounds as there are timers are enough. *)
Fixpoint settle (rounds : nat) (w : Browser) (p : Promise) (st : Loop) :
    option ((Response + JsError) * Loop) :=
  if signal_aborted p st then
    Some (inr {| err_name := "AbortError"; err_message := abort_message w |}, st)
  else
    match fate p with
    | Resolved response => Some (inl response, st)
    | Rejected error => Some (inr error, st)
    | Pending =>
        match rounds, earliest (timers st) with
        | S rounds', Some i =>
            match timers st !! i with
            | Some t => settle rounds' w p (run_timer i t st)
            | None => None
            end
        | _, _ => None
        end
    end.

Definition await (w : Browser) (p : Promise) (st : Loop) :
    option ((Response + JsError) * Loop) :=
  settle (length (timers st)) w p st.

(** [apiCall(endpoint, options = {}, timeoutMs = 10000)]. *)
Definition apiCall (w : Browser) (endpoint : string) (options : option Options)
    (timeoutMs : option Z) (st : Loop) : option (Response * Loop) :=
  let options := default no_options options in
  let timeoutMs := default 10000%Z timeoutMs in
  match navigator w with
  | NavigatorOnLine false => Some (offlineResponse, st)
  | _ =>
      let (controller, st) := newAbortController st in
      let (timeoutId, st) := setTimeout (AbortCallback controller) timeoutMs st in
      let url := request_url endpoint in
      let (promise, st) :=
        fetch_with w url (request_init options) (Some controller) st in
      match await w promise st with
      | Some (inl response, st) =>
          let st := clearTimeout timeoutId st in
          let st :=
            if redirects response endpoint then navigate "username" st else st in
          Some (response, st)
      | Some (inr error, st) =>
          let st := clearTimeout timeoutId st in
          Some (errorResponse error, st)
      | None => None
      end
  end.

(** The controller a callback aborts. *)
Definition aborts (t : Timer) : Controller :=
  match callback t with AbortCallback c => c end.

(** What holds of a loop between two calls: the controllers named by the
    pending timers and the aborted ones have all been made. *)
Definition well_formed (st : Loop) : Prop :=
  (∀ t, t ∈ timers st → (aborts t < controllers st)%nat)
  ∧ (∀ c, c ∈ aborted st → (c < controllers st)%nat).

End EventLoop.

(** ** The global error handlers ([window.onerror],
     [window.onunhandledrejection]) *)
Module ErrorReporter.

Definition MAX_ERRORS_PER_MINUTE : Z := 10.

(** The two callbacks the handlers pass to [setTimeout]. *)
Inductive TimerAction : Type :=
| DeleteKey (errorKey : string)     (* [() => errorCache.delete(errorKey)] *)
| DecrementCount.                   (* [() => errorCount--] *)

(** A pending timer and the time from which it may run. *)
Record Timer : Type := { due : Z; action : TimerAction }.

(** A report posted to [/error/report]. *)
Inductive Report : Type :=
| SyncError (message source : string) (lineno colno : Z)
| PromiseRejection (message : option string).

(** The clock (in ms), the module-level variables [errorCache] and
    [errorCount], the pending timers and the reports posted so far,
    oldest first, with the time of each. *)
Record State : Type := {
  now : Z;
  errorCache : gset string;
  errorCount : Z;
  timers : list Timer;
  sent : list (Z * Report);
}.

Definition initial : State :=
  {| now := 0; errorCache := ∅; errorCount := 0; timers := []; sent := [] |}.

(** The decimal text of a number in a template literal. *)
Definition number_text (n : Z) : string := pretty n.

(** [`${message}:${source}:${lineno}`]. *)
Definition sync_errorKey (message source : string) (lineno : Z) : string :=
  message +:+ ":" +:+ source +:+ ":" +:+ number_text lineno.

(** [`${error?.message}:promise`]; a reason without a message gives
    [undefined]. *)
Definition rejection_errorKey (message : option string) : string :=
  default "undefined" message +:+ ":promise".

(** The [errorKey] under which the handler filed a report. *)
Definition report_key (r : Report) : string :=
  match r with
  | SyncError message source lineno _ => sync_errorKey message source lineno
  | PromiseRejection message => rejection_errorKey message
  end.

(** [errorCache.add(errorKey); setTimeout(() => errorCache.delete(errorKey), 60000)]. *)
Definition remember (errorKey : string) (st : State) : State :=
  {| now := now st;
     errorCache := {[ errorKey ]} ∪ errorCache st;
     errorCount := errorCount st;
     timers := timers st ++ [ {| due := now st + 60000; action := DeleteKey errorKey |} ];
     sent := sent st |}.

(** [errorCount++]. *)
Definition increment (st : State) : State :=
  {| now := now st;
     errorCache := errorCache st;
     errorCount := errorCount st + 1;
     timers := timers st;
     sent := sent st |}.

(** [setTimeout(() => errorCount--, 60000)]. *)
Definition schedule_decrement (st : State) : State :=
  {| now := now st;
     errorCache := errorCache st;
     errorCount := errorCount st;
     timers := timers st ++ [ {| due := now st + 60000; action := DecrementCount |} ];
     sent := sent st |}.

(** [apiCall('/error/report', ...)]. *)
Definition post (r : Report) (st : State) : State :=
  {| now := now st;
     errorCache := errorCache st;
     errorCount := errorCount st;
     timers := timers st;
     sent := sent st ++ [ (now st, r) ] |}.

(** [window.onerror]. *)
Definition onerror (message source : string) (lineno colno : Z) (st : State) : State :=
  let errorKey := sync_errorKey message source lineno in
  if bool_decide (errorKey ∈ errorCache st) then st
  else
    let st := remember errorKey st in
    let st := increment st in
    if (errorCount st >? MAX_ERRORS_PER_MINUTE)%Z then st
    else
      let st := schedule_decrement st in
      post (SyncError message source lineno colno) st.

(** [window.onunhandledrejection]; [message] is [event.reason.message]. *)
Definition onunhandledrejection (message : option string) (st : State) : State :=
  let errorKey := rejection_errorKey message in
  if bool_decide (errorKey ∈ errorCache st) then st
  else
    let st := remember errorKey st in
    let st := increment st in
    if (errorCount st >? MAX_ERRORS_PER_MINUTE)%Z then st
    else post (PromiseRejection message) st.

(** Running the callback of a timer. *)
Definition fire (a : TimerAction) (st : State) : State :=
  match a with
  | DeleteKey errorKey =>
      {| now := now st;
         errorCache := errorCache st ∖ {[ errorKey ]};
         errorCount := errorCount st;
         timers := timers st;
         sent := sent st |}
  | DecrementCount =>
      {| now := now st;
         errorCache := errorCache st;
         errorCount := errorCount st - 1;
         timers := timers st;
         sent := sent st |}
  end.

(** What the event loop can do next: let time pass, run a pending timer
    that is due, or deliver an error or a rejection to its handler. *)
Inductive Input : Type :=
| Elapse (ms : N)
| RunTimer (i : nat)
| ErrorEvent (message source : string) (lineno colno : Z)
| RejectionEvent (message : option string).

Definition step (st : State) (i : Input) : State :=
  match i with
  | Elapse ms =>
      {| now := now st + Z.of_N ms;
         errorCache := errorCache st;
         errorCount := errorCount st;
         timers := timers st;
         sent := sent st |}
  | RunTimer i =>
      match timers st !! i with
      | Some t =>
          if (due t <=? now st)%Z then
            fire (action t)
              {| now := now st;
                 errorCache := errorCache st;
                 errorCount := errorCount st;
                 timers := delete i (timers st);
                 sent := sent st |}
          else st
      | None => st
      end
  | ErrorEvent message source lineno colno => onerror message source lineno colno st
  | RejectionEvent message => onunhandledrejection message st
  end.

(** The page's life from load through a sequence of events. *)
Definition run_events (inputs : list Input) : State := fold_left step inputs initial.

(** Number of elements of a list that pass a test. *)
Fixpoint count {A : Type} (f : A → bool) (l : list A) : nat :=
  match l with
  | [] => 0
  | x :: r => (if f x then 1 else 0) + count f r
  end.

(** The report was posted in the minute that starts at [T]. *)
Definition in_minute (T : Z) (r : Z * Report) : bool :=
  (T <=? r.1)%Z && (r.1 <? T + 60000)%Z.

(** The report was posted less than a minute before [τ]. *)
Definition recent (τ : Z) (r : Z * Report) : bool := (τ <? r.1 + 60000)%Z.

(** The timer decrements [errorCount] and may run at [τ]. *)
Definition decrement_due (τ : Z) (t : Timer) : bool :=
  match action t with
  | DecrementCount => (due t <=? τ)%Z
  | DeleteKey _ => false
  end.

(** The timer deletes [errorKey] from [errorCache]. *)
Definition deletes (errorKey : string) (t : Timer) : bool :=
  match action t with
  | DeleteKey k => bool_decide (k = errorKey)
  | DecrementCount => false
  end.

(** Two reports of the same error: the same message, source and line for
    synchronous errors, the same message for rejections. *)
Definition same_error (r1 r2 : Report) : Prop :=
  match r1, r2 with
  | SyncError m1 s1 l1 _, SyncError m2 s2 l2 _ => m1 = m2 ∧ s1 = s2 ∧ l1 = l2
  | PromiseRejection m1, PromiseRejection m2 => m1 = m2
  | _, _ => False
  end.

(** What holds of the handlers' state between any two events. *)
Record Inv (st : State) : Prop := {
  inv_time : ∀ r, r ∈ sent st → (r.1 ≤ now st)%Z;
  inv_count : ∀ τ, (now st ≤ τ)%Z →
    (Z.of_nat (count (recent τ) (sent st))
     + Z.of_nat (count (decrement_due τ) (timers st)) ≤ errorCount st)%Z;
  inv_window : ∀ T, (count (in_minute T) (sent st) ≤ 10)%nat;
  inv_cached : ∀ r, r ∈ sent st → (now st < r.1 + 60000)%Z →
    report_key r.2 ∈ errorCache st;
  inv_delete_due : ∀ t k r, t ∈ timers st → action t = DeleteKey k →
    r ∈ sent st → report_key r.2 = k → (r.1 + 60000 ≤ due t)%Z;
  inv_delete_one : ∀ k,
    (count (deletes k) (timers st)
     ≤ if bool_decide (k ∈ errorCache st) then 1 else 0)%nat;
  inv_dedup : ∀ i j r1 r2, (i < j)%nat →
    sent st !! i = Some r1 → sent st !! j = Some r2 →
    report_key r1.2 = report_key r2.2 → (r1.1 + 60000 ≤ r2.1)%Z;
}.

End ErrorReporter.

(** ** The passkey flows (the [keyLogin] click handler, [registerPasskey]) *)
Module Passkey.
Import JsString.
Import Http(Json, JNull, JBool, JNum, JStr, JArr, JObj, JsError, Build_JsError,
            err_name, err_message, Response, Options, Build_Options).

(** What [navigator.credentials.get] resolves to. *)
Record Assertion : Type := {
  as_id : string;
  as_rawId : list byte;
  as_clientDataJSON : list byte;
  as_authenticatorData : list byte;
  as_signature : list byte;
  as_userHandle : option (list byte);
  as_type : string;
}.

(** What [navigator.credentials.create] resolves to. *)
Record Attestation : Type := {
  at_id : string;
  at_rawId : list byte;
  at_clientDataJSON : list byte;
  at_attestationObject : list byte;
  at_type : string;
}.

(** A credential descriptor [{...cred, id: <bytes>}]. *)
Record Descriptor : Type := { desc_source : Json; desc_id : list byte }.

(** The [publicKey] argument of [navigator.credentials.get]. *)
Record RequestOptions : Type := {
  rq_challenge : list byte;
  rq_rpId : option Json;
  rq_allowCredentials : list Descriptor;
  rq_timeout : Json;
  rq_userVerification : Json;
}.

(** The [publicKey] argument of [navigator.credentials.create]. *)
Record CreationOptions : Type := {
  cr_challenge : list byte;
  cr_rp : option Json;
  cr_user_id : list byte;
  cr_user_name : option Json;
  cr_user_displayName : option Json;
  cr_pubKeyCredParams : option Json;
  cr_timeout : option Json;
  cr_excludeCredentials : list Descriptor;
  cr_authenticatorSelection : option Json;
  cr_attestation : option Json;
}.

(** The calls a flow makes on the page, the API and the platform, each
    with the type of what it gives back. *)
Inductive Ev : Type → Type :=
| HasPublicKeyCredential : Ev bool   (* is [window.PublicKeyCredential] truthy *)
| Alert (msg : string) : Ev unit
| ShowMsg (kind text : string) : Ev unit
| ButtonGetHTML : Ev string
| ButtonSetDisabled (disabled : bool) : Ev unit
| ButtonSetHTML (innerHTML : string) : Ev unit
| ApiCall (endpoint : string) (options : Options) : Ev Response
| CredentialsGet (publicKey : RequestOptions) : Ev (option Assertion + JsError)
| CredentialsCreate (publicKey : CreationOptions) : Ev (option Attestation + JsError)
| Prompt (message default : string) : Ev (option string)
| Navigate (to : string) : Ev unit
| LoadPasskeys : Ev unit.

(** A flow: it ends with a value or makes a call and goes on with the
    answer. *)
Inductive prog (A : Type) : Type :=
| Ret (a : A)
| Vis (X : Type) (e : Ev X) (k : X → prog A).
Arguments Ret {A} a.
Arguments Vis {A X} e k.

Fixpoint pbind {A B : Type} (m : prog A) (k : A → prog B) : prog B :=
  match m with
  | Ret a => k a
  | Vis e h => Vis e (λ x, pbind (h x) k)
  end.

Definition call {X : Type} (e : Ev X) : prog X := Vis e Ret.

(** A step that may throw. *)
Definition throwing (A : Type) : Type := prog (A + JsError).

Definition try_bind {A B : Type} (m : throwing A) (k : A → throwing B) : throwing B :=
  pbind m (λ r, match r with inl a => k a | inr e => Ret (inr e) end).

Definition ok_ {A : Type} (a : A) : throwing A := Ret (inl a).
Definition throw {A : Type} (e : JsError) : throwing A := Ret (inr e).
Definition lift {A : Type} (m : prog A) : throwing A := pbind m (λ a, Ret (inl a)).
Definition pure {A : Type} (r : A + JsError) : throwing A := Ret r.

Notation "'let*' x := m 'in' k" := (pbind m (λ x, k))
  (at level 10, x name, m at level 100, k at level 200).
Notation "m ;; k" := (pbind m (λ _, k))
  (at level 100, k at level 200, right associativity).
Notation "'try*' x := m 'in' k" := (try_bind m (λ x, k))
  (at level 10, x name, m at level 100, k at level 200).

(** [new Error(message)]. *)
Definition Error (message : string) : JsError :=
  {| err_name := "Error"; err_message := message |}.

(** The [TypeError] of a property read on [undefined] or [null], or of
    a call of something that is not a function (the message text is the
    engine's). *)
Definition TypeError : JsError :=
  {| err_name := "TypeError"; err_message := "Cannot read properties of undefined" |}.

(** The [DOMException] of [atob] on a text that is not base64. *)
Definition InvalidCharacterError : JsError :=
  {| err_name := "InvalidCharacterError";
     err_message := "The string to be decoded is not correctly encoded." |}.

(** The [SyntaxError] of [response.json()] on a body that is not JSON. *)
Definition SyntaxError : JsError :=
  {| err_name := "SyntaxError"; err_message := "Unexpected token in JSON" |}.

Fixpoint lookup_field (k : string) (fields : list (string * Json)) : option Json :=
  match fields with
  | [] => None
  | (k', v) :: r => if String.eqb k k' then Some v else lookup_field k r
  end.

(** [v.k], where [v] may be [undefined] ([None]). *)
Definition prop (k : string) (v : option Json) : option Json + JsError :=
  match v with
  | None | Some JNull => inr TypeError
  | Some (JObj fields) => inl (lookup_field k fields)
  | Some _ => inl None
  end.

Definition json_truthy (v : option Json) : bool :=
  match v with
  | None | Some JNull => false
  | Some (JBool b) => b
  | Some (JNum n) => negb (n =? 0)%Z
  | Some (JStr s) => truthy s
  | Some (JArr _) | Some (JObj _) => true
  end.

(** [v || d]. *)
Definition json_or (v : option Json) (d : Json) : Json :=
  match v with
  | Some j => if json_truthy v then j else d
  | None => d
  end.

(** [String(v)], for the values the flows put into messages. *)
Fixpoint text_of (j : Json) : string :=
  match j with
  | JNull => "null"
  | JBool true => "true"
  | JBool false => "false"
  | JNum n => pretty n
  | JStr s => s
  | JArr items =>
      (fix join (l : list Json) : string :=
         match l with
         | [] => ""
         | x :: r =>
             let item := match x with JNull => "" | _ => text_of x end in
             match r with
             | [] => item
             | _ :: _ => item +:+ "," +:+ join r
             end
         end) items
  | JObj _ => "[object Object]"
  end.

(** [s.replace(/-/g, '+').replace(/_/g, '/')] run through [atob] and
    [Uint8Array.from], on a value that has to be a string. *)
Definition decode_field (v : option Json) : list byte + JsError :=
  match v with
  | Some (JStr s) =>
      match Base64.base64url_decode (list_ascii_of_string s) with
      | Some bytes => inl bytes
      | None => inr InvalidCharacterError
      end
  | _ => inr TypeError
  end.

(** The base64url text of a binary field, as a JSON string. *)
Definition encode_field (buf : list byte) : Json :=
  JStr (string_of_list_ascii (Base64.base64url_encode buf)).

(** [(list || []).map((cred) => ({ ...cred, id: <decoded cred.id> }))]. *)
Fixpoint decode_descriptors (creds : list Json) : list Descriptor + JsError :=
  match creds with
  | [] => inl []
  | cred :: r =>
      match prop "id" (Some cred) with
      | inr e => inr e
      | inl id =>
          match decode_field id with
          | inr e => inr e
          | inl bytes =>
              match decode_descriptors r with
              | inr e => inr e
              | inl ds => inl ({| desc_source := cred; desc_id := bytes |} :: ds)
              end
          end
      end
  end.

Definition descriptors_of (v : option Json) : list Descriptor + JsError :=
  if json_truthy v then
    match v with
    | Some (JArr creds) => decode_descriptors creds
    | _ => inr TypeError
    end
  else inl [].

Definition json_headers : gmap string string :=
  {[ "Content-Type" := "application/json" ]}.

Definition post_json (body : option Json) : Options :=
  {| Http.method := Some "POST";
     Http.credentials := Some "include";
     Http.opt_headers := Some json_headers;
     Http.body := body |}.

(** [await res.json().catch(() => fallback)]. *)
Definition json_or_else (res : Response) (fallback : Json) : Json :=
  default fallback (Http.json res).

(** *** The click handler of the [keyLogin] button *)

Definition unsupported_alert : string :=
  "❌ Ваш браузер не поддерживает ключи доступа (passkeys).

Используйте современный браузер: Chrome, Edge, Safari или Firefox.".

(** [throw new Error(data.error || fallback)]. *)
Definition throw_error_of {A : Type} (data : Json) (fallback : string) : throwing A :=
  try* e := pure (prop "error" (Some data)) in
  throw (Error (text_of (json_or e (JStr fallback)))).

(** The [credentialData] object of the login flow. *)
Definition assertion_data (credential : Assertion) : Json :=
  JObj [ ("id", JStr (as_id credential));
         ("rawId", encode_field (as_rawId credential));
         ("response",
           JObj [ ("clientDataJSON", encode_field (as_clientDataJSON credential));
                  ("authenticatorData", encode_field (as_authenticatorData credential));
                  ("signature", encode_field (as_signature credential));
                  ("userHandle",
                    match as_userHandle credential with
                    | Some h => encode_field h
                    | None => JNull
                    end) ]);
         ("type", JStr (as_type credential)) ].

(** The body of the [try] block. *)
Definition keyLogin_try : throwing unit :=
  try* optionsRes :=
    lift (call (ApiCall "/auth/passkey/login/options" (post_json (Some (JObj []))))) in
  try* _ :=
    (if negb (Http.ok optionsRes) then
       throw_error_of (json_or_else optionsRes (JObj [("error", JStr "Unknown error")]))
         "Не удалось получить параметры аутентификации"
     else ok_ tt) in
  try* optionsData :=
    pure (match Http.json optionsRes with Some j => inl j | None => inr SyntaxError end) in
  try* data_ok := pure (prop "ok" (Some optionsData)) in
  try* options := pure (prop "options" (Some optionsData)) in
  try* challengeId := pure (prop "challengeId" (Some optionsData)) in
  if negb (json_truthy data_ok) || negb (json_truthy options)
     || negb (json_truthy challengeId)
  then throw (Error "Некорректный ответ сервера")
  else
    try* challenge_text := pure (prop "challenge" options) in
    try* challenge := pure (decode_field challenge_text) in
    try* allowed := pure (prop "allowCredentials" options) in
    try* allowCredentials := pure (descriptors_of allowed) in
    try* rpId := pure (prop "rpId" options) in
    try* timeout := pure (prop "timeout" options) in
    try* userVerification := pure (prop "userVerification" options) in
    let publicKeyOptions :=
      {| rq_challenge := challenge;
         rq_rpId := rpId;
         rq_allowCredentials := allowCredentials;
         rq_timeout := json_or timeout (JNum 60000);
         rq_userVerification := json_or userVerification (JStr "preferred") |} in
    try* _ := lift (call (ButtonSetHTML "🔑 Используйте ключ доступа...")) in
    try* credential := call (CredentialsGet publicKeyOptions) in
    match credential with
    | None => throw (Error "Аутентификация отменена")
    | Some credential =>
        let credentialData := assertion_data credential in
        try* _ := lift (call (ButtonSetHTML "✅ Вход...")) in
        try* loginRes :=
          lift (call (ApiCall "/auth/passkey/login"
                  (post_json (Some (JObj [ ("challengeId", default JNull challengeId);
                                           ("credential", credentialData) ]))))) in
        let loginData := json_or_else loginRes (JObj []) in
        if negb (Http.ok loginRes) then throw_error_of loginData "Ошибка входа"
        else lift (call (Navigate "account-profile"))
    end.

(** The message the [catch] block shows. *)
Definition keyLogin_errorMessage (err : JsError) : string :=
  if String.eqb (err_name err) "NotAllowedError" then
    "❌ Аутентификация отменена или время ожидания истекло"
  else if String.eqb (err_name err) "InvalidStateError" then
    "❌ Ключ доступа не найден на этом устройстве"
  else if truthy (err_message err) then "❌ " +:+ err_message err
  else "Не удалось войти по ключу доступа".

Definition keyLogin_onclick : prog unit :=
  let* supported := call HasPublicKeyCredential in
  if negb supported then call (Alert unsupported_alert)
  else
    let* originalText := call ButtonGetHTML in
    call (ButtonSetDisabled true);;
    call (ButtonSetHTML "🔐 Проверка...");;
    let* outcome := keyLogin_try in
    match outcome with
    | inl _ => Ret tt
    | inr err => call (Alert (keyLogin_errorMessage err))
    end;;
    call (ButtonSetDisabled false);;
    call (ButtonSetHTML originalText).

(** *** [registerPasskey] *)

(** The [credentialData] object of the registration flow. *)
Definition attestation_data (credential : Attestation) : Json :=
  JObj [ ("id", JStr (at_id credential));
         ("rawId", encode_field (at_rawId credential));
         ("response",
           JObj [ ("clientDataJSON", encode_field (at_clientDataJSON credential));
                  ("attestationObject", encode_field (at_attestationObject credential)) ]);
         ("type", JStr (at_type credential)) ].

(** The [try] block after the capability check. *)
Definition registerPasskey_try : throwing unit :=
  try* r1 :=
    lift (call (ApiCall "/auth/passkey/register/options" (post_json None))) in
  let d1 := json_or_else r1 (JObj []) in
  (* [!r1.ok || !d1.ok]: [d1.ok] is read only when [r1.ok] holds *)
  try* d1_ok := pure (if Http.ok r1 then prop "ok" (Some d1) else inl None) in
  if negb (Http.ok r1) || negb (json_truthy d1_ok) then
    lift (call (ShowMsg "error" "Ошибка получения параметров регистрации"))
  else
    try* options := pure (prop "options" (Some d1)) in
    try* challenge_text := pure (prop "challenge" options) in
    try* challenge := pure (decode_field challenge_text) in
    try* user := pure (prop "user" options) in
    try* user_id_text := pure (prop "id" user) in
    try* userId := pure (decode_field user_id_text) in
    try* rp := pure (prop "rp" options) in
    try* user_name := pure (prop "name" user) in
    try* user_displayName := pure (prop "displayName" user) in
    try* pubKeyCredParams := pure (prop "pubKeyCredParams" options) in
    try* timeout := pure (prop "timeout" options) in
    try* excluded := pure (prop "excludeCredentials" options) in
    try* excludeCredentials := pure (descriptors_of excluded) in
    try* authenticatorSelection := pure (prop "authenticatorSelection" options) in
    try* attestation := pure (prop "attestation" options) in
    let publicKeyOptions :=
      {| cr_challenge := challenge;
         cr_rp := rp;
         cr_user_id := userId;
         cr_user_name := user_name;
         cr_user_displayName := user_displayName;
         cr_pubKeyCredParams := pubKeyCredParams;
         cr_timeout := timeout;
         cr_excludeCredentials := excludeCredentials;
         cr_authenticatorSelection := authenticatorSelection;
         cr_attestation := attestation |} in
    try* credential := call (CredentialsCreate publicKeyOptions) in
    match credential with
    | None => lift (call (ShowMsg "error" "Регистрация ключа отменена"))
    | Some credential =>
        let credentialData := attestation_data credential in
        try* answer :=
          lift (call (Prompt "Введите название для этого ключа доступа:" "Мой ключ")) in
        let name := Http.or_string answer "Ключ доступа" in
        try* r2 :=
          lift (call (ApiCall "/auth/passkey/register"
                  (post_json (Some (JObj [ ("credential", credentialData);
                                           ("name", JStr name) ]))))) in
        let d2 := json_or_else r2 (JObj []) in
        (* [r2.ok && d2.ok]: [d2.ok] is read only when [r2.ok] holds *)
        try* d2_ok := pure (if Http.ok r2 then prop "ok" (Some d2) else inl None) in
        if Http.ok r2 && json_truthy d2_ok then
          try* _ := lift (call (ShowMsg "ok" "Ключ доступа успешно добавлен! ✅")) in
          lift (call LoadPasskeys)
        else
          try* d2_error := pure (prop "error" (Some d2)) in
          lift (call (ShowMsg "error"
                  ("Ошибка сохранения ключа: " +:+ text_of (json_or d2_error (JStr "unknown")))))
    end.

Definition registerPasskey : prog unit :=
  let* outcome :=
    (try* supported := lift (call HasPublicKeyCredential) in
     if negb supported then
       lift (call (ShowMsg "error" "Ваш браузер не поддерживает ключи доступа"))
     else registerPasskey_try) in
  match outcome with
  | inl _ => Ret tt
  | inr err =>
      if String.eqb (err_name err) "NotAllowedError" then
        call (ShowMsg "warn" "Регистрация ключа отменена")
      else
        call (ShowMsg "error"
                ("Ошибка: " +:+ Http.or_string (Some (err_message err)) "unknown"))
  end.

(** *** Running a flow *)

(** The page, the API and the platform: they answer each call and move
    to a new state. *)
Definition World (S : Type) : Type := ∀ X : Type, Ev X → S → X * S.

(** A call that was made. *)
Inductive Made : Type := made (X : Type) (e : Ev X).
Arguments made {X} e.

(** The value a flow ends with, the last state, and the calls made. *)
Fixpoint exec {S A : Type} (w : World S) (p : prog A) (s : S) : A * S * list Made :=
  match p with
  | Ret a => (a, s, [])
  | Vis e k =>
      let (x, s') := w _ e s in
      let '(a, s'', log) := exec w (k x) s' in
      (a, s'', made e :: log)
  end.

(** A request to the server or a WebAuthn ceremony. *)
Definition is_request_or_ceremony (m : Made) : bool :=
  match m with
  | made (ApiCall _ _) => true
  | made (CredentialsGet _) => true
  | made (CredentialsCreate _) => true
  | made LoadPasskeys => true
  | made _ => false
  end.

End Passkey.

(** ** Sample inputs used by the examples *)
Module Samples.
Import Http.

Definition unauthorized : Response :=
  {| ok := false; status := 401; statusText := "Unauthorized";
     json := None; text := ""; headers := [] |}.

(** An online browser whose every request is answered with a 401. *)
Definition browser_401 : Browser :=
  {| navigator := NavigatorOnLine true;
     fetch := λ _ _, Resolved unauthorized;
     abort_message := "signal is aborted without reason" |}.

(** An online browser whose every request fails in the network. *)
Definition browser_unreachable : Browser :=
  {| navigator := NavigatorOnLine true;
     fetch := λ _ _,
       Rejected {| err_name := "TypeError"; err_message := "Failed to fetch" |};
     abort_message := "signal is aborted without reason" |}.

(** An online browser whose requests are never answered. *)
Definition browser_hanging : Browser :=
  {| navigator := NavigatorOnLine true;
     fetch := λ _ _, Pending;
     abort_message := "signal is aborted without reason" |}.

(** An offline browser. *)
Definition browser_offline : Browser :=
  {| navigator := NavigatorOnLine false;
     fetch := λ _ _, Pending;
     abort_message := "signal is aborted without reason" |}.

(** The same error twice, a minute apart, the cache timer having run. *)
Definition same_error_twice : list ErrorReporter.Input :=
  [ ErrorReporter.ErrorEvent "boom" "app.js" 3 1;
    ErrorReporter.Elapse 60000;
    ErrorReporter.RunTimer 0;
    ErrorReporter.ErrorEvent "boom" "app.js" 3 1 ].

Definition ok_response (body : Json) : Response :=
  {| ok := true; status := 200; statusText := "OK";
     json := Some body; text := ""; headers := [] |}.

(** A page without [window.PublicKeyCredential]; it would answer every
    request with an empty success. *)
Definition page_without_passkeys : Passkey.World unit :=
  λ X e s,
    match e in Passkey.Ev X return X * unit with
    | Passkey.HasPublicKeyCredential => (false, s)
    | Passkey.Alert _ => (tt, s)
    | Passkey.ShowMsg _ _ => (tt, s)
    | Passkey.ButtonGetHTML => ("Войти с ключом", s)
    | Passkey.ButtonSetDisabled _ => (tt, s)
    | Passkey.ButtonSetHTML _ => (tt, s)
    | Passkey.ApiCall _ _ => (ok_response (JObj []), s)
    | Passkey.CredentialsGet _ => (inl None, s)
    | Passkey.CredentialsCreate _ => (inl None, s)
    | Passkey.Prompt _ _ => (None, s)
    | Passkey.Navigate _ => (tt, s)
    | Passkey.LoadPasskeys => (tt, s)
    end.

Definition sample_assertion : Passkey.Assertion :=
  {| Passkey.as_id := "SGVsbG8";
     Passkey.as_rawId := [x48; x65; x6c; x6c; x6f];
     Passkey.as_clientDataJSON := [x7b; x7d];
     Passkey.as_authenticatorData := [x01];
     Passkey.as_signature := [xfb; xff];
     Passkey.as_userHandle := None;
     Passkey.as_type := "public-key" |}.

(** A page with passkeys, a server that issues the challenge [-__-Pg] and
    accepts the assertion, and an authenticator that signs. *)
Definition page_with_passkeys : Passkey.World unit :=
  λ X e s,
    match e in Passkey.Ev X return X * unit with
    | Passkey.HasPublicKeyCredential => (true, s)
    | Passkey.Alert _ => (tt, s)
    | Passkey.ShowMsg _ _ => (tt, s)
    | Passkey.ButtonGetHTML => ("Войти с ключом", s)
    | Passkey.ButtonSetDisabled _ => (tt, s)
    | Passkey.ButtonSetHTML _ => (tt, s)
    | Passkey.ApiCall endpoint _ =>
        (if String.eqb endpoint "/auth/passkey/login/options" then
           ok_response
             (JObj [ ("ok", JBool true);
                     ("challengeId", JStr "c-1");
                     ("options", JObj [ ("challenge", JStr "-__-Pg");
                                        ("rpId", JStr "cyblight.org") ]) ])
         else ok_response (JObj [("ok", JBool true)]), s)
    | Passkey.CredentialsGet _ => (inl (Some sample_assertion), s)
    | Passkey.CredentialsCreate _ => (inl None, s)
    | Passkey.Prompt _ _ => (None, s)
    | Passkey.Navigate _ => (tt, s)
    | Passkey.LoadPasskeys => (tt, s)
    end.

End Samples.

(** ** Navigation ([navigate], [render]) and the other readers of the route *)
Module Navigation.
Import JsString Router.

(** Letters, digits, [-] and [_]: the characters of a path segment that
    the URL parser neither escapes nor takes for a delimiter. *)
Definition plain_char (c : ascii) : bool :=
  let n := N_of_ascii c in
  ((65 <=? n) && (n <=? 90) || (97 <=? n) && (n <=? 122)
   || (48 <=? n) && (n <=? 57) || (n =? 45) || (n =? 95))%N.

Fixpoint plain_segment (s : string) : bool :=
  match s with
  | EmptyString => true
  | String c r => plain_char c && plain_segment r
  end.

(** [history.pushState({}, '', url)]: the [location.pathname] it leaves,
    for a [url] that is a slash followed by a plain segment. *)
Definition pushState (url : string) : string := url.

(** [render()]: the route of the [cyb:route] event it dispatches. *)
Definition render (pathname : string) : string := getRoute pathname.

(** [navigate(to)]: the new [location.pathname] and the route dispatched. *)
Definition navigate (to : string) : string * string :=
  let pathname := pushState ("/" +:+ to) in
  (pathname, render pathname).

(** The earlier [getRoute], without the profile route. *)
Definition getRoute_v1 (pathname : string) : string :=
  let path := stripped_path pathname in
  if bool_decide (path ∈ routes) then path else "username".

(** [getRouteSafe()] of the easter-egg script; [router] tells whether
    [window.CybRouter.getRoute] is there. *)
Definition getRouteSafe (router : bool) (pathname : string) : string :=
  if router then getRoute pathname
  else
    let path := stripped_path pathname in
    Http.or_string (Some path) "username".

End Navigation.

(** ** The dispatch of routes to views ([renderRoute]) *)
Module Views.
Import JsString Router.

(** The view functions [renderRoute] ends in. *)
Inductive View : Type :=
| viewAccount (tab : string)
| viewEditProfile
| viewVerifyEmail
| view2FAVerify
| renderProfile (username : string)
| viewSignup
| viewUsername
| viewPassword
| viewReset
| viewDone
| viewStrawberryHistory.

(** [renderRoute(r)], reading [location.pathname] through
    [CybRouter.getRouteParam]; the clean-up of the listeners of the view
    left is not part of the model. *)
Definition renderRoute (pathname r : string) : View :=
  if String.eqb r "account-profile" then viewAccount "profile"
  else if String.eqb r "account-security" then viewAccount "security"
  else if String.eqb r "account-sessions" then viewAccount "sessions"
  else if String.eqb r "account-easter-eggs" then viewAccount "easter"
  else if String.eqb r "account-friends" then viewAccount "friends"
  else if String.eqb r "account-messages" then viewAccount "messages"
  else if String.eqb r "edit-profile" then viewEditProfile
  else if String.eqb r "verify-email" then viewVerifyEmail
  else if String.eqb r "2fa-verify" then view2FAVerify
  else if String.eqb r "profile" then
    match getRouteParam pathname "username" with
    | Some username => if truthy username then renderProfile username else viewUsername
    | None => viewUsername
    end
  else if String.eqb r "signup" then viewSignup
  else if String.eqb r "username" then viewUsername
  else if String.eqb r "password" then viewPassword
  else if String.eqb r "reset" then viewReset
  else if String.eqb r "done" then viewDone
  else if String.eqb r "strawberry-history" then viewStrawberryHistory
  else viewUsername.

(** The listener of [cyb:route]: the view shown after [render()]. *)
Definition on_route (pathname : string) : View :=
  renderRoute pathname (Navigation.render pathname).


End Views.

(** ** [escapeHtml] *)
Module Html.

(** The double quote. *)
Definition dquote : ascii := "034"%char.

(** The replacement of one character. *)
Definition escape_char (c : ascii) : string :=
  if (c =? "&")%char then "&amp;"
  else if (c =? "<")%char then "&lt;"
  else if (c =? ">")%char then "&gt;"
  else if (c =? dquote)%char then "&quot;"
  else if (c =? "'")%char then "&#39;"
  else String c EmptyString.

(** The global replacement of the characters of the class by their
    entries in the table. *)
Fixpoint escape_all (text : string) : string :=
  match text with
  | EmptyString => EmptyString
  | String c r => escape_char c +:+ escape_all r
  end.

(** [escapeHtml(s)]; [None] is a [null] or [undefined] argument. *)
Definition escapeHtml (s : option string) : string :=
  escape_all (Http.or_string s "").

(** One of the five characters [escapeHtml] replaces. *)
Definition special (c : ascii) : bool :=
  (c =? "&")%char || (c =? "<")%char || (c =? ">")%char
  || (c =? dquote)%char || (c =? "'")%char.

End Html.

(** ** [validators] *)
Module Validators.

(** The class [[a-zA-Z0-9_]]. *)
Definition word_char (c : ascii) : bool :=
  let n := N_of_ascii c in
  ((97 <=? n) && (n <=? 122) || (65 <=? n) && (n <=? 90)
   || (48 <=? n) && (n <=? 57) || (n =? 95))%N.

Fixpoint all_word_chars (s : string) : bool :=
  match s with
  | EmptyString => true
  | String c r => word_char c && all_word_chars r
  end.

(** [validators.username]: [/^[a-zA-Z0-9_]{3,20}$/.test(user)]. *)
Definition username (user : string) : bool :=
  (3 <=? String.length user)%nat && (String.length user <=? 20)%nat
  && all_word_chars user.

End Validators.

(** ** Web storage ([setStorage], [getStorage]) and the easter-egg flags *)
Module WebStorage.

Definition EASTER_KEY : string := "cyb_strawberry_unlocked".
Definition DARK_TRIGGER_KEY : string := "cyb_dark_trigger_unlocked".

(** A [Storage] object ([localStorage], [sessionStorage]): its items, the
    writes [setItem] refuses by throwing (quota exceeded, storage
    disabled), given the items it holds, and whether [getItem] throws. *)
Record Storage : Type := {
  items : gmap string string;
  setItem_throws : gmap string string → string → string → bool;
  getItem_throws : bool;
}.

(** [storage.setItem(key, value)]; [None] when it throws. *)
Definition setItem (key value : string) (storage : Storage) : option Storage :=
  if setItem_throws storage (items storage) key value then None
  else Some {| items := <[key := value]> (items storage);
               setItem_throws := setItem_throws storage;
               getItem_throws := getItem_throws storage |}.

(** [storage.getItem(key)]: [None] when it throws, [Some None] for
    [null]. *)
Definition getItem (key : string) (storage : Storage) : option (option string) :=
  if getItem_throws storage then None else Some (items storage !! key).

(** [setStorage(key, value, storage)], [value] being the text
    [String(value)] of what is stored. *)
Definition setStorage (key value : string) (storage : Storage) : bool * Storage :=
  match setItem key value storage with
  | Some storage' => (true, storage')
  | None => (false, storage)
  end.

(** [getStorage(key, defaultValue, storage)]; [None] is [null]. *)
Definition getStorage (key : string) (defaultValue : option string)
    (storage : Storage) : option string :=
  match getItem key storage with
  | Some (Some value) => Some value
  | Some None => defaultValue
  | None => defaultValue
  end.

(** [getStorage(key) === '1']. *)
Definition is_one (value : option string) : bool :=
  match value with
  | Some value => String.eqb value "1"
  | None => false
  end.

Definition hasStrawberryAccess (localStorage : Storage) : bool :=
  is_one (getStorage EASTER_KEY None localStorage).

Definition hasDarkTriggerAccess (localStorage : Storage) : bool :=
  is_one (getStorage DARK_TRIGGER_KEY None localStorage).

Definition setStrawberryAccess (localStorage : Storage) : Storage :=
  (setStorage EASTER_KEY "1" localStorage).2.

Definition setDarkTriggerAccess (localStorage : Storage) : Storage :=
  (setStorage DARK_TRIGGER_KEY "1" localStorage).2.

End WebStorage.

(** ** The response cache ([cachedApiCall]) *)
Module ApiCache.
Import Http.

Definition CACHE_DURATION : Z := 5 * 60 * 1000.

(** A value of the [apiCache] map. *)
Record Entry : Type := { data : Response; timestamp : Z }.

(** [cachedApiCall(endpoint, options = {}, cacheKey = endpoint)], run to
    its end on the [apiCache] it finds; [now] and [later] are what
    [Date.now()] gives before and after the request. *)
Definition cachedApiCall (w : Browser) (now later : Z) (endpoint : string)
    (options : option Options) (cacheKey : option string)
    (apiCache : gmap string Entry) : M Response * gmap string Entry :=
  let options := default no_options options in
  let cacheKey := default endpoint cacheKey in
  let fetched :=
    let response := apiCall w endpoint (Some options) None in
    (response,
     if ok response.1 then
       <[cacheKey := {| data := response.1; timestamp := later |}]> apiCache
     else apiCache) in
  match apiCache !! cacheKey with
  | Some cached =>
      if (now - timestamp cached <? CACHE_DURATION)%Z then (ret (data cached), apiCache)
      else fetched
  | None => fetched
  end.

(** One call of [cachedApiCall] and its circumstances. *)
Record Call : Type := {
  call_browser : Browser;
  call_now : Z;
  call_later : Z;
  call_endpoint : string;
  call_options : option Options;
  call_cacheKey : option string;
}.

Definition run_call (apiCache : gmap string Entry) (c : Call) : gmap string Entry :=
  (cachedApiCall (call_browser c) (call_now c) (call_later c) (call_endpoint c)
     (call_options c) (call_cacheKey c) apiCache).2.

(** The cache after a sequence of calls, each run to its end, on a page
    just loaded. *)
Definition run_calls (calls : list Call) : gmap string Entry :=
  fold_left run_call calls ∅.

End ApiCache.

(** ** The session probe and the first render ([checkSession], [boot]) *)
Module Session.
Import JsString Http.

(** [data?.k]. *)
Definition optional_prop (k : string) (data : option Json) : option Json :=
  match data with
  | Some (JObj fields) => Passkey.lookup_field k fields
  | _ => None
  end.

(** The options of the probe. *)
Definition probe_options : Options :=
  {| method := Some "GET"; credentials := Some "include";
     opt_headers := None; body := None |}.

(** [checkSession()]. *)
Definition checkSession (w : Browser) : M bool :=
  do res <- apiCall w "/auth/me" (Some probe_options) None;
  (* [await res.json().catch(() => null)] *)
  let data := json res in
  ret (ok res && Passkey.json_truthy (optional_prop "ok" data)).

Definition allowedWhenLoggedIn : gset string :=
  list_to_set [ "profile"; "strawberry-history"; "verify-email"; "2fa-verify" ].

(** [boot()], on a page whose router is loaded: the [location.pathname]
    it leaves and the view it shows. *)
Definition boot (w : Browser) (pathname : string) : M (string * Views.View) :=
  let r := or_string (Some (Router.getRoute pathname)) "username" in
  do ok <- checkSession w;
  if ok && negb (startsWith "account-" r) && negb (bool_decide (r ∈ allowedWhenLoggedIn))
  then
    let pathname := (Navigation.navigate "account-profile").1 in
    ret (pathname, Views.on_route pathname)
  else ret (pathname, Views.renderRoute pathname r).

End Session.

(** ** [clearAuthCookie] *)
Module Cookies.

(** [s.split(sep)] for a separator of one character. *)
Fixpoint split (sep : ascii) (s : string) : list string :=
  match s with
  | EmptyString => [EmptyString]
  | String c r =>
      if (c =? sep)%char then EmptyString :: split sep r
      else
        match split sep r with
        | h :: t => String c h :: t
        | [] => [String c EmptyString]
        end
  end.

(** [parts.join(sep)]. *)
Fixpoint join (sep : string) (parts : list string) : string :=
  match parts with
  | [] => EmptyString
  | [part] => part
  | part :: rest => part +:+ sep +:+ join sep rest
  end.

(** [parts.slice(-2)]. *)
Definition last_two {A : Type} (parts : list A) : list A :=
  drop (length parts - 2) parts.

(** The [domain] constant. *)
Definition domain (hostname : string) : string :=
  let parts := split "." hostname in
  if (2 <=? length parts)%nat then "." +:+ join "." (last_two parts) else hostname.

Definition expired : string := "; Expires=Thu, 01 Jan 1970 00:00:00 GMT".

(** [clearAuthCookie()]: the texts assigned to [document.cookie], in
    order. *)
Definition clearAuthCookie (hostname : string) : list string :=
  [ "cyb_auth=; Path=/" +:+ expired;
    "cyb_auth=; Path=/; Domain=" +:+ domain hostname +:+ expired;
    "cyb_auth=; Path=/; Domain=" +:+ hostname +:+ expired ].

(** No dot in the text. *)
Fixpoint dotless (s : string) : bool :=
  match s with
  | EmptyString => true
  | String c r => negb (c =? ".")%char && dotless r
  end.

End Cookies.

(** ** [shortId] *)
Module Ids.
Section ShortId.
Context {A : Type}.

(** The index an argument of [slice] stands for, in a sequence of [len]
    elements. *)
Definition relative_index (len i : Z) : Z :=
  (if i <? 0 then Z.max (len + i) 0 else Z.min i len)%Z.

(** [s.slice(start, end)] on the UTF-16 units of a string; an [end]
    left out is [None]. *)
Definition slice (s : list A) (start : Z) (end_ : option Z) : list A :=
  let len := Z.of_nat (length s) in
  let from := relative_index len start in
  let to := match end_ with Some e => relative_index len e | None => len end in
  take (Z.to_nat (to - from)) (drop (Z.to_nat from) s).

(** [shortId(s, left = 6, right = 6)] on the UTF-16 units of
    [String(s || '')]; [ellipsis] is the unit of the character put in
    the middle. *)
Definition shortId (ellipsis : A) (s : list A) (left right : option Z) : list A :=
  let left := default 6%Z left in
  let right := default 6%Z right in
  if (Z.of_nat (length s) <=? left + right + 3)%Z then s
  else (slice s 0 (Some left) ++ [ellipsis] ++ slice s (- right) None)%list.

End ShortId.
End Ids.

(** ** Avatars ([getAvatarEmoji], [canUseAvatar]) *)
Module Avatars.

Record Avatar : Type := {
  id : string;
  emoji : string;
  name : string;
  roles : option (list string);
}.

Definition AVAILABLE_AVATARS : list Avatar :=
  [ {| id := "avatar-cat"; emoji := "🐱"; name := "Кот"; roles := None |};
    {| id := "avatar-dog"; emoji := "🐶"; name := "Собака"; roles := None |};
    {| id := "avatar-fox"; emoji := "🦊"; name := "Лиса"; roles := None |};
    {| id := "avatar-bear"; emoji := "🐻"; name := "Медведь"; roles := None |};
    {| id := "avatar-panda"; emoji := "🐼"; name := "Панда"; roles := None |};
    {| id := "avatar-rabbit"; emoji := "🐰"; name := "Кролик"; roles := None |};
    {| id := "avatar-owl"; emoji := "🦉"; name := "Сова"; roles := None |};
    {| id := "avatar-penguin"; emoji := "🐧"; name := "Пингвин"; roles := None |};
    {| id := "avatar-koala"; emoji := "🐨"; name := "Коала"; roles := None |};
    {| id := "avatar-tiger"; emoji := "🐯"; name := "Тигр"; roles := None |} ].

Definition EXCLUSIVE_AVATARS : list Avatar :=
  [ {| id := "avatar-crown"; emoji := "👑"; name := "Корона";
       roles := Some ["admin"] |};
    {| id := "avatar-shield"; emoji := "🛡️"; name := "Щит";
       roles := Some ["moderator"] |};
    {| id := "avatar-code"; emoji := "💻"; name := "Код";
       roles := Some ["developer"] |};
    {| id := "avatar-verified"; emoji := "✔️"; name := "Галочка";
       roles := Some ["verified"; "admin"; "moderator"] |};
    {| id := "avatar-fire"; emoji := "🔥"; name := "Огонь";
       roles := Some ["vip"; "admin"] |};
    {| id := "avatar-star"; emoji := "⭐"; name := "Звезда";
       roles := Some ["vip"; "verified"] |};
    {| id := "avatar-robot"; emoji := "🤖"; name := "Робот";
       roles := Some ["bot"; "developer"] |};
    {| id := "avatar-diamond"; emoji := "💎"; name := "Алмаз";
       roles := Some ["premium"; "vip"] |} ].

(** [list.find(a => a.id === avatarId)]. *)
Definition find_avatar (avatarId : string) (list : list Avatar) : option Avatar :=
  List.find (λ a, String.eqb (id a) avatarId) list.

(** [roles.includes(userRole)], for a role that is a string. *)
Definition includes_role (userRole : string) (roles : list string) : bool :=
  existsb (String.eqb userRole) roles.

Definition getAvatarEmoji (avatarId : string) : string :=
  match find_avatar avatarId AVAILABLE_AVATARS with
  | Some avatar => emoji avatar
  | None =>
      match find_avatar avatarId EXCLUSIVE_AVATARS with
      | Some exclusive => emoji exclusive
      | None => "👤"
      end
  end.

Definition canUseAvatar (avatarId userRole : string) : bool :=
  match find_avatar avatarId AVAILABLE_AVATARS with
  | Some _ => true
  | None =>
      match find_avatar avatarId EXCLUSIVE_AVATARS with
      | Some exclusive => includes_role userRole (default [] (roles exclusive))
      | None => false
      end
  end.

(** The avatars offered in the profile editor to a user of role
    [userRole]: [EXCLUSIVE_AVATARS.filter(av => canUseAvatar(av.id, role))]. *)
Definition offered_exclusive (userRole : string) : list Avatar :=
  List.filter (λ av, canUseAvatar (id av) userRole) EXCLUSIVE_AVATARS.

End Avatars.

(** ** More sample inputs *)
Module Scenarios.
Import Http.

(** An online browser whose every request is answered with
    [{ ok: true }]. *)
Definition browser_ok : Browser :=
  {| navigator := NavigatorOnLine true;
     fetch := λ _ _, Resolved (Samples.ok_response (JObj [("ok", JBool true)]));
     abort_message := "signal is aborted without reason" |}.

(** A storage that takes every write, and one that refuses every
    write. *)
Definition empty_storage : WebStorage.Storage :=
  {| WebStorage.items := ∅;
     WebStorage.setItem_throws := λ _ _ _, false;
     WebStorage.getItem_throws := false |}.

Definition full_storage : WebStorage.Storage :=
  {| WebStorage.items := ∅;
     WebStorage.setItem_throws := λ _ _ _, true;
     WebStorage.getItem_throws := false |}.

(** Ten rejections with ten different messages, one after the other. *)
Definition ten_rejections : list ErrorReporter.Input :=
  map (λ message, ErrorReporter.RejectionEvent (Some message))
    [ "e0"; "e1"; "e2"; "e3"; "e4"; "e5"; "e6"; "e7"; "e8"; "e9" ].

End Scenarios.

(** ** [cachedApiCall] with its [await]: calls that overlap, and the
     one body of a cached response *)
Module CacheRun.
Import Http.

(** A response object: the number by which it is known, what it holds,
    and whether it is a [Response] of [fetch], whose body can be read
    once, or one of the objects [apiCall] builds itself, whose [json] is
    a plain function. *)
Record Object : Type := {
  object_id : nat;
  response : Response;
  fetched : bool;
}.

(** A value of [apiCache]: [{ data, timestamp }]. *)
Record Slot : Type := { slot_data : Object; slot_timestamp : Z }.

(** A call waiting at [await apiCall(endpoint, options)]. *)
Record Waiting : Type := {
  waiting_endpoint : string;
  waiting_options : Options;
  waiting_cacheKey : string;
}.

(** What a call returned to its caller, and what the call did. *)
Record Returned : Type := { value : Object; effects : list Effect }.

(** The clock, the cache, the calls that wait, the number of response
    objects made, what the calls returned so far (oldest first), the
    objects whose body was read, and what each [json()] gave ([None]
    when it rejected). *)
Record State : Type := {
  clock : Z;
  apiCache : gmap string Slot;
  waiting : list Waiting;
  objects : nat;
  returned : list Returned;
  used : gset nat;
  reads : list (nat * option Json);
}.

Definition initial : State :=
  {| clock := 0; apiCache := ∅; waiting := []; objects := 0; returned := [];
     used := ∅; reads := [] |}.

(** [apiCall] hands on a [Response] of [fetch]: the browser is not
    offline and the request was answered. *)
Definition from_fetch (w : Browser) (endpoint : string) (options : Options) : bool :=
  match navigator w with
  | NavigatorOnLine false => false
  | _ =>
      match fetch w (request_url endpoint) (request_init options) with
      | Resolved _ => true
      | _ => false
      end
  end.

(** [cachedApiCall(endpoint, options = {}, cacheKey = endpoint)] from its
    start to its [return cached.data] or to its [await]. *)
Definition start (endpoint : string) (options : option Options)
    (cacheKey : option string) (st : State) : State :=
  let options := default no_options options in
  let cacheKey := default endpoint cacheKey in
  let wait :=
    {| clock := clock st; apiCache := apiCache st;
       waiting := waiting st
                  ++ [ {| waiting_endpoint := endpoint; waiting_options := options;
                          waiting_cacheKey := cacheKey |} ];
       objects := objects st; returned := returned st;
       used := used st; reads := reads st |} in
  match apiCache st !! cacheKey with
  | Some cached =>
      if (clock st - slot_timestamp cached <? ApiCache.CACHE_DURATION)%Z then
        {| clock := clock st; apiCache := apiCache st; waiting := waiting st;
           objects := objects st;
           returned := returned st ++ [ {| value := slot_data cached; effects := [] |} ];
           used := used st; reads := reads st |}
      else wait
  | None => wait
  end.

(** The same call from the end of its [await] to its [return response],
    the request having been made in the browser [w]. *)
Definition finish (call : Waiting) (w : Browser) (st : State) : State :=
  let result :=
    apiCall w (waiting_endpoint call) (Some (waiting_options call)) None in
  let object :=
    {| object_id := objects st; response := result.1;
       fetched := from_fetch w (waiting_endpoint call) (waiting_options call) |} in
  {| clock := clock st;
     apiCache :=
       if ok result.1 then
         <[waiting_cacheKey call := {| slot_data := object; slot_timestamp := clock st |}]>
           (apiCache st)
       else apiCache st;
     waiting := waiting st;
     objects := S (objects st);
     returned := returned st ++ [ {| value := object; effects := result.2 |} ];
     used := used st; reads := reads st |}.

(** [await response.json()] by the caller that was given [object]. *)
Definition read_json (object : Object) (st : State) : option Json * State :=
  if fetched object && bool_decide (object_id object ∈ used st) then (None, st)
  else
    (json (response object),
     {| clock := clock st; apiCache := apiCache st; waiting := waiting st;
        objects := objects st; returned := returned st;
        used := if fetched object then {[ object_id object ]} ∪ used st else used st;
        reads := reads st |}).

(** What can happen next: time passes, a call starts, the request of a
    waiting call ends, or a caller reads the body of what it was given. *)
Inductive Event : Type :=
| Elapse (ms : N)
| Call (endpoint : string) (options : option Options) (cacheKey : option string)
| Settle (i : nat) (w : Browser)
| ReadJson (j : nat).

Definition step (st : State) (e : Event) : State :=
  match e with
  | Elapse ms =>
      {| clock := clock st + Z.of_N ms; apiCache := apiCache st;
         waiting := waiting st; objects := objects st; returned := returned st;
         used := used st; reads := reads st |}
  | Call endpoint options cacheKey => start endpoint options cacheKey st
  | Settle i w =>
      match waiting st !! i with
      | Some call =>
          finish call w
            {| clock := clock st; apiCache := apiCache st;
               waiting := delete i (waiting st);
               objects := objects st; returned := returned st;
               used := used st; reads := reads st |}
      | None => st
      end
  | ReadJson j =>
      match returned st !! j with
      | Some r =>
          let (answer, st') := read_json (value r) st in
          {| clock := clock st'; apiCache := apiCache st'; waiting := waiting st';
             objects := objects st'; returned := returned st'; used := used st';
             reads := reads st' ++ [ (j, answer) ] |}
      | None => st
      end
  end.

(** The page from its load through a sequence of events. *)
Definition run_events (events : list Event) : State := fold_left step events initial.

(** What holds of every entry of the cache between two events: it was
    stored in the past, its response is a successful [Response] of
    [fetch], and the very object was returned by the call that made the
    request. *)
Definition Stored (st : State) : Prop :=
  ∀ key slot, apiCache st !! key = Some slot →
    (slot_timestamp slot ≤ clock st)%Z
    ∧ ok (response (slot_data slot)) = true
    ∧ fetched (slot_data slot) = true
    ∧ ∃ j r, returned st !! j = Some r ∧ value r = slot_data slot ∧ effects r ≠ [].

(** One call that fetches, its caller reading the body. *)
Definition fetched_and_read : list Event :=
  [ Call "/auth/me" None None; Settle 0 Scenarios.browser_ok; ReadJson 0 ].

End CacheRun.

(** ** Kinds of reports and timers, for the life-long bounds *)
Module Reports.
Import ErrorReporter.

(** The report is one of [window.onunhandledrejection]. *)
Definition is_rejection (r : Z * Report) : bool :=
  match r.2 with
  | PromiseRejection _ => true
  | SyncError _ _ _ _ => false
  end.

(** The timer decrements [errorCount]. *)
Definition is_decrement (t : Timer) : bool :=
  match action t with
  | DecrementCount => true
  | DeleteKey _ => false
  end.

(** [errorCount] pays for every rejection ever reported and for every
    decrement still to come. *)
Definition Lifetime (st : State) : Prop :=
  (Z.of_nat (count is_rejection (sent st))
   + Z.of_nat (count is_decrement (timers st)) ≤ errorCount st)%Z
  ∧ (count is_rejection (sent st) ≤ 10)%nat.

(** Every key of [errorCache] has a pending timer that deletes it, due
    within a minute. *)
Definition Expiring (st : State) : Prop :=
  ∀ k, k ∈ errorCache st →
    ∃ t, t ∈ timers st ∧ action t = DeleteKey k ∧ (due t ≤ now st + 60000)%Z.

End Reports.

(** ** Kinds of calls in the log of a passkey flow *)
Module PasskeyLog.
Import Passkey.

Definition is_message (m : Made) : bool :=
  match m with
  | made (ShowMsg _ _) => true
  | made _ => false
  end.

(** How many calls of a kind were made. *)
Definition times (kind : Made → bool) (log : list Made) : nat :=
  length (List.filter kind log).

(** A server that rejects every assertion, on an origin with passkeys
    and an authenticator that signs. *)
Definition rejecting_server : World unit :=
  λ X e s,
    match e in Ev X return X * unit with
    | ApiCall endpoint options =>
        (if String.eqb endpoint "/auth/passkey/login" then
           {| Http.ok := false; Http.status := 400; Http.statusText := "Bad Request";
              Http.json := Some (Http.JObj [("error", Http.JStr "Invalid signature")]);
              Http.text := ""; Http.headers := [] |}
         else (Samples.page_with_passkeys _ (ApiCall endpoint options) s).1, s)
    | e => Samples.page_with_passkeys _ e s
    end.

End PasskeyLog.

(** ** The passkey flows with their requests made by [apiCall] *)
Module PasskeyHttp.
Import Passkey.

(** What happens during a flow, in order: the calls of the flow with
    their answers and, before the answer of a request, what [apiCall]
    does to get it. *)
Inductive Happened : Type :=
| did (X : Type) (e : Ev X) (answer : X)
| effect (e : Http.Effect).
Arguments did {X} e answer.

(** The answer to a call of a flow: a request is made by
    [apiCall(endpoint, options)] in the browser as it stands ([net]),
    every other call is answered by the page. *)
Definition answer {S X : Type} (page : World S) (net : S → Http.Browser)
    (e : Ev X) (s : S) : X * S * list Happened :=
  match e in Ev X return X * S * list Happened with
  | ApiCall endpoint options =>
      let result := Http.apiCall (net s) endpoint (Some options) None in
      (result.1, (page _ (ApiCall endpoint options) s).2, map effect result.2)
  | e => let (x, s') := page _ e s in (x, s', [])
  end.

(** The value a flow ends with, the last state, and what happened. *)
Fixpoint exec_http {S A : Type} (page : World S) (net : S → Http.Browser)
    (p : prog A) (s : S) : A * S * list Happened :=
  match p with
  | Ret a => (a, s, [])
  | Vis e k =>
      let '(x, s', during) := answer page net e s in
      let '(a, s'', after) := exec_http page net (k x) s' in
      (a, s'', during ++ did e x :: after)%list
  end.

(** [alert] was called. *)
Definition alerted (h : Happened) : bool :=
  match h with
  | did (Alert _) _ => true
  | _ => false
  end.

(** [CybRouter.navigate(to)] was called, by the flow or by [apiCall]. *)
Definition navigated (to : string) (h : Happened) : bool :=
  match h with
  | did (Navigate to') _ => String.eqb to' to
  | effect (Http.Navigate to') => String.eqb to' to
  | _ => false
  end.

(** [CybRouter.navigate] was called. *)
Definition navigated_anywhere (h : Happened) : bool :=
  match h with
  | did (Navigate _) _ => true
  | effect (Http.Navigate _) => true
  | _ => false
  end.

(** What a test says of the response of a request to [endpoint], and
    false for everything else. *)
Definition answered (endpoint : option string) (test : Http.Response → bool)
    (h : Happened) : bool :=
  match h with
  | did e a =>
      match e in Ev X return X → bool with
      | ApiCall endpoint' _ =>
          λ response,
            match endpoint with
            | Some endpoint => String.eqb endpoint' endpoint
            | None => true
            end && test response
      | _ => λ _, false
      end a
  | effect _ => false
  end.

Definition is_401 (response : Http.Response) : bool :=
  (Http.status response =? 401)%Z.

Definition not_ok (response : Http.Response) : bool := negb (Http.ok response).

(** A request was answered with the status 401. *)
Definition unauthorized : Happened → bool := answered None is_401.

(** The assertion was sent and the answer was not [ok]. *)
Definition login_rejected : Happened → bool :=
  answered (Some "/auth/passkey/login") not_ok.

(** The assertion was sent and the answer had the status 401. *)
Definition login_unauthorized : Happened → bool :=
  answered (Some "/auth/passkey/login") is_401.

(** How often something of a kind happened. *)
Definition times (kind : Happened → bool) (log : list Happened) : nat :=
  length (List.filter kind log).

(** The [ok] flag of a response of the network stands for a status from
    200 to 299. *)
Definition coherent {S : Type} (net : S → Http.Browser) : Prop :=
  ∀ s url init response,
    Http.fetch (net s) url init = Http.Resolved response →
    Http.ok response = ((200 <=? Http.status response) && (Http.status response <=? 299))%Z.

(** A server that issues the challenge [-__-Pg] and answers the
    assertion with a 401. *)
Definition server_401 : unit → Http.Browser :=
  λ _,
    {| Http.navigator := Http.NavigatorOnLine true;
       Http.fetch := λ url _,
         if String.eqb url "https://api.cyblight.org/auth/passkey/login/options" then
           Http.Resolved
             (Samples.ok_response
                (Http.JObj [ ("ok", Http.JBool true);
                             ("challengeId", Http.JStr "c-1");
                             ("options",
                               Http.JObj [ ("challenge", Http.JStr "-__-Pg");
                                           ("rpId", Http.JStr "cyblight.org") ]) ]))
         else
           Http.Resolved
             {| Http.ok := false; Http.status := 401; Http.statusText := "Unauthorized";
                Http.json := Some (Http.JObj [("error", Http.JStr "Invalid signature")]);
                Http.text := ""; Http.headers := [] |};
       Http.abort_message := "signal is aborted without reason" |}.

End PasskeyHttp.

(** ** The status line of the account page ([getUserStatus],
     [buildBadges]) *)
Module Status.

(** The properties of [user] the two functions read; a number or a
    list that is missing is [None]. *)
Record User : Type := {
  isBlocked : bool;
  flags : option (list string);
  role : option string;
  createdAt : option Z;
  sessionsCount : option Z;
  emailVerified : bool;
  twoFactorEnabled : bool;
}.

(** A status or a badge: [{ label, cls, title }], the title being
    optional. *)
Record Tag : Type := { label : string; cls : string; title : option string }.

Record UserStatus : Type := { main : Tag; badges : list Tag }.

(** [user.flags?.includes(flag)]. *)
Definition flags_include (flag : string) (user : User) : bool :=
  match flags user with
  | Some l => existsb (String.eqb flag) l
  | None => false
  end.

(** [flags.has(flag)] for [flags = new Set(user.flags || [])]. *)
Definition has (flag : string) (user : User) : bool :=
  existsb (String.eqb flag) (default [] (flags user)).

(** [user.role === r]. *)
Definition role_is (r : string) (user : User) : bool :=
  match role user with
  | Some x => String.eqb x r
  | None => false
  end.

(** The text with a double quote in the place of each apostrophe. *)
Fixpoint double_quoted (s : string) : string :=
  match s with
  | EmptyString => EmptyString
  | String c r =>
      String (if (c =? "'")%char then Html.dquote else c) (double_quoted r)
  end.

Definition verified_icon : string :=
  double_quoted
    "<svg class='verified-icon-inline' viewBox='0 0 24 24' fill='none'><circle cx='12' cy='12' r='10' fill='#3b82f6'/><path d='M9 12l2 2 4-4' stroke='white' stroke-width='2' stroke-linecap='round' stroke-linejoin='round'/></svg>".

Definition badge (label cls : string) : Tag :=
  {| label := label; cls := cls; title := None |}.

(** [badges.push(b)] under a condition. *)
Definition push_if (condition : bool) (b : Tag) : list Tag :=
  if condition then [b] else [].

(** [buildBadges(user, opts)]; [includeRoleBadges] is
    [opts.includeRoleBadges !== false]. *)
Definition buildBadges (user : User) (includeRoleBadges : bool) : list Tag :=
  ([ if emailVerified user then
       {| label := verified_icon; cls := "badge--verified"; title := Some "Verified" |}
     else badge "Not verified" "badge--warn" ]
   ++ push_if (twoFactorEnabled user || has "2fa" user) (badge "2FA" "badge--ok")
   ++ push_if (has "dev" user || has "developer" user) (badge "Dev" "badge--dev")
   ++ push_if (has "premium" user || has "sponsor" user)
        {| label := "★"; cls := "badge--premium"; title := Some "Premium" |}
   ++ push_if (has "helper" user || has "contributor" user) (badge "Helper" "badge--info")
   ++ (if includeRoleBadges then
         push_if (role_is "admin" user) (badge "ADMIN" "badge--admin")
         ++ push_if (role_is "moderator" user) (badge "MODERATOR" "badge--mod")
       else [])
   ++ push_if (has "trusted" user) (badge "Trusted" "badge--ok")
   ++ push_if (has "beta" user) (badge "Beta" "badge--beta"))%list.

(** The constant [days]: whole days since [user.createdAt], 0 without
    it; [now] is [Date.now()]. *)
Definition days (now : Z) (user : User) : Z :=
  match createdAt user with
  | Some created => if (created =? 0)%Z then 0%Z else ((now - created) / 86400000)%Z
  | None => 0%Z
  end.

(** The constant [sessionsCount]: [Number(user.sessionsCount || 0)]. *)
Definition sessions (user : User) : Z := default 0%Z (sessionsCount user).

(** [getUserStatus(user)]. *)
Definition getUserStatus (now : Z) (user : User) : UserStatus :=
  if isBlocked user || flags_include "banned" user then
    {| main := badge "Заблокирован" "status--blocked"; badges := [] |}
  else if role_is "admin" user || flags_include "admin" user then
    {| main := badge "Администратор" "status--admin";
       badges := buildBadges user false |}
  else if role_is "moderator" user || flags_include "moderator" user then
    {| main := badge "Модератор" "status--mod";
       badges := buildBadges user false |}
  else
    let days := days now user in
    let sessionsCount := sessions user in
    let main :=
      if ((days <? 7) || (sessionsCount <? 3))%Z then
        badge "Новичок" "status--newbie"
      else if ((days <? 30) || (sessionsCount <? 20))%Z then
        badge "Активный" "status--active"
      else if ((days <? 180) || (sessionsCount <? 80))%Z then
        badge "Постоянный" "status--regular"
      else badge "Ветеран" "status--veteran" in
    {| main := main; badges := buildBadges user true |}.

(** The place of a status in the scale of ranks. *)
Definition rank (status : Tag) : nat :=
  if String.eqb (cls status) "status--newbie" then 0
  else if String.eqb (cls status) "status--active" then 1
  else if String.eqb (cls status) "status--regular" then 2
  else if String.eqb (cls status) "status--veteran" then 3
  else 4.

(** The user is blocked or banned, or is an admin or a moderator by
    role or by flag. *)
Definition special (user : User) : bool :=
  isBlocked user || flags_include "banned" user
  || role_is "admin" user || flags_include "admin" user
  || role_is "moderator" user || flags_include "moderator" user.

(** A user of two hundred days with a hundred sessions, at a clock of
    two hundred days and one. *)
Definition veteran : User :=
  {| isBlocked := false; flags := Some ["beta"]; role := Some "user";
     createdAt := Some 86400000%Z; sessionsCount := Some 100%Z;
     emailVerified := true; twoFactorEnabled := false |}.

Definition newcomer : User :=
  {| isBlocked := false; flags := None; role := None;
     createdAt := None; sessionsCount := None;
     emailVerified := false; twoFactorEnabled := false |}.

End Status.

(** * Properties *)

(** ** Base64url round trip *)
Section Base64Facts.
Import Base64 Base64Text.
Local Open Scope list_scope.

(** Induction over a list three elements at a time, the way [btoa]
    consumes its input. *)
Lemma list_ind3 {A : Type} (P : list A → Prop) :
  P [] → (∀ a, P [a]) → (∀ a b, P [a; b]) →
  (∀ a b c r, P r → P (a :: b :: c :: r)) → ∀ l, P l.
Proof.
  intros H0 H1 H2 H3.
  fix IH 1. intros [|a [|b [|c r]]];
    [apply H0 | apply H1 | apply H2 | apply H3, IH].
Qed.

Lemma sextet_table : forallb sextet_ok (map N.of_nat (seq 0 64)) = true.
Proof. vm_compute. reflexivity. Qed.

Lemma sextet_ok_lt (n : N) : (n < 64)%N → sextet_ok n = true.
Proof.
  intros Hn. pose proof sextet_table as H.
  rewrite forallb_forall in H. apply H.
  apply in_map_iff. exists (N.to_nat n). split; [apply N2Nat.id|].
  apply in_seq. lia.
Qed.

Lemma sextet_facts (n : N) :
  (n < 64)%N →
  (to_url (sextet_char n) =? "=")%char = false
  ∧ from_url (to_url (sextet_char n)) = sextet_char n
  ∧ char_sextet (sextet_char n) = Some n
  ∧ is_ascii_whitespace (sextet_char n) = false
  ∧ (sextet_char n =? "=")%char = false.
Proof.
  intros Hn. pose proof (sextet_ok_lt n Hn) as H. unfold sextet_ok in H.
  repeat (apply andb_prop in H; destruct H as [H ?]).
  repeat split.
  - by apply negb_true_iff.
  - by apply Ascii.eqb_eq.
  - destruct (char_sextet (sextet_char n)) as [m|]; [|done].
    f_equal. by apply N.eqb_eq.
  - by apply negb_true_iff.
  - by apply negb_true_iff.
Qed.

Lemma N_of_ascii_lt (a : ascii) : (N_of_ascii a < 256)%N.
Proof. apply N_ascii_bounded. Qed.

Local Ltac Zify.zify_post_hook ::= Z.to_euclidean_division_equations.

Lemma enc_sextets_bound (s : list ascii) :
  Forall (λ n, (n < 64)%N) (enc_sextets s).
Proof.
  induction s as [|a|a b|a b c r IH] using list_ind3; cbn [enc_sextets].
  - constructor.
  - pose proof (N_of_ascii_lt a).
    repeat (apply List.Forall_cons; [lia|]). constructor.
  - pose proof (N_of_ascii_lt a). pose proof (N_of_ascii_lt b).
    repeat (apply List.Forall_cons; [lia|]). constructor.
  - pose proof (N_of_ascii_lt a). pose proof (N_of_ascii_lt b).
    pose proof (N_of_ascii_lt c).
    repeat (apply List.Forall_cons; [lia|]). exact IH.
Qed.

Lemma btoa_sextets (s : list ascii) :
  btoa s = map sextet_char (enc_sextets s) ++ enc_padding s.
Proof.
  induction s as [|a|a b|a b c r IH] using list_ind3;
    [reflexivity | reflexivity | reflexivity |].
  cbn [btoa enc_sextets map app]. rewrite IH.
  replace (enc_padding (a :: b :: c :: r)) with (enc_padding r); [done|].
  unfold enc_padding. cbn [length].
  replace (S (S (S (length r)))) with (length r + 1 * 3)%nat by lia.
  by rewrite Nat.Div0.mod_add.
Qed.

Lemma enc_sextets_length (s : list ascii) :
  (length (enc_sextets s) mod 4)%nat ≠ 1%nat.
Proof.
  induction s as [|a|a b|a b c r IH] using list_ind3;
    [done | done | done |].
  cbn [enc_sextets length].
  replace (S (S (S (S (length (enc_sextets r))))))
    with (length (enc_sextets r) + 1 * 4)%nat by lia.
  by rewrite Nat.Div0.mod_add.
Qed.

Lemma btoa_length (s : list ascii) : (length (btoa s) mod 4)%nat = 0%nat.
Proof.
  induction s as [|a|a b|a b c r IH] using list_ind3;
    [done | done | done |].
  cbn [btoa length].
  replace (S (S (S (S (length (btoa r))))))
    with (length (btoa r) + 1 * 4)%nat by lia.
  by rewrite Nat.Div0.mod_add.
Qed.

Lemma ascii_of_N_eq (a : ascii) (x : N) : x = N_of_ascii a → ascii_of_N x = a.
Proof. intros ->. apply ascii_N_embedding. Qed.

Lemma decode_loop_enc (s : list ascii) :
  decode_loop (enc_sextets s) 0%N 0%nat = s.
Proof.
  induction s as [|a|a b|a b c r IH] using list_ind3.
  - reflexivity.
  - cbn [enc_sextets decode_loop Nat.add Nat.eqb].
    pose proof (N_of_ascii_lt a).
    rewrite (ascii_of_N_eq a) by lia. reflexivity.
  - cbn [enc_sextets decode_loop Nat.add Nat.eqb].
    pose proof (N_of_ascii_lt a). pose proof (N_of_ascii_lt b).
    rewrite (ascii_of_N_eq a) by lia. rewrite (ascii_of_N_eq b) by lia.
    reflexivity.
  - cbn [enc_sextets decode_loop Nat.add Nat.eqb]. rewrite IH.
    pose proof (N_of_ascii_lt a). pose proof (N_of_ascii_lt b).
    pose proof (N_of_ascii_lt c).
    rewrite (ascii_of_N_eq a) by lia. rewrite (ascii_of_N_eq b) by lia.
    rewrite (ascii_of_N_eq c) by lia. reflexivity.
Qed.

Lemma filter_all {A : Type} (P : A → Prop) `{∀ x, Decision (P x)} (l : list A) :
  Forall P l → filter P l = l.
Proof.
  induction 1 as [|x l Hx Hl IH]; [done|].
  rewrite filter_cons_True by done. by rewrite IH.
Qed.

Lemma std_text_no_pad (l : list N) :
  Forall (λ n, (n < 64)%N) l →
  Forall (λ c, (c =? "=")%char = false) (std_text l).
Proof.
  intros Hl. apply List.Forall_map. eapply Forall_impl; [exact Hl|].
  intros n Hn. cbn. apply (sextet_facts n Hn).
Qed.

Lemma std_text_no_space (l : list N) :
  Forall (λ n, (n < 64)%N) l →
  Forall (λ c, is_ascii_whitespace c = false) (std_text l).
Proof.
  intros Hl. apply List.Forall_map. eapply Forall_impl; [exact Hl|].
  intros n Hn. cbn. apply (sextet_facts n Hn).
Qed.

Lemma url_text_no_pad (l : list N) :
  Forall (λ n, (n < 64)%N) l →
  Forall (λ c, (c =? "=")%char = false) (url_text l).
Proof.
  intros Hl. apply List.Forall_map. eapply Forall_impl; [exact Hl|].
  intros n Hn. cbn. apply (sextet_facts n Hn).
Qed.

Lemma from_url_text (l : list N) :
  Forall (λ n, (n < 64)%N) l → map from_url (url_text l) = std_text l.
Proof.
  unfold url_text, std_text. rewrite map_map.
  induction 1 as [|n l Hn Hl IH]; [done|].
  cbn [map]. rewrite IH. f_equal. apply (sextet_facts n Hn).
Qed.

Lemma sextets_of_std_text (l : list N) :
  Forall (λ n, (n < 64)%N) l → sextets_of (std_text l) = Some l.
Proof.
  induction 1 as [|n l Hn Hl IH]; [done|].
  cbn [std_text map sextets_of]. fold (std_text l). rewrite IH.
  destruct (sextet_facts n Hn) as (_ & _ & -> & _). done.
Qed.

Lemma enc_padding_padding (s : list ascii) : padding (enc_padding s).
Proof.
  unfold enc_padding. destruct (length s mod 3)%nat as [|[|[|k]]]; constructor.
Qed.

Lemma remove_padding_none (X : list ascii) :
  Forall (λ c, (c =? "=")%char = false) X → remove_padding X = X.
Proof.
  intros HX. unfold remove_padding.
  destruct (rev X) as [|c r] eqn:E; [done|].
  assert (Hc : (c =? "=")%char = false).
  { rewrite Forall_forall in HX. apply HX.
    apply list_elem_of_In, in_rev. rewrite E. by left. }
  by rewrite Hc.
Qed.

Lemma remove_padding_app (X pad : list ascii) :
  Forall (λ c, (c =? "=")%char = false) X → padding pad →
  remove_padding (X ++ pad) = X.
Proof.
  intros HX Hpad.
  assert (Hhead : ∀ c r, rev X = c :: r → (c =? "=")%char = false).
  { intros c r E. rewrite Forall_forall in HX. apply HX.
    apply list_elem_of_In, in_rev. rewrite E. by left. }
  destruct Hpad.
  - rewrite app_nil_r. by apply remove_padding_none.
  - unfold remove_padding. rewrite rev_app_distr. cbn.
    destruct (rev X) as [|c r] eqn:E.
    + apply (f_equal (@rev ascii)) in E. rewrite rev_involutive in E. by subst X.
    + rewrite (Hhead c r eq_refl). rewrite <- E. apply rev_involutive.
  - unfold remove_padding. rewrite rev_app_distr. cbn. apply rev_involutive.
Qed.

Lemma padding_no_space (pad : list ascii) :
  padding pad → Forall (λ c, is_ascii_whitespace c = false) pad.
Proof. destruct 1; repeat constructor. Qed.

Lemma padding_length (pad : list ascii) (n : nat) :
  padding pad → pad ≠ [] → ((n + length pad) mod 4)%nat = 0%nat →
  (n mod 4)%nat ≠ 0%nat.
Proof.
  intros Hpad Hne H0 Hn.
  pose proof (Nat.div_mod_eq n 4). pose proof (Nat.div_mod_eq (n + length pad) 4).
  destruct Hpad; cbn [length] in *; [done|lia|lia].
Qed.

(** [atob] on a text made of alphabet characters followed by padding. *)
Lemma atob_std_text (l : list N) (pad : list ascii) :
  Forall (λ n, (n < 64)%N) l →
  (length l mod 4)%nat ≠ 1%nat →
  padding pad →
  (pad ≠ [] → (length (std_text l ++ pad) mod 4)%nat = 0%nat) →
  atob (std_text l ++ pad) = Some (decode_loop l 0%N 0%nat).
Proof.
  intros Hl Hlen Hpad Hfull. unfold atob.
  rewrite filter_all
    by (apply Forall_app; split; [by apply std_text_no_space | by apply padding_no_space]).
  assert (Hdata :
    (if (length (std_text l ++ pad) mod 4 =? 0)%nat
     then remove_padding (std_text l ++ pad) else std_text l ++ pad) = std_text l).
  { destruct (length (std_text l ++ pad) mod 4 =? 0)%nat eqn:E.
    - apply remove_padding_app; [by apply std_text_no_pad | done].
    - destruct pad as [|c pad]; [by rewrite app_nil_r|].
      apply Nat.eqb_neq in E. by destruct E; apply Hfull. }
  rewrite Hdata. unfold std_text at 1. rewrite length_map.
  destruct (length l mod 4 =? 1)%nat eqn:E; [by apply Nat.eqb_eq in E|].
  by rewrite sextets_of_std_text.
Qed.

Lemma replace_all_to_url (s : list ascii) :
  replace_all "/" "_" (replace_all "+" "-" s) = map to_url s.
Proof. unfold replace_all. by rewrite map_map. Qed.

Lemma replace_all_from_url (s : list ascii) :
  replace_all "_" "/" (replace_all "-" "+" s) = map from_url s.
Proof. unfold replace_all. by rewrite map_map. Qed.

Lemma to_url_padding (pad : list ascii) : padding pad → map to_url pad = pad.
Proof. by destruct 1. Qed.

Lemma from_url_padding (pad : list ascii) : padding pad → map from_url pad = pad.
Proof. by destruct 1. Qed.

Lemma remove_all_padding (pad : list ascii) : padding pad → remove_all "=" pad = [].
Proof. by destruct 1. Qed.

Lemma encode_padded_text (buf : list byte) :
  base64url_encode_padded buf
  = url_text (enc_sextets (fromCharCode buf)) ++ enc_padding (fromCharCode buf).
Proof.
  unfold base64url_encode_padded.
  rewrite replace_all_to_url, btoa_sextets, map_app, map_map.
  by rewrite to_url_padding by apply enc_padding_padding.
Qed.

Lemma encode_text (buf : list byte) :
  base64url_encode buf = url_text (enc_sextets (fromCharCode buf)).
Proof.
  unfold base64url_encode. fold (base64url_encode_padded buf).
  rewrite encode_padded_text. unfold remove_all. rewrite filter_app.
  rewrite filter_all by apply url_text_no_pad, enc_sextets_bound.
  fold (remove_all "=" (enc_padding (fromCharCode buf))).
  rewrite remove_all_padding by apply enc_padding_padding.
  apply app_nil_r.
Qed.

Lemma charCodes_fromCharCode (buf : list byte) : charCodes (fromCharCode buf) = buf.
Proof.
  unfold charCodes, fromCharCode. rewrite map_map.
  induction buf as [|b buf IH]; [done|].
  cbn [map]. by rewrite IH, byte_of_ascii_of_byte.
Qed.
End Base64Facts.

(** C1: for every byte buffer [buf], decoding the base64url text that the
  passkey flows produce for [buf] gives [buf] back, and so does decoding
  the same text with its [=] padding kept: the decoder accepts padded
  and unpadded input alike. *)
Theorem C1_base64url_roundtrip (buf : list byte) :
  Base64.base64url_decode (Base64.base64url_encode buf) = Some buf
  ∧ Base64.base64url_decode (Base64.base64url_encode_padded buf) = Some buf.
Proof.
  pose proof (enc_sextets_bound (Base64.fromCharCode buf)) as Hb.
  pose proof (enc_sextets_length (Base64.fromCharCode buf)) as Hlen.
  split; unfold Base64.base64url_decode; rewrite replace_all_from_url.
  - rewrite encode_text, from_url_text by done.
    rewrite <- (app_nil_r (Base64Text.std_text _)).
    rewrite atob_std_text; [|done|done|constructor|done].
    by rewrite decode_loop_enc, charCodes_fromCharCode.
  - rewrite encode_padded_text, map_app, from_url_text by done.
    rewrite from_url_padding by apply enc_padding_padding.
    rewrite atob_std_text; [|done|done|apply enc_padding_padding|].
    + by rewrite decode_loop_enc, charCodes_fromCharCode.
    + intros _. unfold Base64Text.std_text. rewrite <- btoa_sextets.
      apply btoa_length.
Qed.

Example b64_hello :
  Base64.base64url_encode [x48; x65; x6c; x6c; x6f]
  = list_ascii_of_string "SGVsbG8".
Proof. vm_compute. reflexivity. Qed.

Example b64_ff :
  Base64.base64url_encode [xfb; xff; xfe; x3e] = list_ascii_of_string "-__-Pg"
  ∧ Base64.base64url_decode (list_ascii_of_string "-__-Pg")
    = Some [xfb; xff; xfe; x3e]
  ∧ Base64.base64url_decode (list_ascii_of_string "-__-Pg==")
    = Some [xfb; xff; xfe; x3e]
  ∧ Base64.base64url_decode (list_ascii_of_string "-__-P") = None.
Proof. vm_compute. repeat split; reflexivity. Qed.

(** ** The error handlers on examples *)

Example number_text_examples :
  ErrorReporter.number_text 42 = "42" ∧ ErrorReporter.number_text (-7) = "-7"
  ∧ ErrorReporter.number_text 0 = "0".
Proof. vm_compute. done. Qed.

Example rate_limit_example :
  let burst :=
    map (λ n, ErrorReporter.ErrorEvent "boom" "app.js" (Z.of_nat n) 1) (seq 0 12) in
  length (ErrorReporter.sent (ErrorReporter.run_events burst)) = 10%nat
  ∧ ErrorReporter.errorCount (ErrorReporter.run_events burst) = 12%Z.
Proof. vm_compute. done. Qed.

(** ** The HTTP client wrapper *)
Section HttpFacts.
Import JsString Http.

Variables (w : Browser) (endpoint : string) (options : option Options)
          (timeoutMs : option Z).

Lemma apiCall_offline :
  navigator w = NavigatorOnLine false →
  apiCall w endpoint options timeoutMs = (offlineResponse, []).
Proof. intros H. unfold apiCall. by rewrite H. Qed.

(** The three ways an online call ends. *)
Lemma apiCall_online :
  navigator w ≠ NavigatorOnLine false →
  apiCall w endpoint options timeoutMs
  = match fetch w (request_url endpoint) (request_init (default no_options options)) with
    | Resolved response =>
        (response,
         [ SetTimeout (default 10000%Z timeoutMs);
           Fetch (request_url endpoint) (request_init (default no_options options));
           ClearTimeout ]
         ++ if redirects response endpoint then [Navigate "username"] else [])
    | Rejected error =>
        (errorResponse error,
         [ SetTimeout (default 10000%Z timeoutMs);
           Fetch (request_url endpoint) (request_init (default no_options options));
           ClearTimeout ])
    | Pending =>
        (errorResponse {| err_name := "AbortError"; err_message := abort_message w |},
         [ SetTimeout (default 10000%Z timeoutMs);
           Fetch (request_url endpoint) (request_init (default no_options options));
           Abort (default 10000%Z timeoutMs);
           ClearTimeout ])
    end%list.
Proof.
  intros H. unfold apiCall, await_fetch.
  destruct (navigator w) as [|[|]]; try done;
    destruct (fetch w _ _) as [response|error|]; cbn; try done;
    by destruct (redirects response endpoint).
Qed.

Lemma errorMessage_not_empty (error : JsError) : errorMessage error ≠ "".
Proof.
  unfold errorMessage, or_string.
  repeat (case_match; try done).
  by destruct (err_message error).
Qed.

Lemma redirects_excluded (response : Response) :
  redirects response endpoint
  = (status response =? 401)%Z
    && negb (existsb (λ fragment, includes fragment endpoint) excluded_endpoints).
Proof.
  unfold redirects, excluded_endpoints. cbn [existsb].
  rewrite orb_false_r, !negb_orb, !andb_assoc. done.
Qed.
End HttpFacts.

(** C3 as stated: membership of the endpoint in the list of excluded
    endpoints decides whether a 401 navigates.  The search helper's
    endpoint with the query [/auth/me] is not in the list, yet its 401 does
    not navigate, because the code tests for the listed texts anywhere in
    the endpoint string. *)
Lemma C3_membership_counterexample :
  ¬ (∀ (w : Http.Browser) (endpoint : string) (options : option Http.Options)
       (timeoutMs : option Z) (response : Http.Response),
       Http.navigator w ≠ Http.NavigatorOnLine false →
       Http.fetch w (Http.request_url endpoint)
         (Http.request_init (default Http.no_options options)) = Http.Resolved response →
       Http.status response = 401%Z →
       (endpoint ∈ Http.excluded_endpoints →
        filter (λ e, Http.is_navigate e = true)
          (Http.apiCall w endpoint options timeoutMs).2 = [])
       ∧ (endpoint ∉ Http.excluded_endpoints →
          filter (λ e, Http.is_navigate e = true)
            (Http.apiCall w endpoint options timeoutMs).2 = [Http.Navigate "username"])).
Proof.
  intros H.
  destruct (H Samples.browser_401 "/search/users?q=/auth/me" None None
              Samples.unauthorized) as [_ Hout];
    [done | done | done |].
  assert (Hnot : "/search/users?q=/auth/me" ∉ Http.excluded_endpoints).
  { unfold Http.excluded_endpoints. rewrite !not_elem_of_cons.
    repeat split; try done. apply not_elem_of_nil. }
  specialize (Hout Hnot). vm_compute in Hout. discriminate Hout.
Qed.

(** C3, amended: when the fetch of an online call resolves with status
    401, the call navigates to the [username] route exactly when none of
    the texts [/auth/me], [/auth/login], [/auth/register],
    [/auth/login-history], [/auth/trusted-devices] occurs in the endpoint
    string; when one of them occurs anywhere in it, no navigation is made. *)
Theorem C3_unauthorized_redirect
    (w : Http.Browser) (endpoint : string) (options : option Http.Options)
    (timeoutMs : option Z) (response : Http.Response) :
  Http.navigator w ≠ Http.NavigatorOnLine false →
  Http.fetch w (Http.request_url endpoint)
    (Http.request_init (default Http.no_options options)) = Http.Resolved response →
  Http.status response = 401%Z →
  (Http.apiCall w endpoint options timeoutMs).1 = response
  ∧ filter (λ e, Http.is_navigate e = true) (Http.apiCall w endpoint options timeoutMs).2
    = if existsb (λ fragment, JsString.includes fragment endpoint) Http.excluded_endpoints
      then [] else [Http.Navigate "username"].
Proof.
  intros Hon Hfetch Hstatus.
  rewrite apiCall_online by done. rewrite Hfetch. cbn [fst snd].
  split; [done|].
  rewrite redirects_excluded, Hstatus. cbn [Z.eqb Pos.eqb andb].
  by destruct (existsb _ _).
Qed.

Lemma C3_unauthorized_redirect_witness :
  filter (λ e, Http.is_navigate e = true)
    (Http.apiCall Samples.browser_401 "/auth/sessions" None None).2
  = [Http.Navigate "username"]
  ∧ filter (λ e, Http.is_navigate e = true)
      (Http.apiCall Samples.browser_401 "/auth/login-history?limit=50" None None).2
    = [].
Proof.
  split.
  - exact (proj2 (C3_unauthorized_redirect Samples.browser_401 "/auth/sessions"
                    None None Samples.unauthorized
                    ltac:(discriminate) eq_refl eq_refl)).
  - exact (proj2 (C3_unauthorized_redirect Samples.browser_401
                    "/auth/login-history?limit=50"
                    None None Samples.unauthorized
                    ltac:(discriminate) eq_refl eq_refl)).
Defined.

(** C4: whenever the fetch of a call does not resolve -- it rejects with
    any error, or it is still pending when the timer aborts it -- the call
    returns a response object whose [ok] is false, whose [status] is 0 and
    whose [json()] gives an object with a non-empty [error] text. *)
Theorem C4_network_error_response
    (w : Http.Browser) (endpoint : string) (options : option Http.Options)
    (timeoutMs : option Z) :
  (∀ response,
     Http.fetch w (Http.request_url endpoint)
       (Http.request_init (default Http.no_options options)) ≠ Http.Resolved response) →
  ∃ message : string,
    message ≠ ""
    ∧ Http.ok (Http.apiCall w endpoint options timeoutMs).1 = false
    ∧ Http.status (Http.apiCall w endpoint options timeoutMs).1 = 0%Z
    ∧ Http.json (Http.apiCall w endpoint options timeoutMs).1
      = Some (Http.JObj [("error", Http.JStr message)]).
Proof.
  intros Hfetch.
  assert (Hcases : Http.navigator w = Http.NavigatorOnLine false
                   ∨ Http.navigator w ≠ Http.NavigatorOnLine false).
  { destruct (Http.navigator w) as [|[|]]; [by right | by right | by left]. }
  destruct Hcases as [Hoff|Hon].
  - rewrite apiCall_offline by done. eexists. by repeat split.
  - rewrite apiCall_online by done.
    destruct (Http.fetch w _ _) as [response|error|] eqn:E.
    + by destruct (Hfetch response).
    + eexists. repeat split. apply errorMessage_not_empty.
    + eexists. repeat split. apply errorMessage_not_empty.
Qed.

Lemma C4_network_error_response_witness :
  ∃ message : string,
    message ≠ ""
    ∧ Http.ok (Http.apiCall Samples.browser_unreachable "/auth/sessions" None None).1
      = false
    ∧ Http.status (Http.apiCall Samples.browser_unreachable "/auth/sessions" None None).1
      = 0%Z
    ∧ Http.json (Http.apiCall Samples.browser_unreachable "/auth/sessions" None None).1
      = Some (Http.JObj [("error", Http.JStr message)]).
Proof.
  apply (C4_network_error_response Samples.browser_unreachable "/auth/sessions" None None).
  intros response. discriminate.
Defined.

(** C5: when [navigator.onLine] is false, the call returns a response with
    [ok] false and [status] 0 and has no effect at all: no timer is armed
    and no fetch is made. *)
Theorem C5_offline_short_circuit
    (w : Http.Browser) (endpoint : string) (options : option Http.Options)
    (timeoutMs : option Z) :
  Http.navigator w = Http.NavigatorOnLine false →
  Http.ok (Http.apiCall w endpoint options timeoutMs).1 = false
  ∧ Http.status (Http.apiCall w endpoint options timeoutMs).1 = 0%Z
  ∧ (Http.apiCall w endpoint options timeoutMs).2 = [].
Proof. intros H. by rewrite apiCall_offline. Qed.

Lemma C5_offline_short_circuit_witness :
  Http.ok (Http.apiCall Samples.browser_offline "/auth/me" None None).1 = false
  ∧ Http.status (Http.apiCall Samples.browser_offline "/auth/me" None None).1 = 0%Z
  ∧ (Http.apiCall Samples.browser_offline "/auth/me" None None).2 = [].
Proof.
  apply (C5_offline_short_circuit Samples.browser_offline "/auth/me" None None).
  reflexivity.
Defined.

(** ** The abort timer *)
Section EventLoopFacts.
Import JsString Http EventLoop.
Local Open Scope list_scope.

(** The timer that runs next is pending, and none is due before it. *)
Lemma earliest_spec (l : list Timer) :
  match earliest l with
  | Some i => ∃ t, l !! i = Some t ∧ ∀ t', t' ∈ l → (due t ≤ due t')%Z
  | None => l = []
  end.
Proof.
  induction l as [|t r IH]; [done|]. cbn [earliest].
  destruct (earliest r) as [i|].
  - destruct IH as (t' & Hi & Hmin). rewrite Hi.
    destruct (Z.ltb_spec (due t') (due t)) as [Hlt|Hge].
    + exists t'. split; [exact Hi|].
      intros x Hx. apply elem_of_cons in Hx as [->|Hx]; [lia | by apply Hmin].
    + exists t. split; [done|].
      intros x Hx. apply elem_of_cons in Hx as [->|Hx]; [lia|].
      specialize (Hmin x Hx). lia.
  - subst r. exists t. split; [done|].
    intros x Hx. apply elem_of_cons in Hx as [->|Hx]; [lia|].
    by apply elem_of_nil in Hx.
Qed.

Lemma delete_keeps {A : Type} (l : list A) (i : nat) (x y : A) :
  l !! i = Some x → y ∈ l → y ≠ x → y ∈ delete i l.
Proof.
  revert i. induction l as [|a l IH]; intros [|i] Hi Hy Hne; try done.
  - cbn in Hi. injection Hi as ->.
    apply elem_of_cons in Hy as [Hy|Hy]; [done | exact Hy].
  - cbn in Hi. cbn [delete list_delete].
    apply elem_of_cons in Hy as [->|Hy]; [apply list_elem_of_here|].
    apply list_elem_of_further. by apply (IH i).
Qed.

Lemma delete_within {A : Type} (l : list A) (i : nat) (y : A) :
  y ∈ delete i l → y ∈ l.
Proof.
  revert i. induction l as [|a l IH]; intros [|i] Hy; try done.
  - by apply list_elem_of_further.
  - cbn [delete list_delete] in Hy.
    apply elem_of_cons in Hy as [->|Hy]; [apply list_elem_of_here|].
    apply list_elem_of_further. by apply (IH i).
Qed.

Lemma delete_length {A : Type} (l : list A) (i : nat) (x : A) :
  l !! i = Some x → length l = S (length (delete i l)).
Proof.
  revert i. induction l as [|a l IH]; intros [|i] Hi; try done.
  cbn in Hi. cbn [delete list_delete length]. f_equal. by apply (IH i).
Qed.

Lemma signal_aborted_iff (p : Promise) (st : Loop) (c : Controller) :
  signal p = Some c → signal_aborted p st = bool_decide (c ∈ aborted st).
Proof. intros H. unfold signal_aborted. by rewrite H. Qed.

(** A pending request is aborted by the timer that holds its controller:
    the loop runs the timers due before it, then that timer, and the
    request rejects with an [AbortError] at the time the timer is due. *)
Lemma settle_aborts (w : Browser) (p : Promise) (c : Controller) (dueT delayT : Z) :
  fate p = Pending → signal p = Some c →
  ∀ (n : nat) (st : Loop),
    length (timers st) = n →
    c ∉ aborted st →
    (∃ t, t ∈ timers st ∧ aborts t = c) →
    (∀ t, t ∈ timers st → aborts t = c → due t = dueT ∧ delay t = delayT) →
    (now st ≤ dueT)%Z →
    ∃ st',
      settle n w p st
      = Some (inr {| err_name := "AbortError"; err_message := abort_message w |}, st')
      ∧ now st' = dueT
      ∧ c ∈ aborted st'
      ∧ controllers st' = controllers st
      ∧ timeouts st' = timeouts st.
Proof.
  intros Hfate Hsignal. induction n as [|n IH]; intros st Hlen Hfresh Hhas Hsame Hnow.
  { destruct Hhas as (t & Ht & _). destruct (timers st); [|done].
    by apply elem_of_nil in Ht. }
  cbn [settle]. rewrite (signal_aborted_iff p st c Hsignal).
  rewrite (bool_decide_eq_false_2 _ Hfresh), Hfate.
  pose proof (earliest_spec (timers st)) as Hnext.
  destruct (earliest (timers st)) as [i|].
  2:{ destruct Hhas as (t & Ht & _). rewrite Hnext in Ht. by apply elem_of_nil in Ht. }
  destruct Hnext as (t & Hi & Hmin). rewrite Hi.
  destruct Hhas as (T & HT & HTc).
  destruct (Hsame T HT HTc) as [HTdue HTdelay].
  assert (Hdue : (due t ≤ dueT)%Z) by (rewrite <- HTdue; by apply Hmin).
  destruct (decide (aborts t = c)) as [Htc|Htc].
  - (* the timer of this request runs *)
    destruct (Hsame t (list_elem_of_lookup_2 _ _ _ Hi) Htc) as [Htdue _].
    unfold run_timer. unfold aborts in Htc. destruct (callback t) as [c'].
    subst c'. eexists. split.
    + destruct n; cbn [settle]; rewrite (signal_aborted_iff p _ c Hsignal);
        cbn [aborted]; rewrite bool_decide_eq_true_2 by apply list_elem_of_here;
        reflexivity.
    + cbn [now aborted controllers timeouts]. split; [lia|].
      split; [apply list_elem_of_here | done].
  - (* a timer of another request runs first *)
    assert (HTt : T ≠ t) by (intros ->; done).
    destruct (IH (run_timer i t st)) as (st' & Hst' & Hnow' & Hab & Hc & Ht').
    + unfold run_timer. destruct (callback t). cbn [timers].
      pose proof (delete_length _ _ _ Hi) as Hl. lia.
    + unfold run_timer. unfold aborts in Htc. destruct (callback t) as [c'].
      cbn [aborted]. intros Hin. apply elem_of_cons in Hin as [Hin|Hin]; [done|done].
    + exists T. split; [|exact HTc].
      unfold run_timer. destruct (callback t). cbn [timers].
      by apply (delete_keeps _ i t).
    + intros x Hx. apply Hsame.
      unfold run_timer in Hx. destruct (callback t). cbn [timers] in Hx.
      by apply (delete_within _ i).
    + unfold run_timer. destruct (callback t). cbn [now]. lia.
    + exists st'. split; [exact Hst'|]. split; [exact Hnow'|]. split; [exact Hab|].
      unfold run_timer in Hc, Ht'. destruct (callback t).
      cbn [controllers timeouts] in Hc, Ht'. done.
Qed.

(** Without the signal, or without a timer that aborts its controller, a
    pending request is never settled: the call does not return. *)
Lemma pending_not_aborted_hangs (w : Browser) (p : Promise) :
  fate p = Pending →
  ∀ (n : nat) (st : Loop),
    (signal p = None
     ∨ (∃ c, signal p = Some c ∧ (c ∉ aborted st)
             ∧ ∀ t, t ∈ timers st → aborts t ≠ c)) →
    settle n w p st = None.
Proof.
  intros Hfate. induction n as [|n IH]; intros st Hcannot.
  - cbn [settle].
    replace (signal_aborted p st) with false; [by rewrite Hfate|].
    destruct Hcannot as [Hnone|(c & Hc & Hfresh & _)].
    + unfold signal_aborted. by rewrite Hnone.
    + rewrite (signal_aborted_iff p st c Hc). by rewrite bool_decide_eq_false_2.
  - cbn [settle].
    replace (signal_aborted p st) with false.
    2:{ destruct Hcannot as [Hnone|(c & Hc & Hfresh & _)].
        - unfold signal_aborted. by rewrite Hnone.
        - rewrite (signal_aborted_iff p st c Hc). by rewrite bool_decide_eq_false_2. }
    rewrite Hfate. destruct (earliest (timers st)) as [i|]; [|done].
    destruct (timers st !! i) as [t|] eqn:Hi; [|done].
    apply IH. destruct Hcannot as [Hnone|(c & Hc & Hfresh & Hothers)]; [by left|].
    right. exists c. split; [exact Hc|].
    pose proof (Hothers t (list_elem_of_lookup_2 _ _ _ Hi)) as Ht.
    unfold run_timer. unfold aborts in Ht. destruct (callback t) as [c'].
    cbn [aborted timers]. split.
    + intros Hin. apply elem_of_cons in Hin as [Hin|Hin]; [by subst c'|done].
    + intros x Hx. apply Hothers. by apply (delete_within _ i).
Qed.

(** The call of a browser that is not offline. *)
Lemma apiCall_loop_online (w : Browser) (endpoint : string) (options : option Options)
    (timeoutMs : option Z) (st : Loop) :
  navigator w ≠ NavigatorOnLine false →
  EventLoop.apiCall w endpoint options timeoutMs st
  = (let (controller, st) := newAbortController st in
     let (timeoutId, st) :=
       setTimeout (AbortCallback controller) (default 10000%Z timeoutMs) st in
     let (promise, st) :=
       fetch_with w (request_url endpoint) (request_init (default no_options options))
         (Some controller) st in
     match await w promise st with
     | Some (inl response, st) =>
         let st := clearTimeout timeoutId st in
         let st :=
           if redirects response endpoint then navigate "username" st else st in
         Some (response, st)
     | Some (inr error, st) =>
         let st := clearTimeout timeoutId st in
         Some (errorResponse error, st)
     | None => None
     end).
Proof. intros Hon. unfold EventLoop.apiCall. by destruct (navigator w) as [|[|]]. Qed.

(** On a loop with no other timer pending, the call ends as [Http.apiCall]
    says, with the same response and the same effects. *)
Lemma apiCall_on_idle_loop (w : Browser) (endpoint : string) (options : option Options)
    (timeoutMs : option Z) (st : Loop) :
  well_formed st → timers st = [] →
  ∃ st',
    EventLoop.apiCall w endpoint options timeoutMs st
    = Some ((Http.apiCall w endpoint options timeoutMs).1, st')
    ∧ log st' = log st ++ (Http.apiCall w endpoint options timeoutMs).2.
Proof.
  intros [_ Hab] Hidle.
  assert (Hcase : navigator w = NavigatorOnLine false
                  ∨ navigator w ≠ NavigatorOnLine false)
    by (destruct (navigator w) as [|[|]]; [right | right | left]; done).
  destruct Hcase as [Hoff|Hon].
  - rewrite apiCall_offline by exact Hoff. unfold EventLoop.apiCall. rewrite Hoff.
    exists st. by rewrite app_nil_r.
  - rewrite apiCall_online by exact Hon. rewrite apiCall_loop_online by exact Hon.
    cbn [newAbortController setTimeout fetch_with].
    unfold await. cbn [timers]. rewrite Hidle, app_nil_l. cbn [length settle].
    unfold signal_aborted. cbn [signal aborted fate].
    rewrite bool_decide_eq_false_2 by (intros Hin; specialize (Hab _ Hin); lia).
    destruct (fetch w _ _) as [response|error|].
    + eexists. split; [reflexivity|]. cbn [fst snd].
      destruct (redirects response endpoint); cbn [log clearTimeout navigate];
        by rewrite <- ?app_assoc.
    + eexists. split; [reflexivity|]. cbn [fst snd log clearTimeout].
      by rewrite <- ?app_assoc.
    + cbn [earliest timers lookup list_lookup run_timer callback aborted].
      rewrite bool_decide_eq_true_2 by apply list_elem_of_here.
      eexists. split; [reflexivity|]. cbn [fst snd log clearTimeout delay].
      by rewrite <- ?app_assoc.
Qed.

Lemma settle_well_formed (w : Browser) (p : Promise) (n : nat) (st st' : Loop)
    (r : Response + JsError) :
  well_formed st → settle n w p st = Some (r, st') → well_formed st'.
Proof.
  revert st. induction n as [|n IH]; intros st Hwf; cbn [settle].
  - destruct (signal_aborted p st); [by intros [= _ <-]|].
    destruct (fate p); [by intros [= _ <-] | by intros [= _ <-] | done].
  - destruct (signal_aborted p st); [by intros [= _ <-]|].
    destruct (fate p); [by intros [= _ <-] | by intros [= _ <-] |].
    destruct (earliest (timers st)) as [i|]; [|done].
    destruct (timers st !! i) as [t|] eqn:Hi; [|done].
    apply IH. destruct Hwf as [Htimers Hab].
    pose proof (Htimers t (list_elem_of_lookup_2 _ _ _ Hi)) as Ht.
    unfold run_timer. unfold aborts in Ht. destruct (callback t) as [c].
    split; cbn [timers aborted controllers].
    + intros x Hx. apply Htimers. by apply (delete_within _ i).
    + intros x Hx. apply elem_of_cons in Hx as [->|Hx]; [exact Ht | by apply Hab].
Qed.

(** A call leaves the loop as it has to find it. *)
Lemma apiCall_well_formed (w : Browser) (endpoint : string) (options : option Options)
    (timeoutMs : option Z) (st st' : Loop) (response : Response) :
  well_formed st →
  EventLoop.apiCall w endpoint options timeoutMs st = Some (response, st') →
  well_formed st'.
Proof.
  intros Hwf. unfold EventLoop.apiCall.
  assert (Hcleared : ∀ id s, well_formed s → well_formed (clearTimeout id s)).
  { intros id s [Ht Ha]. split; cbn [clearTimeout timers aborted controllers]; [|done].
    intros x Hx. apply Ht. by apply list_elem_of_filter in Hx as [_ Hx]. }
  assert (Hstart : ∀ url init ms,
    well_formed
      (fetch_with w url init (Some (controllers st))
         (setTimeout (AbortCallback (controllers st)) ms (newAbortController st).2).2).2).
  { intros url init ms. destruct Hwf as [Ht Ha].
    split; cbn [fetch_with setTimeout newAbortController snd timers aborted controllers].
    - intros x Hx. apply elem_of_app in Hx as [Hx|Hx]; [specialize (Ht x Hx); lia|].
      apply list_elem_of_singleton in Hx. subst x. cbn. lia.
    - intros c Hc. specialize (Ha c Hc). lia. }
  destruct (navigator w) as [|[|]]; [ | |by intros [= _ <-]].
  all: cbn [newAbortController setTimeout fetch_with].
  all: destruct (await w _ _) as [[[r|e] s]|] eqn:E; [| |done].
  all: unfold await in E; apply settle_well_formed in E; [|apply Hstart].
  all: intros [= _ <-].
  all: try (destruct (redirects r endpoint); [|by apply Hcleared]).
  all: try (by apply Hcleared).
  all: destruct (Hcleared (timeouts st) s E) as [Ht Ha]; split; done.
Qed.
End EventLoopFacts.

(** C6: when the fetch of an online call never settles by itself, the call
    does not hang. The timer it set -- with the [timeoutMs] argument, 10000
    when the argument is left out -- comes due, its callback aborts the
    call's own controller, the request, which was given that controller's
    signal, rejects with an [AbortError], and the call returns, at the
    time the timer is due, a response with [ok] false, [status] 0 and
    [statusText] [Request timeout]. This holds whatever other timers are
    pending; with none pending the effects are the timer, the request, the
    abort and [clearTimeout], in this order. *)
Theorem C6_timeout_response
    (w : Http.Browser) (endpoint : string) (options : option Http.Options)
    (timeoutMs : option Z) (st : EventLoop.Loop) :
  Http.navigator w ≠ Http.NavigatorOnLine false →
  Http.fetch w (Http.request_url endpoint)
    (Http.request_init (default Http.no_options options)) = Http.Pending →
  EventLoop.well_formed st →
  let delay := match timeoutMs with Some ms => ms | None => 10000%Z end in
  ∃ (response : Http.Response) (st' : EventLoop.Loop),
    EventLoop.apiCall w endpoint options timeoutMs st = Some (response, st')
    ∧ Http.ok response = false
    ∧ Http.status response = 0%Z
    ∧ Http.statusText response = "Request timeout"
    ∧ EventLoop.now st' = (EventLoop.now st + Z.max 0 delay)%Z
    ∧ EventLoop.controllers st ∈ EventLoop.aborted st'
    ∧ (EventLoop.timers st = [] →
       EventLoop.log st'
       = (EventLoop.log st
          ++ [ Http.SetTimeout delay;
               Http.Fetch (Http.request_url endpoint)
                 (Http.request_init (default Http.no_options options));
               Http.Abort delay;
               Http.ClearTimeout ])%list).
Proof.
  intros Hon Hfetch Hwf delay.
  assert (Hdelay : default 10000%Z timeoutMs = delay) by (by destruct timeoutMs).
  destruct Hwf as [Htimers Hab].
  rewrite apiCall_loop_online by exact Hon.
  cbn [EventLoop.newAbortController EventLoop.setTimeout EventLoop.fetch_with
       EventLoop.now EventLoop.timers EventLoop.aborted EventLoop.controllers
       EventLoop.timeouts EventLoop.log].
  rewrite Hfetch, Hdelay. unfold EventLoop.await.
  cbn [EventLoop.now EventLoop.timers EventLoop.aborted EventLoop.controllers
       EventLoop.timeouts EventLoop.log].
  set (T := {| EventLoop.timer_id := EventLoop.timeouts st;
               EventLoop.delay := delay;
               EventLoop.due := EventLoop.now st + Z.max 0 delay;
               EventLoop.callback := EventLoop.AbortCallback (EventLoop.controllers st) |}).
  match goal with
  | |- context [EventLoop.settle ?n w ?q ?s] => set (p := q); set (st1 := s)
  end.
  destruct (settle_aborts w p (EventLoop.controllers st)
              (EventLoop.now st + Z.max 0 delay) delay eq_refl eq_refl
              (length (EventLoop.timers st1)) st1 eq_refl)
    as (st2 & Hsettle & Hnow & Haborted & _ & _).
  - cbn [st1 EventLoop.aborted]. intros Hin. specialize (Hab _ Hin). lia.
  - exists T. split; [|done]. cbn [st1 EventLoop.timers].
    apply elem_of_app. right. apply list_elem_of_here.
  - cbn [st1 EventLoop.timers]. intros t Ht Hc.
    apply elem_of_app in Ht as [Ht|Ht].
    + specialize (Htimers t Ht). lia.
    + apply list_elem_of_singleton in Ht. by subst t.
  - cbn [st1 EventLoop.now]. lia.
  - cbn [st1 EventLoop.timers] in *. rewrite Hsettle.
    eexists _, _. split; [reflexivity|].
    split; [done|]. split; [done|]. split; [done|].
    cbn [EventLoop.clearTimeout EventLoop.now EventLoop.aborted].
    split; [exact Hnow|]. split; [exact Haborted|].
    intros Hidle. revert Hsettle. subst p st1 T. rewrite Hidle, app_nil_l.
    cbn [length EventLoop.settle].
    unfold EventLoop.signal_aborted. cbn [EventLoop.signal EventLoop.aborted EventLoop.fate].
    rewrite bool_decide_eq_false_2 by (intros Hin; specialize (Hab _ Hin); lia).
    cbn [EventLoop.earliest EventLoop.timers lookup list_lookup EventLoop.run_timer
         EventLoop.callback EventLoop.aborted].
    rewrite bool_decide_eq_true_2 by apply list_elem_of_here.
    intros [= <-]. cbn [EventLoop.log EventLoop.delay EventLoop.clearTimeout].
    by rewrite <- !app_assoc.
Qed.

Lemma C6_timeout_response_witness :
  ∃ (response : Http.Response) (st' : EventLoop.Loop),
    EventLoop.apiCall Samples.browser_hanging "/auth/me" None None EventLoop.idle
    = Some (response, st')
    ∧ Http.ok response = false
    ∧ Http.status response = 0%Z
    ∧ Http.statusText response = "Request timeout"
    ∧ EventLoop.now st' = 10000%Z
    ∧ 0%nat ∈ EventLoop.aborted st'
    ∧ (EventLoop.timers EventLoop.idle = [] →
       EventLoop.log st'
       = [ Http.SetTimeout 10000;
           Http.Fetch (Http.request_url "/auth/me") (Http.request_init Http.no_options);
           Http.Abort 10000;
           Http.ClearTimeout ]).
Proof.
  apply (C6_timeout_response Samples.browser_hanging "/auth/me" None None EventLoop.idle).
  - discriminate.
  - reflexivity.
  - split; intros x Hx; by apply elem_of_nil in Hx.
Defined.

Example timeout_among_other_timers :
  let busy :=
    {| EventLoop.now := 500;
       EventLoop.timers :=
         [ {| EventLoop.timer_id := 0; EventLoop.delay := 10000; EventLoop.due := 10200;
              EventLoop.callback := EventLoop.AbortCallback 0 |};
           {| EventLoop.timer_id := 1; EventLoop.delay := 30000; EventLoop.due := 30400;
              EventLoop.callback := EventLoop.AbortCallback 1 |} ];
       EventLoop.aborted := []; EventLoop.controllers := 2; EventLoop.timeouts := 2;
       EventLoop.log := [] |} in
  match EventLoop.apiCall Samples.browser_hanging "/auth/me" None (Some 15000%Z) busy with
  | Some (response, st') =>
      Http.statusText response = "Request timeout"
      ∧ EventLoop.now st' = 15500%Z
      ∧ EventLoop.aborted st' = [2; 0]%nat
      ∧ map EventLoop.timer_id (EventLoop.timers st') = [1%nat]
  | None => False
  end.
Proof. vm_compute. done. Qed.

(** ** The global error handlers *)
Section ErrorReporterFacts.
Import ErrorReporter.
Local Open Scope nat_scope.
Local Open Scope list_scope.

Lemma count_app {A : Type} (f : A → bool) (l1 l2 : list A) :
  count f (l1 ++ l2) = count f l1 + count f l2.
Proof. induction l1 as [|x l1 IH]; cbn; [done|]. rewrite IH. lia. Qed.

Lemma count_mono {A : Type} (f g : A → bool) (l : list A) :
  (∀ x, x ∈ l → f x = true → g x = true) → count f l ≤ count g l.
Proof.
  induction l as [|x l IH]; intros H; cbn; [done|].
  assert (count f l ≤ count g l) by (apply IH; intros y Hy; apply H; by right).
  destruct (f x) eqn:E; [|lia].
  rewrite (H x) by (done || by left). lia.
Qed.

Lemma count_none {A : Type} (f : A → bool) (l : list A) (x : A) :
  count f l = 0 → x ∈ l → f x = false.
Proof.
  induction l as [|y l IH]; cbn; intros H Hx; [by apply elem_of_nil in Hx|].
  apply elem_of_cons in Hx as [->|Hx].
  - destruct (f y); [lia|done].
  - apply IH; [|done]. destruct (f y); lia.
Qed.

Lemma delete_split {A : Type} (l : list A) (i : nat) (x : A) :
  l !! i = Some x → ∃ l1 l2, l = l1 ++ x :: l2 ∧ delete i l = l1 ++ l2.
Proof.
  intros H. exists (take i l), (drop (S i) l). split.
  - symmetry. by apply take_drop_middle.
  - apply delete_take_drop.
Qed.

Lemma same_error_key (r1 r2 : Report) :
  same_error r1 r2 → report_key r1 = report_key r2.
Proof.
  destruct r1, r2; cbn; try done.
  - by intros (-> & -> & ->).
  - by intros ->.
Qed.

Lemma initial_inv : Inv initial.
Proof.
  constructor; cbn; intros; try lia; try done;
    match goal with H : _ ∈ [] |- _ => by apply elem_of_nil in H end.
Qed.

Lemma elapse_inv (st : State) (ms : N) : Inv st → Inv (step st (Elapse ms)).
Proof.
  intros [Ht Hc Hw Hk Hd Ho Hdd]. constructor; cbn; try done.
  - intros r Hr. specialize (Ht r Hr). lia.
  - intros τ Hτ. apply Hc. lia.
  - intros r Hr Hrecent. apply Hk; [done|]. lia.
Qed.

(** A new key is cached and the count incremented, and nothing is posted:
    the path of an error beyond the limit. *)
Lemma dropped_inv (st : State) (k : string) :
  Inv st → k ∉ errorCache st → Inv (increment (remember k st)).
Proof.
  intros [Ht Hc Hw Hk Hd Ho Hdd] Hfresh. constructor; cbn; try done.
  - intros τ Hτ. rewrite count_app. cbn. specialize (Hc τ Hτ). lia.
  - intros r Hr Hrecent. apply elem_of_union_r. by apply Hk.
  - intros t k' r Hin Hact Hr Hkey.
    apply elem_of_app in Hin as [Hin|Hin]; [by eapply Hd|].
    apply list_elem_of_singleton in Hin as ->. cbn in *.
    specialize (Ht r Hr). lia.
  - intros k'. rewrite count_app. cbn. specialize (Ho k').
    destruct (decide (k = k')) as [->|Hne].
    + rewrite bool_decide_eq_true_2 by done.
      rewrite (bool_decide_eq_false_2 (k' ∈ errorCache st)) in Ho by done.
      rewrite (bool_decide_eq_true_2 (k' ∈ {[k']} ∪ errorCache st)) by set_solver.
      lia.
    + rewrite (bool_decide_eq_false_2 (k = k')) by done.
      destruct (bool_decide (k' ∈ errorCache st)) eqn:E.
      * apply bool_decide_eq_true in E.
        rewrite (bool_decide_eq_true_2 (k' ∈ {[k]} ∪ errorCache st)) by set_solver.
        lia.
      * lia.
Qed.

(** A new key is cached, the count incremented and the report posted, with
    ([decr = true], [window.onerror]) or without ([decr = false],
    [window.onunhandledrejection]) a timer that decrements the count. *)
Lemma posted_inv (st : State) (k : string) (r : Report) (decr : bool) :
  Inv st → k ∉ errorCache st → (errorCount st + 1 ≤ 10)%Z → report_key r = k →
  Inv (post r ((if decr then schedule_decrement else id) (increment (remember k st)))).
Proof.
  intros Hst Hfresh Hlimit Hkey.
  pose proof (dropped_inv st k Hst Hfresh) as [Ht Hc Hw Hk Hd Ho Hdd].
  assert (Hold : ∀ r', r' ∈ sent st → report_key r'.2 = k → (r'.1 + 60000 ≤ now st)%Z).
  { intros r' Hr' Hk'. destruct (Z_lt_le_dec (now st) (r'.1 + 60000)) as [Hlt|]; [|done].
    destruct Hfresh. rewrite <- Hk'. by apply (inv_cached st Hst). }
  assert (Hsent : sent (post r ((if decr then schedule_decrement else id)
                    (increment (remember k st)))) = sent st ++ [(now st, r)])
    by by destruct decr.
  assert (Hnow : now (post r ((if decr then schedule_decrement else id)
                    (increment (remember k st)))) = now st)
    by by destruct decr.
  assert (Hcache : errorCache (post r ((if decr then schedule_decrement else id)
                    (increment (remember k st)))) = {[k]} ∪ errorCache st)
    by by destruct decr.
  assert (Hcount : errorCount (post r ((if decr then schedule_decrement else id)
                    (increment (remember k st)))) = (errorCount st + 1)%Z)
    by by destruct decr.
  assert (Htimers : timers (post r ((if decr then schedule_decrement else id)
                    (increment (remember k st))))
            = timers (increment (remember k st))
              ++ if decr then [ {| due := now st + 60000; action := DecrementCount |} ]
                 else [])
    by (destruct decr; cbn; by rewrite ?app_nil_r).
  cbn in Ht, Hc, Hw, Hk, Hd, Ho, Hdd.
  constructor; rewrite ?Hsent, ?Hnow, ?Hcache, ?Hcount, ?Htimers.
  - intros r' Hr'. apply elem_of_app in Hr' as [Hr'|Hr']; [by apply Ht|].
    apply list_elem_of_singleton in Hr' as ->. cbn. lia.
  - intros τ Hτ. rewrite !count_app. specialize (Hc τ Hτ).
    assert (Z.of_nat (count (recent τ) [(now st, r)])
            + Z.of_nat (count (decrement_due τ)
                (if decr then [ {| due := now st + 60000; action := DecrementCount |} ]
                 else [])) ≤ 1)%Z.
    { destruct decr; cbn; unfold recent, decrement_due; cbn.
      - destruct (Z.ltb_spec τ (now st + 60000)), (Z.leb_spec (now st + 60000) τ); lia.
      - destruct (Z.ltb_spec τ (now st + 60000)); lia. }
    pose proof (inv_count st Hst τ Hτ) as Hc0.
    cbn [timers increment remember]. rewrite count_app.
    change (count (decrement_due τ)
              [ {| due := now st + 60000; action := DeleteKey k |} ]) with 0.
    lia.
  - intros T. rewrite count_app. cbn.
    destruct (in_minute T (now st, r)) eqn:E; [|specialize (Hw T); lia].
    unfold in_minute in E. cbn in E. apply andb_prop in E as [E1 E2].
    apply Z.leb_le in E1. apply Z.ltb_lt in E2.
    assert (count (in_minute T) (sent st) ≤ count (recent (now st)) (sent st)).
    { apply count_mono. intros r' _ Hr'. unfold in_minute in Hr'.
      apply andb_prop in Hr' as [Hr1 Hr2]. apply Z.leb_le in Hr1.
      unfold recent. apply Z.ltb_lt. lia. }
    pose proof (inv_count st Hst (now st) ltac:(lia)). lia.
  - intros r' Hr' Hrecent. apply elem_of_app in Hr' as [Hr'|Hr']; [by apply Hk|].
    apply list_elem_of_singleton in Hr' as ->. cbn. rewrite Hkey.
    apply elem_of_union_l. by apply elem_of_singleton.
  - intros t k' r' Hin Hact Hr' Hk'.
    apply elem_of_app in Hin as [Hin|Hin];
      [|destruct decr; [apply list_elem_of_singleton in Hin as ->; by cbn in Hact
                       | by apply elem_of_nil in Hin]].
    apply elem_of_app in Hr' as [Hr'|Hr']; [by eapply Hd|].
    apply list_elem_of_singleton in Hr' as ->. cbn in Hk'. subst k'.
    rewrite Hkey in Hact.
    apply elem_of_app in Hin as [Hin|Hin].
    + pose proof (inv_delete_one st Hst k) as Hone.
      rewrite bool_decide_eq_false_2 in Hone by done.
      assert (deletes k t = false) as Hno by (eapply count_none; [|done]; lia).
      unfold deletes in Hno. rewrite Hact in Hno.
      by rewrite bool_decide_eq_true_2 in Hno.
    + apply list_elem_of_singleton in Hin as ->. cbn. lia.
  - intros k'. rewrite count_app. specialize (Ho k').
    replace (count (deletes k')
               (if decr then [ {| due := now st + 60000; action := DecrementCount |} ]
                else [])) with 0 by by destruct decr.
    cbn [timers increment remember]. lia.
  - intros i j r1 r2 Hij H1 H2 Hsame.
    apply lookup_app_Some in H2 as [H2|[Hlen H2]].
    + apply (Hdd i j r1 r2); try done.
      rewrite lookup_app_l in H1; [done|]. apply lookup_lt_Some in H2. lia.
    + apply list_lookup_singleton_Some in H2 as [Hj <-].
      rewrite lookup_app_l in H1 by lia. cbn in *.
      apply Hold; [|by rewrite Hsame].
      by eapply list_elem_of_lookup_2.
Qed.

Lemma run_timer_inv (st : State) (i : nat) : Inv st → Inv (step st (RunTimer i)).
Proof.
  intros Hst. cbn [step].
  destruct (timers st !! i) as [t|] eqn:E; [|done].
  destruct (Z.leb_spec (due t) (now st)) as [Hdue|]; [|done].
  destruct (delete_split _ _ _ E) as (l1 & l2 & Hl & Hdel).
  destruct Hst as [Ht Hc Hw Hk Hd Ho Hdd].
  assert (Hin : ∀ t', t' ∈ l1 ++ l2 → t' ∈ timers st).
  { intros t' H'. rewrite Hl. apply elem_of_app.
    apply elem_of_app in H' as [?|?]; [by left | right; by right]. }
  destruct t as [d [k0|]]; cbn in Hdue; cbn [fire action]; rewrite Hdel;
    constructor; cbn [now errorCache errorCount timers sent]; try done.
  - intros τ Hτ. specialize (Hc τ Hτ). rewrite Hl in Hc.
    rewrite count_app in *. cbn [count] in Hc.
    change (decrement_due τ {| due := d; action := DeleteKey k0 |}) with false in Hc.
    cbv iota in Hc. lia.
  - intros r Hr Hrecent. apply elem_of_difference. split; [by apply Hk|].
    intros Hk0. apply elem_of_singleton in Hk0.
    assert (r.1 + 60000 ≤ d)%Z; [|lia].
    apply (Hd {| due := d; action := DeleteKey k0 |} k0 r); try done.
    rewrite Hl. apply elem_of_app. right. by left.
  - intros t' k r Ht' Hact Hr Hkey. apply (Hd t' k r); auto.
  - intros k. specialize (Ho k). rewrite Hl in Ho.
    rewrite count_app in *. cbn [count] in Ho.
    change (deletes k {| due := d; action := DeleteKey k0 |})
      with (bool_decide (k0 = k)) in Ho.
    destruct (decide (k0 = k)) as [->|Hne].
    + rewrite (bool_decide_eq_true_2 (k = k)) in Ho by done.
      rewrite (bool_decide_eq_false_2 (k ∈ errorCache st ∖ {[k]}))
        by (rewrite elem_of_difference; intros [_ Hn]; apply Hn; by apply elem_of_singleton).
      cbv iota in Ho. destruct (bool_decide (k ∈ errorCache st)); lia.
    + rewrite (bool_decide_eq_false_2 (k0 = k)) in Ho by done. cbv iota in Ho.
      destruct (bool_decide (k ∈ errorCache st)) eqn:Ek.
      * apply bool_decide_eq_true in Ek.
        rewrite (bool_decide_eq_true_2 (k ∈ errorCache st ∖ {[k0]})) by set_solver.
        lia.
      * lia.
  - intros τ Hτ. specialize (Hc τ Hτ). rewrite Hl in Hc.
    rewrite count_app in *. cbn [count] in Hc.
    change (decrement_due τ {| due := d; action := DecrementCount |})
      with (d <=? τ)%Z in Hc.
    destruct (Z.leb_spec d τ); lia.
  - intros t' k r Ht' Hact Hr Hkey. apply (Hd t' k r); auto.
  - intros k. specialize (Ho k). rewrite Hl in Ho.
    rewrite count_app in *. cbn [count] in Ho.
    change (deletes k {| due := d; action := DecrementCount |}) with false in Ho.
    cbv iota in Ho. lia.
Qed.

Lemma onerror_inv (st : State) (message source : string) (lineno colno : Z) :
  Inv st → Inv (onerror message source lineno colno st).
Proof.
  intros Hst. unfold onerror.
  destruct (bool_decide (sync_errorKey message source lineno ∈ errorCache st)) eqn:E;
    [done|].
  apply bool_decide_eq_false in E.
  destruct (Z.gtb_spec (errorCount (increment
              (remember (sync_errorKey message source lineno) st)))
              MAX_ERRORS_PER_MINUTE) as [|Hle].
  - by apply dropped_inv.
  - by apply (posted_inv st _ (SyncError message source lineno colno) true).
Qed.

Lemma onunhandledrejection_inv (st : State) (message : option string) :
  Inv st → Inv (onunhandledrejection message st).
Proof.
  intros Hst. unfold onunhandledrejection.
  destruct (bool_decide (rejection_errorKey message ∈ errorCache st)) eqn:E; [done|].
  apply bool_decide_eq_false in E.
  destruct (Z.gtb_spec (errorCount (increment
              (remember (rejection_errorKey message) st)))
              MAX_ERRORS_PER_MINUTE) as [|Hle].
  - by apply dropped_inv.
  - by apply (posted_inv st _ (PromiseRejection message) false).
Qed.

Lemma step_inv (st : State) (i : Input) : Inv st → Inv (step st i).
Proof.
  destruct i.
  - apply elapse_inv.
  - apply run_timer_inv.
  - apply onerror_inv.
  - apply onunhandledrejection_inv.
Qed.

Lemma run_events_inv (inputs : list Input) : Inv (run_events inputs).
Proof.
  unfold run_events. generalize initial_inv. generalize initial.
  induction inputs as [|i inputs IH]; intros st Hst; cbn; [done|].
  apply IH. by apply step_inv.
Qed.
End ErrorReporterFacts.

(** C8: over any sequence of errors, rejections, timer callbacks and
    pauses since the page was loaded, at most 10 reports are posted in any
    minute, and two reports of the same error (the same message, source and
    line) are at least 60 seconds apart. *)
Theorem C8_error_reports_limited (inputs : list ErrorReporter.Input) :
  (∀ T : Z,
     (ErrorReporter.count (ErrorReporter.in_minute T)
        (ErrorReporter.sent (ErrorReporter.run_events inputs)) ≤ 10)%nat)
  ∧ (∀ (i j : nat) (t1 t2 : Z) (r1 r2 : ErrorReporter.Report),
       (i < j)%nat →
       ErrorReporter.sent (ErrorReporter.run_events inputs) !! i = Some (t1, r1) →
       ErrorReporter.sent (ErrorReporter.run_events inputs) !! j = Some (t2, r2) →
       ErrorReporter.same_error r1 r2 →
       (t1 + 60000 ≤ t2)%Z).
Proof.
  pose proof (run_events_inv inputs) as [Ht Hc Hw Hk Hd Ho Hdd].
  split; [exact Hw|].
  intros i j t1 t2 r1 r2 Hij H1 H2 Hsame.
  apply (Hdd i j (t1, r1) (t2, r2) Hij H1 H2). by apply same_error_key.
Qed.

Lemma C8_error_reports_limited_witness :
  (ErrorReporter.count (ErrorReporter.in_minute 0)
     (ErrorReporter.sent (ErrorReporter.run_events Samples.same_error_twice)) ≤ 10)%nat
  ∧ (0 + 60000 ≤ 60000)%Z.
Proof.
  split.
  - exact (proj1 (C8_error_reports_limited Samples.same_error_twice) 0%Z).
  - exact (proj2 (C8_error_reports_limited Samples.same_error_twice)
             0%nat 1%nat 0%Z 60000%Z
             (ErrorReporter.SyncError "boom" "app.js" 3 1)
             (ErrorReporter.SyncError "boom" "app.js" 3 1)
             (le_n 1) eq_refl eq_refl (conj eq_refl (conj eq_refl eq_refl))).
Defined.

(** ** The passkey flows *)

Example keyLogin_with_passkeys :
  (Passkey.exec Samples.page_with_passkeys Passkey.keyLogin_onclick tt).2
  = [ Passkey.made Passkey.HasPublicKeyCredential;
      Passkey.made Passkey.ButtonGetHTML;
      Passkey.made (Passkey.ButtonSetDisabled true);
      Passkey.made (Passkey.ButtonSetHTML "🔐 Проверка...");
      Passkey.made (Passkey.ApiCall "/auth/passkey/login/options"
                      (Passkey.post_json (Some (Http.JObj []))));
      Passkey.made (Passkey.ButtonSetHTML "🔑 Используйте ключ доступа...");
      Passkey.made (Passkey.CredentialsGet
        {| Passkey.rq_challenge := [xfb; xff; xfe; x3e];
           Passkey.rq_rpId := Some (Http.JStr "cyblight.org");
           Passkey.rq_allowCredentials := [];
           Passkey.rq_timeout := Http.JNum 60000;
           Passkey.rq_userVerification := Http.JStr "preferred" |});
      Passkey.made (Passkey.ButtonSetHTML "✅ Вход...");
      Passkey.made (Passkey.ApiCall "/auth/passkey/login"
        (Passkey.post_json (Some (Http.JObj
           [ ("challengeId", Http.JStr "c-1");
             ("credential", Passkey.assertion_data Samples.sample_assertion) ]))));
      Passkey.made (Passkey.Navigate "account-profile");
      Passkey.made (Passkey.ButtonSetDisabled false);
      Passkey.made (Passkey.ButtonSetHTML "Войти с ключом") ].
Proof. vm_compute. reflexivity. Qed.

(** C9: when [window.PublicKeyCredential] is absent, the login flow only
    shows its alert and the registration flow only shows its error message;
    neither makes a request to the server nor starts a WebAuthn ceremony. *)
Theorem C9_capability_guard (S : Type) (w : Passkey.World S) (s : S) :
  (w bool Passkey.HasPublicKeyCredential s).1 = false →
  (Passkey.exec w Passkey.keyLogin_onclick s).2
  = [ Passkey.made Passkey.HasPublicKeyCredential;
      Passkey.made (Passkey.Alert Passkey.unsupported_alert) ]
  ∧ (Passkey.exec w Passkey.registerPasskey s).2
    = [ Passkey.made Passkey.HasPublicKeyCredential;
        Passkey.made (Passkey.ShowMsg "error" "Ваш браузер не поддерживает ключи доступа") ]
  ∧ Forall (λ m, Passkey.is_request_or_ceremony m = false)
      ((Passkey.exec w Passkey.keyLogin_onclick s).2
       ++ (Passkey.exec w Passkey.registerPasskey s).2)%list.
Proof.
  intros Habsent.
  assert (Hlogin : (Passkey.exec w Passkey.keyLogin_onclick s).2
    = [ Passkey.made Passkey.HasPublicKeyCredential;
        Passkey.made (Passkey.Alert Passkey.unsupported_alert) ]).
  { unfold Passkey.keyLogin_onclick. cbn.
    destruct (w bool Passkey.HasPublicKeyCredential s) as [b s1]. cbn in Habsent.
    subst b. cbn. by destruct (w unit _ s1). }
  assert (Hregister : (Passkey.exec w Passkey.registerPasskey s).2
    = [ Passkey.made Passkey.HasPublicKeyCredential;
        Passkey.made (Passkey.ShowMsg "error" "Ваш браузер не поддерживает ключи доступа") ]).
  { unfold Passkey.registerPasskey. cbn.
    destruct (w bool Passkey.HasPublicKeyCredential s) as [b s1]. cbn in Habsent.
    subst b. cbn. by destruct (w unit _ s1). }
  rewrite Hlogin, Hregister. repeat split. by repeat constructor.
Qed.

Lemma C9_capability_guard_witness :
  (Passkey.exec Samples.page_without_passkeys Passkey.keyLogin_onclick tt).2
  = [ Passkey.made Passkey.HasPublicKeyCredential;
      Passkey.made (Passkey.Alert Passkey.unsupported_alert) ]
  ∧ (Passkey.exec Samples.page_without_passkeys Passkey.registerPasskey tt).2
    = [ Passkey.made Passkey.HasPublicKeyCredential;
        Passkey.made (Passkey.ShowMsg "error" "Ваш браузер не поддерживает ключи доступа") ]
  ∧ Forall (λ m, Passkey.is_request_or_ceremony m = false)
      ((Passkey.exec Samples.page_without_passkeys Passkey.keyLogin_onclick tt).2
       ++ (Passkey.exec Samples.page_without_passkeys Passkey.registerPasskey tt).2)%list.
Proof.
  apply (C9_capability_guard unit Samples.page_without_passkeys tt). reflexivity.
Defined.

(** ** The router *)
Section RouterFacts.
Import JsString Router.
Local Open Scope list_scope.

Lemma includes_slash_cons (c : ascii) (x : string) :
  includes "/" (String c x) = (c =? "/")%char || includes "/" x.
Proof.
  cbn [includes String.prefix].
  destruct (ascii_dec "/" c) as [<-|Hne].
  - by replace (String.prefix "" x) with true by by destruct x.
  - by destruct (Ascii.eqb_spec c "/") as [->|_].
Qed.

Lemma append_cons (c : ascii) (s x : string) : String c s +:+ x = String c (s +:+ x).
Proof. reflexivity. Qed.

Lemma append_nil_l (x : string) : "" +:+ x = x.
Proof. reflexivity. Qed.

Lemma append_nil_r (s : string) : s +:+ "" = s.
Proof. induction s as [|c s IH]; [done|]. by rewrite append_cons, IH. Qed.

Lemma append_slash (s x : string) : s +:+ String "/" x = (s +:+ "/") +:+ x.
Proof. induction s as [|c s IH]; [done|]. by rewrite !append_cons, IH. Qed.

Lemma leading_slashes (i : nat) (s : string) :
  replace_leading_slashes (slashes i +:+ s) = replace_leading_slashes s.
Proof. induction i as [|i IH]; [done|]. cbn [slashes]. by rewrite append_cons. Qed.

Lemma leading_all_slashes (j : nat) : replace_leading_slashes (slashes j) = "".
Proof. induction j as [|j IH]; cbn; done. Qed.

Lemma slash_run_snoc (c : ascii) (r : string) :
  slash_run_to_end (String c (r +:+ "/")) = slash_run_to_end (String c r).
Proof.
  revert c. induction r as [|d r IH]; intros c.
  - rewrite append_nil_l. cbn. by rewrite andb_true_r.
  - rewrite append_cons.
    change (slash_run_to_end (String c (String d (r +:+ "/"))))
      with ((c =? "/")%char && slash_run_to_end (String d (r +:+ "/"))).
    by rewrite IH.
Qed.

Lemma trailing_slash (s : string) :
  replace_trailing_slashes (s +:+ "/") = replace_trailing_slashes s.
Proof.
  induction s as [|c s IH]; [done|].
  rewrite append_cons.
  change (replace_trailing_slashes (String c (s +:+ "/")))
    with (if slash_run_to_end (String c (s +:+ "/")) then ""
          else String c (replace_trailing_slashes (s +:+ "/"))).
  rewrite slash_run_snoc, IH. done.
Qed.

Lemma trailing_slashes (j : nat) (s : string) :
  replace_trailing_slashes (s +:+ slashes j) = replace_trailing_slashes s.
Proof.
  revert s. induction j as [|j IH]; intros s; cbn [slashes].
  - by rewrite append_nil_r.
  - by rewrite append_slash, IH, trailing_slash.
Qed.

Lemma stripped_path_slashes (i j : nat) (p : string) :
  stripped_path (slashes i +:+ p +:+ slashes j) = stripped_path p.
Proof.
  unfold stripped_path. rewrite leading_slashes.
  induction p as [|c p IH].
  - rewrite append_nil_l. by rewrite leading_all_slashes.
  - rewrite append_cons. cbn [replace_leading_slashes].
    destruct (c =? "/")%char; [exact IH|].
    rewrite <- append_cons. apply trailing_slashes.
Qed.

Lemma split_slash_cons_slash (r : string) :
  split_slash (String "/" r) = "" :: split_slash r.
Proof. reflexivity. Qed.

Lemma split_slash_cons_other (c : ascii) (r : string) :
  c ≠ "/"%char →
  ∃ h t, split_slash r = h :: t ∧ split_slash (String c r) = String c h :: t.
Proof.
  intros Hc. cbn [split_slash].
  destruct (Ascii.eqb_spec c "/") as [->|_]; [done|].
  destruct (split_slash r) as [|h t] eqn:E.
  - exfalso. clear -E. destruct r as [|d r]; cbn in E; [done|].
    destruct (d =? "/")%char; [done|]. by destruct (split_slash r).
  - by exists h, t.
Qed.

Lemma segments_cons_slash (r : string) : segments (String "/" r) = segments r.
Proof. unfold segments. rewrite split_slash_cons_slash. by rewrite filter_cons_False by auto. Qed.

Lemma segments_cons_other (c : ascii) (r : string) :
  c ≠ "/"%char →
  ∃ h t, split_slash r = h :: t
         ∧ segments (String c r) = String c h :: filter (λ s, s ≠ "") t.
Proof.
  intros Hc. destruct (split_slash_cons_other c r Hc) as (h & t & Hr & Hcr).
  exists h, t. split; [done|]. unfold segments. rewrite Hcr.
  by rewrite filter_cons_True by done.
Qed.

Lemma segments_leading (s : string) : segments (replace_leading_slashes s) = segments s.
Proof.
  induction s as [|c s IH]; [done|]. cbn [replace_leading_slashes].
  destruct (Ascii.eqb_spec c "/") as [->|_]; [|done].
  by rewrite segments_cons_slash.
Qed.

Lemma slash_run_cons (c : ascii) (r : string) :
  slash_run_to_end (String c r)
  = (c =? "/")%char && match r with "" => true | String _ _ => slash_run_to_end r end.
Proof. reflexivity. Qed.

Lemma split_slash_run (s : string) :
  slash_run_to_end s = true →
  ∃ t, split_slash s = "" :: t ∧ filter (λ s, s ≠ "") t = [].
Proof.
  induction s as [|c r IH]; [done|]. rewrite slash_run_cons.
  intros H. apply andb_prop in H as [Hc Hr]. apply Ascii.eqb_eq in Hc as ->.
  rewrite split_slash_cons_slash. eexists. split; [done|].
  destruct r as [|d r]; [done|].
  destruct (IH Hr) as (t & -> & Ht). by rewrite filter_cons_False by auto.
Qed.

Lemma split_trailing (s : string) :
  ∃ h t t',
    split_slash s = h :: t
    ∧ split_slash (replace_trailing_slashes s) = h :: t'
    ∧ filter (λ s, s ≠ "") t = filter (λ s, s ≠ "") t'.
Proof.
  induction s as [|c r IH]; [by exists "", [], []|].
  cbn [replace_trailing_slashes].
  destruct (slash_run_to_end (String c r)) eqn:E.
  - destruct (split_slash_run _ E) as (t & -> & Ht). by exists "", t, [].
  - destruct IH as (h & t & t' & Hr & Hr' & Hf).
    destruct (Ascii.eqb_spec c "/") as [->|Hc].
    + rewrite !split_slash_cons_slash, Hr, Hr'.
      exists "", (h :: t), (h :: t'). repeat split.
      destruct (decide (h ≠ "")).
      * rewrite !filter_cons_True by done. by rewrite Hf.
      * by rewrite !filter_cons_False by done.
    + destruct (split_slash_cons_other c r Hc) as (h1 & t1 & H1 & ->).
      destruct (split_slash_cons_other c (replace_trailing_slashes r) Hc)
        as (h2 & t2 & H2 & ->).
      rewrite Hr in H1. rewrite Hr' in H2.
      injection H1 as <- <-. injection H2 as <- <-.
      by exists (String c h), t, t'.
Qed.

Lemma segments_trailing (s : string) :
  segments (replace_trailing_slashes s) = segments s.
Proof.
  destruct (split_trailing s) as (h & t & t' & Hs & Hs' & Hf).
  unfold segments. rewrite Hs, Hs'.
  destruct (decide (h ≠ "")).
  - rewrite !filter_cons_True by done. by rewrite Hf.
  - by rewrite !filter_cons_False by done.
Qed.

Lemma segments_stripped (p : string) : segments (stripped_path p) = segments p.
Proof. unfold stripped_path. by rewrite segments_trailing, segments_leading. Qed.

Lemma split_no_slash (q : string) : includes "/" q = false → split_slash q = [q].
Proof.
  induction q as [|c r IH]; [done|]. rewrite includes_slash_cons.
  intros H. apply orb_false_elim in H as [Hc Hr].
  apply Ascii.eqb_neq in Hc.
  destruct (split_slash_cons_other c r Hc) as (h & t & H1 & ->).
  rewrite (IH Hr) in H1. by injection H1 as <- <-.
Qed.

Lemma segments_nonempty (r : string) :
  r ≠ "" → slash_run_to_end r = false → segments r ≠ [].
Proof.
  induction r as [|d r IH]; [done|]. intros _. rewrite slash_run_cons.
  destruct (Ascii.eqb_spec d "/") as [->|Hd].
  - rewrite segments_cons_slash. cbn [andb]. destruct r as [|e r]; [done|].
    by apply IH.
  - intros _. by destruct (segments_cons_other d r Hd) as (h & t & _ & ->).
Qed.

Lemma trailing_not_run (s : string) :
  slash_run_to_end (replace_trailing_slashes s) = false.
Proof.
  induction s as [|c r IH]; [done|]. cbn [replace_trailing_slashes].
  destruct (slash_run_to_end (String c r)) eqn:E; [done|].
  rewrite slash_run_cons in *.
  destruct (c =? "/")%char; [|done]. cbn [andb] in *.
  destruct r as [|d r]; [done|].
  destruct (replace_trailing_slashes (String d r)) eqn:E'; [|done].
  cbn [replace_trailing_slashes] in E'. by rewrite E in E'.
Qed.

Lemma tail_segments_trailing (s : string) :
  includes "/" (replace_trailing_slashes s) = true →
  filter (λ s, s ≠ "") (tail (split_slash (replace_trailing_slashes s))) ≠ [].
Proof.
  induction s as [|c r IH]; [done|]. cbn [replace_trailing_slashes].
  destruct (slash_run_to_end (String c r)) eqn:E; [done|].
  rewrite includes_slash_cons.
  destruct (Ascii.eqb_spec c "/") as [->|Hc].
  - intros _. rewrite split_slash_cons_slash. cbn [tail].
    fold (segments (replace_trailing_slashes r)). rewrite segments_trailing.
    rewrite slash_run_cons in E. cbn [Ascii.eqb Bool.eqb andb] in E.
    destruct r as [|d r]; [done|]. by apply segments_nonempty.
  - cbn [orb]. intros H.
    destruct (split_slash_cons_other c (replace_trailing_slashes r) Hc)
      as (h & t & H1 & ->).
    specialize (IH H). rewrite H1 in IH. exact IH.
Qed.

Lemma leading_shape (p : string) :
  replace_leading_slashes p = ""
  ∨ ∃ c r, replace_leading_slashes p = String c r ∧ c ≠ "/"%char.
Proof.
  induction p as [|c r IH]; [by left|]. cbn [replace_leading_slashes].
  destruct (Ascii.eqb_spec c "/") as [->|Hc]; [done|]. right. by exists c, r.
Qed.

(** A stripped path is empty, or one segment without a slash, or has a
    slash and at least two segments; the segments are those of the path. *)
Lemma segments_cases (p : string) :
  (stripped_path p = "" ∧ segments p = [])
  ∨ (stripped_path p ≠ "" ∧ includes "/" (stripped_path p) = false
     ∧ segments p = [stripped_path p])
  ∨ (stripped_path p ≠ "" ∧ includes "/" (stripped_path p) = true
     ∧ (2 ≤ length (segments p))%nat).
Proof.
  rewrite <- (segments_stripped p).
  destruct (stripped_path p) as [|c q] eqn:E; [by left|]. right.
  destruct (includes "/" (String c q)) eqn:Hinc.
  - right. repeat split; [done|].
    unfold stripped_path in E.
    destruct (leading_shape p) as [H0|(c' & r & Hr & Hc)]; rewrite ?H0, ?Hr in E;
      [done|].
    cbn [replace_trailing_slashes] in E. rewrite slash_run_cons in E.
    destruct (Ascii.eqb_spec c' "/") as [|_]; [done|]. cbn [andb] in E.
    injection E as -> <-.
    rewrite includes_slash_cons in Hinc.
    destruct (Ascii.eqb_spec c "/") as [|_]; [done|]. cbn [orb] in Hinc.
    pose proof (tail_segments_trailing r Hinc) as Htail.
    destruct (segments_cons_other c (replace_trailing_slashes r) Hc)
      as (h & t & H1 & ->).
    rewrite H1 in Htail. cbn [tail] in Htail.
    destruct (filter _ t); [done|]. cbn. lia.
  - left. repeat split; [done|]. unfold segments.
    rewrite (split_no_slash _ Hinc). by rewrite filter_cons_True by done.
Qed.

(** A segment between any number of slashes is the one segment of the path. *)
Lemma segments_single (i j : nat) (seg : string) :
  seg ≠ "" → includes "/" seg = false →
  segments (slashes i +:+ seg +:+ slashes j) = [seg].
Proof.
  intros Hne Hinc.
  rewrite <- segments_stripped, stripped_path_slashes, segments_stripped.
  unfold segments. rewrite (split_no_slash _ Hinc).
  by rewrite filter_cons_True by done.
Qed.

Lemma routes_no_slash (path : string) : path ∈ routes → includes "/" path = false.
Proof.
  unfold routes. rewrite elem_of_list_to_set. rewrite !elem_of_cons, elem_of_nil.
  intros H. repeat (destruct H as [->|H]; [reflexivity|]). done.
Qed.

Lemma truthy_nonempty (s : string) : s ≠ "" → truthy s = true.
Proof. by destruct s. Qed.
End RouterFacts.

Example segments_example : Router.segments "//a/bc//d/" = ["a"; "bc"; "d"].
Proof. vm_compute. reflexivity. Qed.

(** C7: any number of slashes put before and after a path leaves the route
    it resolves to unchanged. *)
Theorem C7_slashes_ignored (pathname : string) (i j : nat) :
  Router.getRoute (JsString.slashes i +:+ pathname +:+ JsString.slashes j)
  = Router.getRoute pathname.
Proof. unfold Router.getRoute. by rewrite stripped_path_slashes. Qed.

(** C2: a path with a single segment that is in the allow-list resolves to
    that segment; a path with a single segment that is not in the list
    resolves to [profile], and the [username] parameter is that segment; a
    path with no segment or with several resolves to [username]. *)
Theorem C2_route_resolution (pathname : string) :
  (∀ seg, Router.segments pathname = [seg] → seg ∈ Router.routes →
          Router.getRoute pathname = seg)
  ∧ (∀ seg, Router.segments pathname = [seg] → seg ∉ Router.routes →
            Router.getRoute pathname = "profile"
            ∧ Router.getRouteParam pathname "username" = Some seg)
  ∧ (Router.segments pathname = [] → Router.getRoute pathname = "username")
  ∧ ((2 ≤ length (Router.segments pathname))%nat →
     Router.getRoute pathname = "username").
Proof.
  unfold Router.getRoute, Router.getRouteParam.
  destruct (segments_cases pathname)
    as [(Hq & Hs) | [(Hne & Hinc & Hs) | (Hne & Hinc & Hlen)]].
  - rewrite Hq, Hs.
    split; [intros seg Hseg; discriminate Hseg|].
    split; [intros seg Hseg; discriminate Hseg|].
    split; [|cbn [length]; lia]. intros _.
    by replace (bool_decide ("" ∈ Router.routes)) with false by (vm_compute; reflexivity).
  - rewrite Hs, Hinc, (truthy_nonempty _ Hne).
    split; [|split; [|split]].
    + intros seg [= <-] Hin. by rewrite bool_decide_eq_true_2.
    + intros seg [= <-] Hout. by rewrite bool_decide_eq_false_2.
    + done.
    + cbn [length]. lia.
  - assert (Hout : Router.stripped_path pathname ∉ Router.routes).
    { intros Hin. apply routes_no_slash in Hin. congruence. }
    rewrite (bool_decide_eq_false_2 _ Hout), Hinc, andb_false_r.
    split; [|split; [|split]].
    + intros seg Hs. rewrite Hs in Hlen. cbn in Hlen. lia.
    + intros seg Hs. rewrite Hs in Hlen. cbn in Hlen. lia.
    + intros Hs. rewrite Hs in Hlen. cbn in Hlen. lia.
    + reflexivity.
Qed.

Lemma C2_route_resolution_witness :
  Router.getRoute "/signup" = "signup"
  ∧ (Router.getRoute "/alice" = "profile"
     ∧ Router.getRouteParam "/alice" "username" = Some "alice")
  ∧ Router.getRoute "" = "username"
  ∧ Router.getRoute "/a/b" = "username".
Proof.
  split; [|split; [|split]].
  - apply (proj1 (C2_route_resolution "/signup") "signup").
    + vm_compute. reflexivity.
    + apply (bool_decide_eq_true_1 ("signup" ∈ Router.routes)). vm_compute. reflexivity.
  - apply (proj1 (proj2 (C2_route_resolution "/alice")) "alice").
    + vm_compute. reflexivity.
    + apply (bool_decide_eq_false_1 ("alice" ∈ Router.routes)). vm_compute. reflexivity.
  - apply (proj1 (proj2 (proj2 (C2_route_resolution "")))).
    vm_compute. reflexivity.
  - apply (proj2 (proj2 (proj2 (C2_route_resolution "/a/b")))).
    vm_compute. lia.
Defined.

(** C10: [getRouteParam('username')] gives the segment of every path with
    a single segment, whether or not the segment is a route of the
    allow-list; [getRouteParam] gives [null] for every other parameter
    name, and for every path with no segment or with several. *)
Theorem C10_route_param (pathname : string) :
  (∀ seg, Router.segments pathname = [seg] →
          Router.getRouteParam pathname "username" = Some seg)
  ∧ (∀ paramName, paramName ≠ "username" →
                  Router.getRouteParam pathname paramName = None)
  ∧ (Router.segments pathname = [] →
     ∀ paramName, Router.getRouteParam pathname paramName = None)
  ∧ ((2 ≤ length (Router.segments pathname))%nat →
     ∀ paramName, Router.getRouteParam pathname paramName = None).
Proof.
  unfold Router.getRouteParam.
  assert (Hother : ∀ paramName b (x : string), paramName ≠ "username" →
            (if b && String.eqb paramName "username" then Some x else None) = None).
  { intros paramName b x Hp. apply String.eqb_neq in Hp. rewrite Hp.
    by rewrite andb_false_r. }
  destruct (segments_cases pathname)
    as [(Hq & Hs) | [(Hne & Hinc & Hs) | (Hne & Hinc & Hlen)]].
  - rewrite Hq, Hs.
    split; [intros seg Hseg; discriminate Hseg|].
    split; [|split; [reflexivity|cbn [length]; lia]].
    intros paramName Hp. by apply Hother.
  - rewrite Hs, Hinc, (truthy_nonempty _ Hne).
    split; [|split; [|split]].
    + by intros seg [= <-].
    + intros paramName Hp. by apply Hother.
    + done.
    + cbn [length]. lia.
  - rewrite Hinc, andb_false_r. split; [|split; [|split]].
    + intros seg Hs. rewrite Hs in Hlen. cbn in Hlen. lia.
    + reflexivity.
    + intros Hs. rewrite Hs in Hlen. cbn in Hlen. lia.
    + reflexivity.
Qed.

Lemma C10_route_param_witness :
  Router.getRouteParam "/signup" "username" = Some "signup"
  ∧ Router.getRoute "/signup" = "signup"
  ∧ Router.getRouteParam "/alice" "id" = None
  ∧ Router.getRouteParam "/" "username" = None
  ∧ Router.getRouteParam "/a/b" "username" = None.
Proof.
  split; [|split; [|split; [|split]]].
  - apply (proj1 (C10_route_param "/signup") "signup"). vm_compute. reflexivity.
  - vm_compute. reflexivity.
  - apply (proj1 (proj2 (C10_route_param "/alice")) "id"). discriminate.
  - apply (proj1 (proj2 (proj2 (C10_route_param "/")))). vm_compute. reflexivity.
  - apply (proj2 (proj2 (proj2 (C10_route_param "/a/b")))). vm_compute. lia.
Defined.

(** ** Navigation, the views and the older route readers *)
Section NavigationFacts.
Import JsString Router Navigation Views.
Local Open Scope list_scope.

Lemma plain_char_not_slash (c : ascii) : plain_char c = true → c ≠ "/"%char.
Proof. intros H ->. vm_compute in H. discriminate H. Qed.

Lemma plain_no_slash (s : string) : plain_segment s = true → includes "/" s = false.
Proof.
  induction s as [|c r IH]; [done|]. cbn [plain_segment].
  intros H. apply andb_prop in H as [Hc Hr].
  rewrite includes_slash_cons, (IH Hr), orb_false_r.
  apply Ascii.eqb_neq. by apply plain_char_not_slash.
Qed.

Lemma trailing_no_slash (s : string) :
  includes "/" s = false → replace_trailing_slashes s = s.
Proof.
  induction s as [|c r IH]; [done|]. rewrite includes_slash_cons.
  intros H. apply orb_false_elim in H as [Hc Hr].
  cbn [replace_trailing_slashes]. rewrite slash_run_cons, Hc. cbn [andb].
  by rewrite (IH Hr).
Qed.

Lemma stripped_no_slash (s : string) : includes "/" s = false → stripped_path s = s.
Proof.
  intros H. unfold stripped_path.
  replace (replace_leading_slashes s) with s; [by apply trailing_no_slash|].
  destruct s as [|c r]; [done|]. rewrite includes_slash_cons in H.
  apply orb_false_elim in H as [Hc _]. cbn [replace_leading_slashes]. by rewrite Hc.
Qed.

Lemma stripped_after_slash (to : string) :
  includes "/" to = false → stripped_path ("/" +:+ to) = to.
Proof.
  intros H. rewrite <- (stripped_no_slash to H) at 2. reflexivity.
Qed.

Lemma profile_not_route : "profile" ∉ routes.
Proof. apply (bool_decide_eq_false_1 ("profile" ∈ routes)). vm_compute. reflexivity. Qed.

Lemma username_is_route : "username" ∈ routes.
Proof. apply (bool_decide_eq_true_1 ("username" ∈ routes)). vm_compute. reflexivity. Qed.

Lemma routes_nonempty (path : string) : path ∈ routes → path ≠ "".
Proof. intros H ->. revert H. apply (bool_decide_eq_false_1 ("" ∈ routes)). vm_compute. reflexivity. Qed.

(** The route of a path is a route of the allow-list or [profile]. *)
Lemma getRoute_range (pathname : string) :
  getRoute pathname ∈ routes ∨ getRoute pathname = "profile".
Proof.
  unfold getRoute.
  destruct (bool_decide (stripped_path pathname ∈ routes)) eqn:E.
  - left. by apply bool_decide_eq_true in E.
  - destruct (_ && _); [by right | left; apply username_is_route].
Qed.

(** The route and the parameter of a slash followed by one segment. *)
Lemma route_of_segment (to : string) :
  to ≠ "" → includes "/" to = false →
  getRoute ("/" +:+ to) = (if bool_decide (to ∈ routes) then to else "profile")
  ∧ getRouteParam ("/" +:+ to) "username" = Some to.
Proof.
  intros Hne Hinc. unfold getRoute, getRouteParam.
  rewrite (stripped_after_slash to Hinc), Hinc, (truthy_nonempty to Hne).
  split; [|done]. by destruct (bool_decide (to ∈ routes)).
Qed.
End NavigationFacts.

(** X1: [navigate(to)] with a non-empty [to] made of letters, digits, [-]
    and [_] leaves the path [/to] and dispatches the route [to] when [to]
    is in the allow-list and the route [profile] otherwise; the [username]
    parameter of the new path is [to] in both cases. *)
Theorem X1_navigate_dispatches (to : string) :
  Navigation.plain_segment to = true → to ≠ "" →
  Navigation.navigate to
  = ("/" +:+ to, if bool_decide (to ∈ Router.routes) then to else "profile")
  ∧ Router.getRouteParam ("/" +:+ to) "username" = Some to.
Proof.
  intros Hplain Hne.
  destruct (route_of_segment to Hne (plain_no_slash to Hplain)) as [Hroute Hparam].
  split; [|exact Hparam].
  unfold Navigation.navigate, Navigation.render, Navigation.pushState.
  by rewrite Hroute.
Qed.

Lemma X1_navigate_dispatches_witness :
  Navigation.navigate "account-security" = ("/account-security", "account-security")
  ∧ Navigation.navigate "alice_01" = ("/alice_01", "profile").
Proof.
  split.
  - apply (proj1 (X1_navigate_dispatches "account-security" eq_refl ltac:(discriminate))).
  - apply (proj1 (X1_navigate_dispatches "alice_01" eq_refl ltac:(discriminate))).
Defined.

(** X2: whenever [getRoute] answers [profile], the path has exactly one
    segment, [getRouteParam('username')] gives that non-empty segment, and
    [renderRoute] renders that user's profile: the fall-back to the login
    view inside its profile branch is never taken. *)
Theorem X2_profile_route_has_username (pathname : string) :
  Router.getRoute pathname = "profile" →
  ∃ username : string,
    username ≠ ""
    ∧ Router.segments pathname = [username]
    ∧ Router.getRouteParam pathname "username" = Some username
    ∧ Views.renderRoute pathname "profile" = Views.renderProfile username.
Proof.
  unfold Router.getRoute, Views.renderRoute, Router.getRouteParam. cbn [String.eqb].
  destruct (segments_cases pathname)
    as [(Hq & Hs) | [(Hne & Hinc & Hs) | (Hne & Hinc & Hlen)]].
  - rewrite Hq. intros H. exfalso. revert H.
    replace (bool_decide ("" ∈ Router.routes)) with false by (vm_compute; reflexivity).
    discriminate.
  - rewrite Hinc, (truthy_nonempty _ Hne). intros _.
    exists (Router.stripped_path pathname). cbn. by rewrite (truthy_nonempty _ Hne).
  - rewrite Hinc, andb_false_r.
    destruct (bool_decide (Router.stripped_path pathname ∈ Router.routes)) eqn:E.
    + apply bool_decide_eq_true in E. intros H. rewrite H in E.
      by destruct profile_not_route.
    + discriminate.
Qed.

Lemma X2_profile_route_has_username_witness :
  ∃ username : string,
    username ≠ ""
    ∧ Router.segments "/alice/" = [username]
    ∧ Router.getRouteParam "/alice/" "username" = Some username
    ∧ Views.renderRoute "/alice/" "profile" = Views.renderProfile username.
Proof.
  apply (X2_profile_route_has_username "/alice/"). vm_compute. reflexivity.
Defined.

Lemma renderRoute_of_route (pathname r : string) :
  r ∈ Router.routes →
  Views.renderRoute pathname r ≠ Views.viewAccount "friends"
  ∧ Views.renderRoute pathname r ≠ Views.viewAccount "messages"
  ∧ Views.renderRoute pathname r ≠ Views.viewEditProfile.
Proof.
  unfold Router.routes. rewrite elem_of_list_to_set, !elem_of_cons, elem_of_nil.
  intros H. repeat (destruct H as [->|H]; [by vm_compute|]). done.
Qed.

(** X3: whatever the path, the view shown for the route that [getRoute]
    reads from it is never the friends tab, the messages tab or the
    edit-profile view: the tokens [renderRoute] tests for them are not in
    the router's allow-list. *)
Theorem X3_views_behind_unlisted_routes (pathname : string) :
  Views.on_route pathname ≠ Views.viewAccount "friends"
  ∧ Views.on_route pathname ≠ Views.viewAccount "messages"
  ∧ Views.on_route pathname ≠ Views.viewEditProfile.
Proof.
  unfold Views.on_route, Navigation.render.
  destruct (getRoute_range pathname) as [Hin|Hprofile].
  - by apply renderRoute_of_route.
  - rewrite Hprofile. unfold Views.renderRoute. cbn [String.eqb Ascii.eqb Bool.eqb].
    destruct (Router.getRouteParam pathname "username") as [u|];
      [destruct (JsString.truthy u)|]; repeat split; discriminate.
Qed.

Example edit_profile_path :
  Views.on_route "/edit-profile" = Views.renderProfile "edit-profile"
  ∧ Views.on_route "/account-sessions" = Views.viewAccount "sessions"
  ∧ Views.on_route "/2fa" = Views.viewUsername.
Proof. vm_compute. done. Qed.

(** X4: the fall-back of [getRouteSafe], taken when [window.CybRouter] is
    missing, agrees with [getRoute] exactly on the paths whose stripped form
    is a route of the allow-list, empty, or the word [profile]; on every
    other path it answers the stripped path itself. *)
Theorem X4_getRouteSafe_fallback (pathname : string) :
  (Navigation.getRouteSafe false pathname = Router.getRoute pathname
   ↔ Router.stripped_path pathname ∈ Router.routes
     ∨ Router.stripped_path pathname = ""
     ∨ Router.stripped_path pathname = "profile")
  ∧ (Router.stripped_path pathname ≠ "" →
     Navigation.getRouteSafe false pathname = Router.stripped_path pathname)
  ∧ Navigation.getRouteSafe true pathname = Router.getRoute pathname.
Proof.
  unfold Navigation.getRouteSafe, Router.getRoute, Http.or_string.
  split; [|split; [intros Hne; by rewrite (truthy_nonempty _ Hne) | done]].
  destruct (Router.stripped_path pathname) as [|c q] eqn:Hq.
  - replace (bool_decide ("" ∈ Router.routes)) with false by (vm_compute; reflexivity).
    cbn. split; [intros _; right; by left | done].
  - cbn [JsString.truthy andb].
    destruct (bool_decide (String c q ∈ Router.routes)) eqn:E.
    + apply bool_decide_eq_true in E. split; [by left | done].
    + apply bool_decide_eq_false in E.
      destruct (JsString.includes "/" (String c q)) eqn:Hinc; cbn [negb].
      * split.
        -- intros H. rewrite H in Hinc. vm_compute in Hinc. discriminate Hinc.
        -- intros [H|[H|H]]; [by destruct E | discriminate H |].
           rewrite H in Hinc. vm_compute in Hinc. discriminate Hinc.
      * split; [intros H; right; right; exact H|].
        intros [H|[H|H]]; [by destruct E | discriminate H | exact H].
Qed.

Lemma X4_getRouteSafe_fallback_witness :
  Navigation.getRouteSafe false "/friends/" = "friends".
Proof.
  apply (proj1 (proj2 (X4_getRouteSafe_fallback "/friends/"))).
  vm_compute. discriminate.
Defined.

(** The earlier [getRoute] answers [username] where the current one
    answers [profile], and the same route everywhere else. *)
Lemma getRoute_versions (pathname : string) :
  Navigation.getRoute_v1 pathname
  = if String.eqb (Router.getRoute pathname) "profile" then "username"
    else Router.getRoute pathname.
Proof.
  unfold Navigation.getRoute_v1, Router.getRoute.
  destruct (bool_decide (Router.stripped_path pathname ∈ Router.routes)) eqn:E.
  - apply bool_decide_eq_true in E.
    destruct (String.eqb_spec (Router.stripped_path pathname) "profile") as [H|]; [|done].
    rewrite H in E. by destruct profile_not_route.
  - by destruct (_ && _).
Qed.

(** ** [escapeHtml] *)
Section HtmlFacts.
Import Html.
Local Open Scope list_scope.

Lemma list_ascii_append (a b : string) :
  list_ascii_of_string (a +:+ b) = list_ascii_of_string a ++ list_ascii_of_string b.
Proof. induction a as [|c a IH]; [done|]. rewrite append_cons. cbn. by rewrite IH. Qed.

(** The six shapes of a replacement. *)
Lemma escape_char_cases (c : ascii) :
  (c = "&"%char ∧ escape_char c = "&amp;")
  ∨ (c = "<"%char ∧ escape_char c = "&lt;")
  ∨ (c = ">"%char ∧ escape_char c = "&gt;")
  ∨ (c = dquote ∧ escape_char c = "&quot;")
  ∨ (c = "'"%char ∧ escape_char c = "&#39;")
  ∨ (special c = false ∧ escape_char c = String c "").
Proof.
  unfold escape_char, special.
  destruct (Ascii.eqb_spec c "&"); [by left|]. right.
  destruct (Ascii.eqb_spec c "<"); [by left|]. right.
  destruct (Ascii.eqb_spec c ">"); [by left|]. right.
  destruct (Ascii.eqb_spec c dquote); [by left|]. right.
  destruct (Ascii.eqb_spec c "'"); [by left|]. by right.
Qed.

Lemma special_ampersand (c : ascii) : special c = false → c ≠ "&"%char.
Proof. intros H ->. vm_compute in H. discriminate H. Qed.
End HtmlFacts.

(** X6: the text [escapeHtml] returns never contains [<], [>], a double
    quote or an apostrophe, whatever it is given. *)
Theorem X6_escapeHtml_no_markup (s : option string) :
  Forall (λ c, c ≠ "<"%char ∧ c ≠ ">"%char ∧ c ≠ Html.dquote ∧ c ≠ "'"%char)
    (list_ascii_of_string (Html.escapeHtml s)).
Proof.
  unfold Html.escapeHtml. generalize (Http.or_string s ""). clear s.
  intros text. induction text as [|c r IH]; [constructor|].
  cbn [Html.escape_all]. rewrite list_ascii_append. apply Forall_app. split; [|exact IH].
  destruct (escape_char_cases c) as [[_ ->]|[[_ ->]|[[_ ->]|[[_ ->]|[[_ ->]|[Hc ->]]]]]];
    try (repeat constructor; discriminate).
  constructor; [|constructor].
  unfold Html.special in Hc. repeat (apply orb_false_elim in Hc as [Hc ?]).
  repeat split; by apply Ascii.eqb_neq.
Qed.

(** X7: [escapeHtml] loses nothing: two texts with the same escaped form
    are the same text. *)
Theorem X7_escapeHtml_injective (s1 s2 : string) :
  Html.escapeHtml (Some s1) = Html.escapeHtml (Some s2) → s1 = s2.
Proof.
  assert (Hor : ∀ s, Http.or_string (Some s) "" = s) by (by intros [|c r]).
  unfold Html.escapeHtml. rewrite !Hor. clear Hor.
  revert s2. induction s1 as [|c1 r1 IH]; intros [|c2 r2]; cbn [Html.escape_all].
  - done.
  - intros H. exfalso.
    destruct (escape_char_cases c2) as [[_ E]|[[_ E]|[[_ E]|[[_ E]|[[_ E]|[_ E]]]]]];
      rewrite E, append_cons in H; discriminate H.
  - intros H. exfalso.
    destruct (escape_char_cases c1) as [[_ E]|[[_ E]|[[_ E]|[[_ E]|[[_ E]|[_ E]]]]]];
      rewrite E, append_cons in H; discriminate H.
  - intros H.
    destruct (escape_char_cases c1) as [[-> E1]|[[-> E1]|[[-> E1]|[[-> E1]|[[-> E1]|[H1 E1]]]]]];
      destruct (escape_char_cases c2) as [[-> E2]|[[-> E2]|[[-> E2]|[[-> E2]|[[-> E2]|[H2 E2]]]]]];
      rewrite ?E1, ?E2, ?append_cons, ?append_nil_l in H;
      try discriminate H;
      try (injection H as H; f_equal; by apply IH);
      try (injection H as Hc H; exfalso;
           first [ by apply (special_ampersand c2 H2)
                 | by apply (special_ampersand c1 H1) ]).
    injection H as -> H. f_equal. by apply IH.
Qed.

Lemma X7_escapeHtml_injective_witness : "a<b" = "a<b".
Proof. apply (X7_escapeHtml_injective "a<b" "a<b"). reflexivity. Defined.

Example escapeHtml_example :
  Html.escapeHtml (Some "<a href='x'>R&D</a>")
  = "&lt;a href=&#39;x&#39;&gt;R&amp;D&lt;/a&gt;"
  ∧ Html.escapeHtml None = "".
Proof. vm_compute. done. Qed.

(** ** [validators.username] and the router *)
Section ValidatorFacts.
Import Validators Navigation.

Lemma word_char_plain (c : ascii) : word_char c = true → plain_char c = true.
Proof.
  unfold word_char, plain_char. generalize (N_of_ascii c). intros n H.
  repeat (apply orb_prop in H as [H|H]); rewrite H; by rewrite ?orb_true_r.
Qed.

Lemma all_word_chars_plain (s : string) :
  all_word_chars s = true → plain_segment s = true.
Proof.
  induction s as [|c r IH]; [done|]. cbn. intros H.
  apply andb_prop in H as [Hc Hr]. by rewrite (word_char_plain c Hc), (IH Hr).
Qed.
End ValidatorFacts.

(** X8: a name that [validators.username] accepts is a path segment of its
    own: navigating to it gives back the name as the [username] parameter
    and, unless the name is one of the routes of the allow-list, shows the
    profile of that user; a name that is a route shows that route instead. *)
Theorem X8_valid_username_is_routable (user : string) :
  Validators.username user = true →
  Router.getRouteParam (Navigation.navigate user).1 "username" = Some user
  ∧ (user ∉ Router.routes →
     Views.on_route (Navigation.navigate user).1 = Views.renderProfile user)
  ∧ (user ∈ Router.routes → (Navigation.navigate user).2 = user).
Proof.
  unfold Validators.username. intros H.
  apply andb_prop in H as [H Hword]. apply andb_prop in H as [Hmin _].
  assert (Hne : user ≠ "") by (intros ->; discriminate Hmin).
  pose proof (plain_no_slash user (all_word_chars_plain user Hword)) as Hinc.
  destruct (route_of_segment user Hne Hinc) as [Hroute Hparam].
  unfold Navigation.navigate, Navigation.pushState, Navigation.render, Views.on_route.
  cbn [fst snd]. unfold Navigation.render. rewrite Hroute.
  split; [exact Hparam|]. split.
  - intros Hout. rewrite (bool_decide_eq_false_2 _ Hout).
    unfold Views.renderRoute. cbn [String.eqb Ascii.eqb Bool.eqb].
    by rewrite Hparam, (truthy_nonempty user Hne).
  - intros Hin. by rewrite (bool_decide_eq_true_2 _ Hin).
Qed.

Lemma X8_valid_username_is_routable_witness :
  Router.getRouteParam (Navigation.navigate "alice_01").1 "username" = Some "alice_01"
  ∧ Views.on_route (Navigation.navigate "alice_01").1 = Views.renderProfile "alice_01"
  ∧ (Navigation.navigate "reset").2 = "reset".
Proof.
  split; [|split].
  - apply (proj1 (X8_valid_username_is_routable "alice_01" eq_refl)).
  - apply (proj1 (proj2 (X8_valid_username_is_routable "alice_01" eq_refl))).
    apply (bool_decide_eq_false_1 ("alice_01" ∈ Router.routes)). vm_compute. reflexivity.
  - apply (proj2 (proj2 (X8_valid_username_is_routable "reset" eq_refl))).
    apply (bool_decide_eq_true_1 ("reset" ∈ Router.routes)). vm_compute. reflexivity.
Defined.

(** ** Web storage *)
Section StorageFacts.
Import WebStorage.

Lemma getStorage_readable (key : string) (d : option string) (storage : Storage) :
  getItem_throws storage = false →
  getStorage key d storage
  = match items storage !! key with Some value => Some value | None => d end.
Proof. intros H. unfold getStorage, getItem. by rewrite H. Qed.

Lemma getStorage_unreadable (key : string) (d : option string) (storage : Storage) :
  getItem_throws storage = true → getStorage key d storage = d.
Proof. intros H. unfold getStorage, getItem. by rewrite H. Qed.

(** The two ways [setStorage] ends. *)
Lemma setStorage_cases (key value : string) (storage : Storage) :
  (setItem_throws storage (items storage) key value = true
   ∧ setStorage key value storage = (false, storage))
  ∨ (setItem_throws storage (items storage) key value = false
     ∧ (setStorage key value storage).1 = true
     ∧ items (setStorage key value storage).2 = <[key := value]> (items storage)
     ∧ getItem_throws (setStorage key value storage).2 = getItem_throws storage).
Proof.
  unfold setStorage, setItem.
  destruct (setItem_throws storage _ key value); [by left | by right].
Qed.

Lemma getStorage_other (key value other : string) (d : option string) (storage : Storage) :
  other ≠ key →
  getStorage other d (setStorage key value storage).2 = getStorage other d storage.
Proof.
  intros Hother.
  destruct (setStorage_cases key value storage) as [[_ ->]|(_ & _ & Hitems & Hread)];
    [done|].
  unfold getStorage, getItem. rewrite Hread, Hitems.
  by rewrite lookup_insert_ne.
Qed.
End StorageFacts.

(** X9: a value written with [setStorage] is what [getStorage] reads back
    under the same key, whatever the default, when the write reports
    success and reads do not throw; a write that reports failure leaves
    the storage as it was; and no write changes what is read under
    another key. *)
Theorem X9_storage_round_trip (key value : string) (storage : WebStorage.Storage) :
  ((WebStorage.setStorage key value storage).1 = true
   ∧ WebStorage.getItem_throws storage = false →
   ∀ d, WebStorage.getStorage key d (WebStorage.setStorage key value storage).2
        = Some value)
  ∧ ((WebStorage.setStorage key value storage).1 = false →
     (WebStorage.setStorage key value storage).2 = storage)
  ∧ (∀ other d, other ≠ key →
       WebStorage.getStorage other d (WebStorage.setStorage key value storage).2
       = WebStorage.getStorage other d storage).
Proof.
  split; [|split].
  - intros [Hok Hread] d.
    destruct (setStorage_cases key value storage) as [[_ E]|(_ & _ & Hitems & Hread')].
    + rewrite E in Hok. discriminate Hok.
    + rewrite getStorage_readable by (by rewrite Hread').
      by rewrite Hitems, lookup_insert_eq.
  - intros Hfail.
    destruct (setStorage_cases key value storage) as [[_ ->]|(_ & Hok & _)]; [done|].
    rewrite Hok in Hfail. discriminate Hfail.
  - intros other d. apply getStorage_other.
Qed.

Lemma X9_storage_round_trip_witness :
  WebStorage.getStorage "cyb_login" (Some "")
    (WebStorage.setStorage "cyb_login" "alice" Scenarios.empty_storage).2
  = Some "alice".
Proof.
  apply (proj1 (X9_storage_round_trip "cyb_login" "alice" Scenarios.empty_storage)).
  split; reflexivity.
Defined.

(** X10: after [setStrawberryAccess] the flag [hasStrawberryAccess] is set
    when the storage works, is what it was when the write is refused, and
    is unset when reads throw; the flag [hasDarkTriggerAccess] is what it
    was in every case. *)
Theorem X10_strawberry_flag (localStorage : WebStorage.Storage) :
  WebStorage.hasStrawberryAccess (WebStorage.setStrawberryAccess localStorage)
  = (if WebStorage.getItem_throws localStorage then false
     else if WebStorage.setItem_throws localStorage (WebStorage.items localStorage)
               WebStorage.EASTER_KEY "1"
          then WebStorage.hasStrawberryAccess localStorage
          else true)
  ∧ WebStorage.hasDarkTriggerAccess (WebStorage.setStrawberryAccess localStorage)
    = WebStorage.hasDarkTriggerAccess localStorage.
Proof.
  unfold WebStorage.hasStrawberryAccess, WebStorage.hasDarkTriggerAccess,
    WebStorage.setStrawberryAccess.
  split; [|by rewrite getStorage_other].
  destruct (setStorage_cases WebStorage.EASTER_KEY "1" localStorage)
    as [[Hthrows ->]|(Hthrows & _ & Hitems & Hread)]; rewrite Hthrows; cbn [snd].
  - destruct (WebStorage.getItem_throws localStorage) eqn:E; [|done].
    by rewrite getStorage_unreadable.
  - destruct (WebStorage.getItem_throws localStorage) eqn:E.
    + rewrite getStorage_unreadable; [done | by rewrite Hread].
    + rewrite getStorage_readable by (by rewrite Hread).
      by rewrite Hitems, lookup_insert_eq.
Qed.

Example storage_example :
  WebStorage.setStorage "cyb_login" "alice" Scenarios.full_storage
  = (false, Scenarios.full_storage)
  ∧ WebStorage.getStorage "cyb_login" (Some "")
      (WebStorage.setStorage "cyb_login" "alice" Scenarios.empty_storage).2
    = Some "alice"
  ∧ WebStorage.getStorage "cyb_login" (Some "") Scenarios.empty_storage = Some "".
Proof. split; [reflexivity|]. split; vm_compute; reflexivity. Qed.

(** ** The response cache *)
Section CacheFacts.
Import Http ApiCache.

(** The two ways [cachedApiCall] ends: with the cached response and no
    effect, or with the request made. *)
Lemma cachedApiCall_cases (w : Browser) (now later : Z) (endpoint : string)
    (options : option Options) (cacheKey : option string)
    (apiCache : gmap string Entry) :
  let key := default endpoint cacheKey in
  let response := apiCall w endpoint (Some (default no_options options)) None in
  (∃ cached, apiCache !! key = Some cached
     ∧ (now - timestamp cached < CACHE_DURATION)%Z
     ∧ cachedApiCall w now later endpoint options cacheKey apiCache
       = ((data cached, []), apiCache))
  ∨ cachedApiCall w now later endpoint options cacheKey apiCache
    = (response,
       if ok response.1
       then <[key := {| data := response.1; timestamp := later |}]> apiCache
       else apiCache).
Proof.
  cbn zeta. unfold cachedApiCall.
  destruct (apiCache !! default endpoint cacheKey) as [cached|] eqn:E; [|by right].
  destruct (Z.ltb_spec (now - timestamp cached) CACHE_DURATION); [|by right].
  left. by exists cached.
Qed.

(** A successful response always comes with effects: it is the server's. *)
Lemma apiCall_ok_trace (w : Browser) (endpoint : string) (options : option Options)
    (timeoutMs : option Z) :
  ok (apiCall w endpoint options timeoutMs).1 = true →
  navigator w ≠ NavigatorOnLine false
  ∧ fetch w (request_url endpoint) (request_init (default no_options options))
    = Resolved (apiCall w endpoint options timeoutMs).1.
Proof.
  intros H.
  assert (Hon : navigator w ≠ NavigatorOnLine false).
  { intros Hoff. rewrite apiCall_offline in H by exact Hoff. discriminate H. }
  split; [exact Hon|].
  rewrite apiCall_online in H |- * by exact Hon.
  destruct (fetch w _ _) as [response|error|]; [done | discriminate H | discriminate H].
Qed.

Lemma run_call_ok (apiCache : gmap string Entry) (c : Call) :
  map_Forall (λ _ entry, ok (data entry) = true) apiCache →
  map_Forall (λ _ entry, ok (data entry) = true) (run_call apiCache c).
Proof.
  intros Hcache. unfold run_call.
  destruct (cachedApiCall_cases (call_browser c) (call_now c) (call_later c)
              (call_endpoint c) (call_options c) (call_cacheKey c) apiCache)
    as [(cached & _ & _ & ->)| ->]; [done|].
  cbn [snd]. destruct (ok _) eqn:E; [|done].
  by apply map_Forall_insert_2.
Qed.
End CacheFacts.

(** *** Calls that overlap *)
Section CacheRunFacts.
Import Http CacheRun.
Local Open Scope list_scope.

Lemma ok_from_fetch (w : Browser) (endpoint : string) (options : Options) :
  ok (apiCall w endpoint (Some options) None).1 = true →
  from_fetch w endpoint options = true
  ∧ (apiCall w endpoint (Some options) None).2 ≠ [].
Proof.
  intros Hok. destruct (apiCall_ok_trace w endpoint (Some options) None Hok) as [Hon Hf].
  cbn [default from_option id] in Hf. split.
  - unfold from_fetch. rewrite Hf. by destruct (navigator w) as [|[|]].
  - rewrite apiCall_online by exact Hon. cbn [default from_option id]. by rewrite Hf.
Qed.

Lemma returned_longer (st : State) (more : list Returned) (object : Object) :
  (∃ j r, returned st !! j = Some r ∧ value r = object ∧ effects r ≠ []) →
  ∃ j r, (returned st ++ more) !! j = Some r ∧ value r = object ∧ effects r ≠ [].
Proof.
  intros (j & r & Hj & Hv & He). exists j, r.
  split; [|done]. by apply lookup_app_l_Some.
Qed.

Lemma step_stored (st : State) (e : Event) : Stored st → Stored (step st e).
Proof.
  intros Hst. destruct e as [ms|endpoint options cacheKey|i w|j]; cbn [step].
  - intros key slot Hslot. cbn [apiCache clock returned] in *.
    destruct (Hst key slot Hslot) as (Hpast & Hrest). split; [lia | exact Hrest].
  - unfold start.
    destruct (apiCache st !! default endpoint cacheKey) as [cached|];
      [destruct (_ <? _)%Z|]; intros key slot Hslot; cbn [apiCache clock returned] in *;
      destruct (Hst key slot Hslot) as (Hpast & Hok & Hf & Hr); try done.
    split; [done|]. split; [done|]. split; [done|]. by apply returned_longer.
  - destruct (waiting st !! i) as [call|]; [|exact Hst].
    unfold finish. cbn [clock apiCache returned objects].
    intros key slot Hslot. cbn [apiCache clock returned] in *.
    assert (Hold : apiCache st !! key = Some slot →
                   (slot_timestamp slot ≤ clock st)%Z
                   ∧ ok (response (slot_data slot)) = true
                   ∧ fetched (slot_data slot) = true
                   ∧ ∃ j r, (returned st ++ [ {| value :=
                                 {| object_id := objects st;
                                    response :=
                                      (apiCall w (waiting_endpoint call)
                                         (Some (waiting_options call)) None).1;
                                    fetched :=
                                      from_fetch w (waiting_endpoint call)
                                        (waiting_options call) |};
                               effects :=
                                 (apiCall w (waiting_endpoint call)
                                    (Some (waiting_options call)) None).2 |} ]) !! j
                            = Some r
                            ∧ value r = slot_data slot ∧ effects r ≠ []).
    { intros H. destruct (Hst key slot H) as (Hpast & Hok & Hf & Hr).
      split; [done|]. split; [done|]. split; [done|]. by apply returned_longer. }
    destruct (ok (apiCall w (waiting_endpoint call) (Some (waiting_options call)) None).1)
      eqn:Hok; [|by apply Hold].
    destruct (decide (key = waiting_cacheKey call)) as [->|Hne].
    + rewrite lookup_insert_eq in Hslot. injection Hslot as <-.
      destruct (ok_from_fetch _ _ _ Hok) as [Hf Heff].
      cbn [slot_timestamp slot_data response fetched].
      split; [lia|]. split; [exact Hok|]. split; [exact Hf|].
      exists (length (returned st)).
      eexists. split; [rewrite lookup_app_r by lia; rewrite Nat.sub_diag; reflexivity|].
      split; [reflexivity | exact Heff].
    + rewrite lookup_insert_ne in Hslot by done. by apply Hold.
  - destruct (returned st !! j) as [r|]; [|exact Hst].
    unfold read_json. destruct (fetched (value r) && _); exact Hst.
Qed.

Lemma fold_stored (events : list Event) (st : State) :
  Stored st → Stored (fold_left step events st).
Proof.
  revert st. induction events as [|e events IH]; intros st H; [exact H|].
  cbn [fold_left]. by apply IH, step_stored.
Qed.

Lemma run_stored (events : list Event) : Stored (run_events events).
Proof.
  apply fold_stored. intros key slot H. cbn [initial apiCache] in H.
  by rewrite lookup_empty in H.
Qed.

(** An entry stays, or gives way to a more recent one. *)
Lemma step_keeps (st : State) (e : Event) (key : string) (slot : Slot) :
  Stored st → apiCache st !! key = Some slot →
  ∃ slot', apiCache (step st e) !! key = Some slot'
           ∧ (slot_timestamp slot ≤ slot_timestamp slot')%Z.
Proof.
  intros Hst Hslot. destruct (Hst key slot Hslot) as (Hpast & _).
  destruct e as [ms|endpoint options cacheKey|i w|j]; cbn [step].
  - exists slot. by split.
  - unfold start.
    destruct (apiCache st !! default endpoint cacheKey) as [cached|];
      [destruct (_ <? _)%Z|]; exists slot; by split.
  - destruct (waiting st !! i) as [call|]; [|exists slot; by split].
    unfold finish. cbn [apiCache clock].
    destruct (ok _); [|exists slot; by split].
    destruct (decide (key = waiting_cacheKey call)) as [->|Hne].
    + eexists. rewrite lookup_insert_eq. split; [reflexivity|]. cbn. lia.
    + exists slot. by rewrite lookup_insert_ne.
  - destruct (returned st !! j) as [r|]; [|exists slot; by split].
    unfold read_json. destruct (fetched (value r) && _); exists slot; by split.
Qed.

Lemma fold_keeps (more : list Event) (st : State) (key : string) (slot : Slot) :
  Stored st → apiCache st !! key = Some slot →
  ∃ slot', apiCache (fold_left step more st) !! key = Some slot'
           ∧ (slot_timestamp slot ≤ slot_timestamp slot')%Z.
Proof.
  revert st slot. induction more as [|e more IH]; intros st slot Hst Hslot.
  - exists slot. by split.
  - cbn [fold_left].
    destruct (step_keeps st e key slot Hst Hslot) as (slot1 & Hslot1 & Hts1).
    destruct (IH (step st e) slot1 (step_stored st e Hst) Hslot1) as (slot2 & Hslot2 & Hts2).
    exists slot2. split; [exact Hslot2 | lia].
Qed.

Lemma run_keeps (events more : list Event) (key : string) (slot : Slot) :
  apiCache (run_events events) !! key = Some slot →
  ∃ slot', apiCache (run_events (events ++ more)) !! key = Some slot'
           ∧ (slot_timestamp slot ≤ slot_timestamp slot')%Z.
Proof.
  intros Hslot. unfold run_events. rewrite fold_left_app.
  apply fold_keeps; [apply run_stored | exact Hslot].
Qed.
End CacheRunFacts.

(** X11: once an entry is in the cache under a key, every call under that
    key that starts less than five minutes ([CACHE_DURATION]) after the
    entry was stored makes no request, whatever calls overlap and whatever
    else happens in between: the key still has an entry, at least as
    recent, and the call returns the [data] of that entry at once, with
    no effect, leaving the cache and the waiting calls as they are. What
    it returns is not a copy: it is the successful [Response] of [fetch]
    that the call which made the request returned to its own caller. The
    body of that object can be read once, so when an earlier caller has
    read it, [json()] on the response the cache gives rejects. *)
Theorem X11_cache_hit (events more : list CacheRun.Event) (key : string)
    (slot : CacheRun.Slot) (endpoint : string) (options : option Http.Options)
    (cacheKey : option string) :
  CacheRun.apiCache (CacheRun.run_events events) !! key = Some slot →
  default endpoint cacheKey = key →
  (CacheRun.clock (CacheRun.run_events (events ++ more)) - CacheRun.slot_timestamp slot
   < ApiCache.CACHE_DURATION)%Z →
  ∃ slot' : CacheRun.Slot,
    CacheRun.apiCache (CacheRun.run_events (events ++ more)) !! key = Some slot'
    ∧ (CacheRun.slot_timestamp slot ≤ CacheRun.slot_timestamp slot')%Z
    ∧ CacheRun.step (CacheRun.run_events (events ++ more))
        (CacheRun.Call endpoint options cacheKey)
      = {| CacheRun.clock := CacheRun.clock (CacheRun.run_events (events ++ more));
           CacheRun.apiCache := CacheRun.apiCache (CacheRun.run_events (events ++ more));
           CacheRun.waiting := CacheRun.waiting (CacheRun.run_events (events ++ more));
           CacheRun.objects := CacheRun.objects (CacheRun.run_events (events ++ more));
           CacheRun.returned :=
             (CacheRun.returned (CacheRun.run_events (events ++ more))
              ++ [ {| CacheRun.value := CacheRun.slot_data slot';
                      CacheRun.effects := [] |} ])%list;
           CacheRun.used := CacheRun.used (CacheRun.run_events (events ++ more));
           CacheRun.reads := CacheRun.reads (CacheRun.run_events (events ++ more)) |}
    ∧ Http.ok (CacheRun.response (CacheRun.slot_data slot')) = true
    ∧ (∃ (j : nat) (r : CacheRun.Returned),
         CacheRun.returned (CacheRun.run_events (events ++ more)) !! j = Some r
         ∧ CacheRun.value r = CacheRun.slot_data slot'
         ∧ CacheRun.effects r ≠ [])
    ∧ (CacheRun.object_id (CacheRun.slot_data slot')
       ∈ CacheRun.used (CacheRun.run_events (events ++ more)) →
       CacheRun.reads
         (CacheRun.step
            (CacheRun.step (CacheRun.run_events (events ++ more))
               (CacheRun.Call endpoint options cacheKey))
            (CacheRun.ReadJson
               (length (CacheRun.returned (CacheRun.run_events (events ++ more))))))
       = (CacheRun.reads (CacheRun.run_events (events ++ more))
          ++ [ (length (CacheRun.returned (CacheRun.run_events (events ++ more))),
                None) ])%list).
Proof.
  intros Hslot Hkey Hfresh.
  pose proof (run_stored (events ++ more)) as Hstored.
  destruct (run_keeps events more key slot Hslot) as (slot' & Hslot' & Hts).
  destruct (Hstored key slot' Hslot') as (Hpast & Hok & Hfetched & Hreturned).
  assert (Hhit : CacheRun.step (CacheRun.run_events (events ++ more))
                   (CacheRun.Call endpoint options cacheKey)
                 = {| CacheRun.clock := CacheRun.clock (CacheRun.run_events (events ++ more));
                      CacheRun.apiCache :=
                        CacheRun.apiCache (CacheRun.run_events (events ++ more));
                      CacheRun.waiting :=
                        CacheRun.waiting (CacheRun.run_events (events ++ more));
                      CacheRun.objects :=
                        CacheRun.objects (CacheRun.run_events (events ++ more));
                      CacheRun.returned :=
                        (CacheRun.returned (CacheRun.run_events (events ++ more))
                         ++ [ {| CacheRun.value := CacheRun.slot_data slot';
                                 CacheRun.effects := [] |} ])%list;
                      CacheRun.used := CacheRun.used (CacheRun.run_events (events ++ more));
                      CacheRun.reads :=
                        CacheRun.reads (CacheRun.run_events (events ++ more)) |}).
  { cbn [CacheRun.step]. unfold CacheRun.start. rewrite Hkey, Hslot'.
    destruct (Z.ltb_spec
                (CacheRun.clock (CacheRun.run_events (events ++ more))
                 - CacheRun.slot_timestamp slot') ApiCache.CACHE_DURATION);
      [reflexivity | lia]. }
  exists slot'. split; [exact Hslot'|]. split; [exact Hts|]. split; [exact Hhit|].
  split; [exact Hok|]. split; [exact Hreturned|].
  intros Hused. rewrite Hhit. cbn [CacheRun.step CacheRun.returned].
  rewrite lookup_app_r by lia. rewrite Nat.sub_diag. cbn [lookup list_lookup CacheRun.value].
  unfold CacheRun.read_json. cbn [CacheRun.used].
  rewrite Hfetched, (bool_decide_eq_true_2 _ Hused). reflexivity.
Qed.

Lemma X11_cache_hit_witness :
  ∃ slot' : CacheRun.Slot,
    CacheRun.apiCache
      (CacheRun.run_events
         (CacheRun.fetched_and_read ++ [CacheRun.Elapse 299999])) !! "/auth/me"
    = Some slot'
    ∧ CacheRun.reads
        (CacheRun.run_events
           (CacheRun.fetched_and_read
            ++ [ CacheRun.Elapse 299999; CacheRun.Call "/auth/me" None None;
                 CacheRun.ReadJson 1 ]))
      = [ (0%nat, Some (Http.JObj [("ok", Http.JBool true)])); (1%nat, None) ].
Proof.
  destruct (X11_cache_hit CacheRun.fetched_and_read [CacheRun.Elapse 299999] "/auth/me"
              {| CacheRun.slot_data :=
                   {| CacheRun.object_id := 0;
                      CacheRun.response :=
                        Samples.ok_response (Http.JObj [("ok", Http.JBool true)]);
                      CacheRun.fetched := true |};
                 CacheRun.slot_timestamp := 0 |}
              "/auth/me" None None)
    as (slot' & Hslot' & _ & _ & _ & _ & Hread).
  - vm_compute. reflexivity.
  - reflexivity.
  - vm_compute. reflexivity.
  - exists slot'. split; [exact Hslot'|].
    assert (Hsame : slot'
                    = {| CacheRun.slot_data :=
                           {| CacheRun.object_id := 0;
                              CacheRun.response :=
                                Samples.ok_response (Http.JObj [("ok", Http.JBool true)]);
                              CacheRun.fetched := true |};
                         CacheRun.slot_timestamp := 0 |}).
    { revert Hslot'. vm_compute. by intros [= <-]. }
    subst slot'.
    unfold CacheRun.run_events in *. rewrite fold_left_app.
    change (fold_left CacheRun.step
              [CacheRun.Elapse 299999; CacheRun.Call "/auth/me" None None;
               CacheRun.ReadJson 1]
              (fold_left CacheRun.step CacheRun.fetched_and_read CacheRun.initial))
      with (CacheRun.step
              (CacheRun.step
                 (fold_left CacheRun.step
                    (CacheRun.fetched_and_read ++ [CacheRun.Elapse 299999])
                    CacheRun.initial)
                 (CacheRun.Call "/auth/me" None None))
              (CacheRun.ReadJson
                 (length (CacheRun.returned
                            (fold_left CacheRun.step
                               (CacheRun.fetched_and_read ++ [CacheRun.Elapse 299999])
                               CacheRun.initial))))).
    rewrite Hread; [reflexivity|].
    apply (bool_decide_eq_true_1 _). vm_compute. reflexivity.
Defined.

(** Two calls under one key that overlap both miss and both make a
    request; the cache keeps the response of the one that ends last, and a
    later call is given that one. *)
Example overlapping_calls_both_fetch :
  let st :=
    CacheRun.run_events
      [ CacheRun.Call "/auth/me" None None; CacheRun.Call "/auth/me" None None;
        CacheRun.Settle 0 Scenarios.browser_ok; CacheRun.Settle 0 Scenarios.browser_ok;
        CacheRun.Call "/auth/me" None None ] in
  CacheRun.objects st = 2%nat
  ∧ (CacheRun.object_id ∘ CacheRun.slot_data) <$> CacheRun.apiCache st !! "/auth/me"
    = Some 1%nat
  ∧ (CacheRun.object_id ∘ CacheRun.value) <$> CacheRun.returned st
    = [0%nat; 1%nat; 1%nat]
  ∧ (λ r, length (CacheRun.effects r)) <$> CacheRun.returned st
    = [3%nat; 3%nat; 0%nat].
Proof. vm_compute. repeat split. Qed.

(** X12: the cache only ever holds successful responses: after any
    sequence of calls of [cachedApiCall], every entry of [apiCache] has a
    response whose [ok] flag is true. *)
Theorem X12_cache_holds_successes (calls : list ApiCache.Call) :
  map_Forall (λ _ entry, Http.ok (ApiCache.data entry) = true)
    (ApiCache.run_calls calls).
Proof.
  unfold ApiCache.run_calls.
  assert (H : map_Forall (λ (_ : string) entry, Http.ok (ApiCache.data entry) = true)
                (∅ : gmap string ApiCache.Entry)) by apply map_Forall_empty.
  revert H. generalize (∅ : gmap string ApiCache.Entry).
  induction calls as [|c calls IH]; intros apiCache H; [exact H|].
  cbn [fold_left]. apply IH. by apply run_call_ok.
Qed.

(** ** More on [apiCall] *)

(** X13: [apiCall] never makes up a success: when the response it
    returns has a true [ok] flag, the browser was not offline and the
    response is the one [fetch] resolved with for the request. *)
Theorem X13_apiCall_success_is_genuine (w : Http.Browser) (endpoint : string)
    (options : option Http.Options) (timeoutMs : option Z) :
  Http.ok (Http.apiCall w endpoint options timeoutMs).1 = true →
  Http.navigator w ≠ Http.NavigatorOnLine false
  ∧ Http.fetch w (Http.request_url endpoint)
      (Http.request_init (default Http.no_options options))
    = Http.Resolved (Http.apiCall w endpoint options timeoutMs).1.
Proof. apply apiCall_ok_trace. Qed.

Lemma X13_apiCall_success_is_genuine_witness :
  Http.fetch Scenarios.browser_ok (Http.request_url "/auth/me")
    (Http.request_init (default Http.no_options None))
  = Http.Resolved (Http.apiCall Scenarios.browser_ok "/auth/me" None None).1.
Proof.
  apply (proj2 (X13_apiCall_success_is_genuine Scenarios.browser_ok "/auth/me" None None
                  eq_refl)).
Defined.

(** X14: [apiCall] navigates at most once, only to [username], and only
    when [fetch] resolved with a response of status 401 for an endpoint
    that contains none of the excluded texts; offline, on a network
    error and on a timeout it never navigates. *)
Theorem X14_apiCall_navigates_only_on_401 (w : Http.Browser) (endpoint : string)
    (options : option Http.Options) (timeoutMs : option Z) :
  filter (λ e, Http.is_navigate e = true) (Http.apiCall w endpoint options timeoutMs).2
  = []
  ∨ (filter (λ e, Http.is_navigate e = true)
       (Http.apiCall w endpoint options timeoutMs).2 = [Http.Navigate "username"]
     ∧ Http.fetch w (Http.request_url endpoint)
         (Http.request_init (default Http.no_options options))
       = Http.Resolved (Http.apiCall w endpoint options timeoutMs).1
     ∧ Http.status (Http.apiCall w endpoint options timeoutMs).1 = 401%Z
     ∧ existsb (λ fragment, JsString.includes fragment endpoint) Http.excluded_endpoints
       = false).
Proof.
  assert (Hcase : Http.navigator w = Http.NavigatorOnLine false
                  ∨ Http.navigator w ≠ Http.NavigatorOnLine false)
    by (destruct (Http.navigator w) as [|[|]]; [right | right | left]; done).
  destruct Hcase as [Hoff|Hon].
  - left. by rewrite apiCall_offline.
  - rewrite apiCall_online by exact Hon.
    destruct (Http.fetch w _ _) as [response|error|]; cbn [fst snd]; [|by left|by left].
    destruct (Http.redirects response endpoint) eqn:E; [right | by left].
    split; [done|]. split; [done|].
    rewrite redirects_excluded in E. apply andb_prop in E as [Hs He].
    split; [by apply Z.eqb_eq|]. by apply negb_true_iff.
Qed.

Section RequestFacts.
Import JsString Http.

Lemma request_url_absolute (endpoint : string) :
  startsWith "http" (request_url endpoint) = true.
Proof.
  unfold request_url. destruct (startsWith "http" endpoint) eqn:E; [exact E|].
  unfold API_BASE, startsWith. by rewrite !append_cons.
Qed.

(** The request of a call, when it makes one. *)
Lemma apiCall_fetches (w : Browser) (endpoint : string) (options : option Options)
    (timeoutMs : option Z) (url : string) (init : RequestInit) :
  Fetch url init ∈ (apiCall w endpoint options timeoutMs).2 →
  url = request_url endpoint ∧ init = request_init (default no_options options).
Proof.
  assert (Hcase : navigator w = NavigatorOnLine false
                  ∨ navigator w ≠ NavigatorOnLine false)
    by (destruct (navigator w) as [|[|]]; [right | right | left]; done).
  destruct Hcase as [Hoff|Hon].
  - rewrite apiCall_offline by exact Hoff. cbn [snd]. by intros H%elem_of_nil.
  - rewrite apiCall_online by exact Hon.
    destruct (fetch w _ _) as [response|error|]; cbn [fst snd];
      [destruct (redirects response endpoint)|..];
      rewrite ?elem_of_app, !elem_of_cons, ?elem_of_nil;
      intros H; repeat (destruct H as [H|H]; try discriminate H; try done);
      by injection H as -> ->.
Qed.

(** A call to an excluded endpoint never navigates. *)
Lemma apiCall_excluded_quiet (w : Browser) (endpoint : string)
    (options : option Options) (timeoutMs : option Z) :
  existsb (λ fragment, includes fragment endpoint) excluded_endpoints = true →
  filter (λ e, is_navigate e = true) (apiCall w endpoint options timeoutMs).2 = [].
Proof.
  intros Hex.
  assert (Hcase : navigator w = NavigatorOnLine false
                  ∨ navigator w ≠ NavigatorOnLine false)
    by (destruct (navigator w) as [|[|]]; [right | right | left]; done).
  destruct Hcase as [Hoff|Hon].
  - by rewrite apiCall_offline.
  - rewrite apiCall_online by exact Hon.
    destruct (fetch w _ _) as [response|error|]; cbn [fst snd]; [|done|done].
    by rewrite redirects_excluded, Hex, andb_false_r.
Qed.
End RequestFacts.

(** X15: every request [apiCall] sends goes to an absolute URL (the
    endpoint itself when it starts with [http], the API origin followed by
    the endpoint otherwise), carries a [Content-Type] header and a
    credentials mode that is not empty, and carries each header the
    caller gave with the caller's value. *)
Theorem X15_request_sent (w : Http.Browser) (endpoint : string)
    (options : option Http.Options) (timeoutMs : option Z)
    (url : string) (init : Http.RequestInit) :
  Http.Fetch url init ∈ (Http.apiCall w endpoint options timeoutMs).2 →
  JsString.startsWith "http" url = true
  ∧ url = (if JsString.startsWith "http" endpoint then endpoint
           else "https://api.cyblight.org" +:+ endpoint)
  ∧ is_Some (Http.init_headers init !! "Content-Type")
  ∧ Http.init_credentials init ≠ ""
  ∧ (∀ name value,
       default ∅ (Http.opt_headers (default Http.no_options options)) !! name
       = Some value →
       Http.init_headers init !! name = Some value).
Proof.
  intros [-> ->]%apiCall_fetches.
  split; [apply request_url_absolute|]. split; [done|].
  unfold Http.request_init. cbn [Http.init_headers Http.init_credentials].
  split; [|split].
  - destruct (default ∅ (Http.opt_headers (default Http.no_options options))
              !! "Content-Type") as [value|] eqn:E.
    + exists value. by apply lookup_union_Some_l.
    + exists "application/json". rewrite lookup_union_r by exact E.
      apply lookup_singleton_eq.
  - unfold Http.or_string.
    destruct (Http.credentials (default Http.no_options options)) as [[|c s]|];
      discriminate.
  - intros name value H. by apply lookup_union_Some_l.
Qed.

Lemma X15_request_sent_witness :
  JsString.startsWith "http" "https://api.cyblight.org/auth/me" = true
  ∧ Http.init_credentials (Http.request_init Session.probe_options) ≠ "".
Proof.
  pose proof (X15_request_sent Scenarios.browser_ok "/auth/me"
                (Some Session.probe_options) None
                "https://api.cyblight.org/auth/me"
                (Http.request_init Session.probe_options)) as H.
  assert (Hin : Http.Fetch "https://api.cyblight.org/auth/me"
                  (Http.request_init Session.probe_options)
                ∈ (Http.apiCall Scenarios.browser_ok "/auth/me"
                     (Some Session.probe_options) None).2).
  { apply list_elem_of_further, list_elem_of_here. }
  destruct (H Hin) as (H1 & _ & _ & H4 & _). split; [exact H1 | exact H4].
Defined.

(** ** The session probe and the first render *)
Section SessionFacts.
Import JsString Http Session.

Lemma checkSession_eq (w : Browser) :
  checkSession w
  = (let res := apiCall w "/auth/me" (Some probe_options) None in
     (ok res.1 && Passkey.json_truthy (optional_prop "ok" (json res.1)), res.2)).
Proof.
  unfold checkSession, bind, ret.
  destruct (apiCall w "/auth/me" (Some probe_options) None) as [res t].
  cbn [fst snd]. by rewrite app_nil_r.
Qed.

Lemma optional_prop_truthy (k : string) (data : option Json) :
  Passkey.json_truthy (optional_prop k data) = true ↔
  ∃ fields, data = Some (JObj fields)
            ∧ Passkey.json_truthy (Passkey.lookup_field k fields) = true.
Proof.
  split.
  - destruct data as [[| | | | |fields]|]; try discriminate. intros H. by exists fields.
  - intros (fields & -> & H). exact H.
Qed.


End SessionFacts.

(** X16: [checkSession] never navigates, whatever the server answers; and
    it answers true exactly when the browser is not offline, the request
    to [/auth/me] is answered with a response whose [ok] flag is true and
    whose body is a JSON object with a truthy [ok] property. *)
Theorem X16_checkSession (w : Http.Browser) :
  filter (λ e, Http.is_navigate e = true) (Session.checkSession w).2 = []
  ∧ ((Session.checkSession w).1 = true ↔
     Http.navigator w ≠ Http.NavigatorOnLine false
     ∧ ∃ response fields,
         Http.fetch w "https://api.cyblight.org/auth/me"
           (Http.request_init Session.probe_options) = Http.Resolved response
         ∧ Http.ok response = true
         ∧ Http.json response = Some (Http.JObj fields)
         ∧ Passkey.json_truthy (Passkey.lookup_field "ok" fields) = true).
Proof.
  rewrite checkSession_eq. cbn [fst snd]. split.
  - by apply apiCall_excluded_quiet.
  - split.
    + intros H. apply andb_prop in H as [Hok Hdata].
      destruct (apiCall_ok_trace w "/auth/me" (Some Session.probe_options) None Hok)
        as [Hon Hfetch].
      split; [exact Hon|].
      apply optional_prop_truthy in Hdata as (fields & Hjson & Hfield).
      by exists (Http.apiCall w "/auth/me" (Some Session.probe_options) None).1, fields.
    + intros (Hon & response & fields & Hfetch & Hok & Hjson & Hfield).
      rewrite apiCall_online by exact Hon.
      change (Http.request_url "/auth/me") with "https://api.cyblight.org/auth/me".
      change (default Http.no_options (Some Session.probe_options))
        with Session.probe_options.
      rewrite Hfetch. cbn [fst]. rewrite Hok, Hjson. exact Hfield.
Qed.

Lemma X16_checkSession_witness : (Session.checkSession Scenarios.browser_ok).1 = true.
Proof.
  apply (proj2 (proj2 (X16_checkSession Scenarios.browser_ok))).
  split; [discriminate|].
  exists (Samples.ok_response (Http.JObj [("ok", Http.JBool true)])),
         [("ok", Http.JBool true)].
  split; [reflexivity|]. split; [reflexivity|]. split; reflexivity.
Defined.

Example checkSession_example :
  Session.checkSession Scenarios.browser_ok
  = (true, [ Http.SetTimeout 10000;
             Http.Fetch "https://api.cyblight.org/auth/me"
               (Http.request_init Session.probe_options);
             Http.ClearTimeout ])
  ∧ Session.checkSession Samples.browser_401
    = (false, [ Http.SetTimeout 10000;
                Http.Fetch "https://api.cyblight.org/auth/me"
                  (Http.request_init Session.probe_options);
                Http.ClearTimeout ])
  ∧ Session.checkSession Samples.browser_offline = (false, []).
Proof. split; [reflexivity|]. split; reflexivity. Qed.



Example boot_without_session :
  (Session.boot Samples.browser_401 "/signup").1 = ("/signup", Views.viewSignup)
  ∧ (Session.boot Samples.browser_offline "/account-security").1
    = ("/account-security", Views.viewAccount "security").
Proof. split; reflexivity. Qed.

(** ** The error reporter over the life of the page *)
Section ReporterLifetime.
Import ErrorReporter Reports.
Local Open Scope list_scope.

Lemma count_delete {A : Type} (f : A → bool) (l : list A) (i : nat) (x : A) :
  l !! i = Some x → count f l = ((if f x then 1 else 0) + count f (delete i l))%nat.
Proof.
  intros H. destruct (delete_split l i x H) as (l1 & l2 & -> & ->).
  rewrite !count_app. cbn [count]. lia.
Qed.

Lemma initial_lifetime : Lifetime initial.
Proof. split; cbn; lia. Qed.

Lemma step_lifetime (st : State) (i : Input) : Lifetime st → Lifetime (step st i).
Proof.
  intros [Hpay Hcap]. destruct i as [ms|i|message source lineno colno|message];
    cbn [step].
  - split; [exact Hpay | exact Hcap].
  - destruct (timers st !! i) as [t|] eqn:Ht; [|by split].
    destruct (due t <=? now st)%Z; [|by split].
    pose proof (count_delete is_decrement (timers st) i t Ht) as Hdel.
    assert (Hd : is_decrement t
                 = match action t with DecrementCount => true | DeleteKey _ => false end)
      by reflexivity.
    rewrite Hd in Hdel.
    destruct (action t) as [k|]; cbn [fire];
      (split; [cbn [sent timers errorCount]; lia | exact Hcap]).
  - unfold onerror. destruct (bool_decide _); [by split|].
    cbn [errorCount increment remember].
    destruct (errorCount st + 1 >? MAX_ERRORS_PER_MINUTE)%Z.
    + split; [|exact Hcap].
      cbn [sent timers errorCount increment remember]. rewrite count_app.
      cbn. lia.
    + split; cbn [sent timers errorCount increment remember schedule_decrement post];
        rewrite ?count_app; cbn; lia.
  - unfold onunhandledrejection. destruct (bool_decide _); [by split|].
    cbn [errorCount increment remember].
    destruct (Z.gtb_spec (errorCount st + 1) MAX_ERRORS_PER_MINUTE) as [Hgt|Hle].
    + split; [|exact Hcap].
      cbn [sent timers errorCount increment remember]. rewrite count_app.
      cbn. lia.
    + unfold MAX_ERRORS_PER_MINUTE in Hle.
      split; cbn [sent timers errorCount increment remember post];
        rewrite ?count_app; cbn; lia.
Qed.

Lemma fold_lifetime (more : list Input) (st : State) :
  Lifetime st → Lifetime (fold_left step more st).
Proof.
  revert st. induction more as [|i more IH]; intros st H; [exact H|].
  cbn [fold_left]. by apply IH, step_lifetime.
Qed.

(** With ten rejections reported, no handler reports anything. *)
Lemma step_silent (st : State) (i : Input) :
  Lifetime st → count is_rejection (sent st) = 10%nat → sent (step st i) = sent st.
Proof.
  intros [Hpay _] Hten. destruct i as [ms|i|message source lineno colno|message];
    cbn [step].
  - done.
  - destruct (timers st !! i) as [t|]; [|done].
    destruct (due t <=? now st)%Z; [|done]. by destruct (action t).
  - unfold onerror. destruct (bool_decide _); [done|].
    cbn [errorCount increment remember].
    destruct (Z.gtb_spec (errorCount st + 1) MAX_ERRORS_PER_MINUTE) as [Hgt|Hle]; [done|].
    unfold MAX_ERRORS_PER_MINUTE in Hle. lia.
  - unfold onunhandledrejection. destruct (bool_decide _); [done|].
    cbn [errorCount increment remember].
    destruct (Z.gtb_spec (errorCount st + 1) MAX_ERRORS_PER_MINUTE) as [Hgt|Hle]; [done|].
    unfold MAX_ERRORS_PER_MINUTE in Hle. lia.
Qed.

Lemma fold_silent (more : list Input) (st : State) :
  Lifetime st → count is_rejection (sent st) = 10%nat →
  sent (fold_left step more st) = sent st.
Proof.
  revert st. induction more as [|i more IH]; intros st H Hten; [done|].
  cbn [fold_left]. pose proof (step_silent st i H Hten) as Hsent.
  rewrite IH; [exact Hsent | by apply step_lifetime | by rewrite Hsent].
Qed.

Lemma elem_of_delete_other {A : Type} (l : list A) (i : nat) (x y : A) :
  l !! i = Some x → y ∈ l → y ≠ x → y ∈ delete i l.
Proof.
  intros H Hy Hne. destruct (delete_split l i x H) as (l1 & l2 & -> & ->).
  rewrite elem_of_app, elem_of_cons in Hy. rewrite elem_of_app.
  destruct Hy as [Hy|[Hy|Hy]]; [by left | done | by right].
Qed.

Lemma remember_expiring (st : State) (k : string) :
  Expiring st → Expiring (remember k st).
Proof.
  intros H k' Hk'. cbn [errorCache timers now remember] in *.
  apply elem_of_union in Hk' as [Hk'%elem_of_singleton|Hk'].
  - subst k'. exists {| due := now st + 60000; action := DeleteKey k |}.
    split; [|by split]. apply elem_of_app. right. apply list_elem_of_here.
  - destruct (H k' Hk') as (t & Ht & Ha & Hd). exists t.
    split; [|by split]. apply elem_of_app. by left.
Qed.

Lemma step_expiring (st : State) (i : Input) : Expiring st → Expiring (step st i).
Proof.
  intros H. destruct i as [ms|i|message source lineno colno|message]; cbn [step].
  - intros k Hk. destruct (H k Hk) as (t & Ht & Ha & Hd). exists t.
    cbn [now timers]. split; [exact Ht|]. split; [exact Ha|]. lia.
  - destruct (timers st !! i) as [t0|] eqn:Ht0; [|exact H].
    destruct (due t0 <=? now st)%Z; [|exact H].
    destruct (action t0) as [k0|] eqn:Ha0; cbn [fire]; intros k Hk;
      cbn [errorCache timers now] in *.
    + apply elem_of_difference in Hk as [Hk Hne].
      destruct (H k Hk) as (t & Ht & Ha & Hd). exists t.
      split; [|by split]. apply (elem_of_delete_other _ i t0); [done..|].
      intros ->. rewrite Ha0 in Ha. injection Ha as ->.
      apply Hne. by apply elem_of_singleton.
    + destruct (H k Hk) as (t & Ht & Ha & Hd). exists t.
      split; [|by split]. apply (elem_of_delete_other _ i t0); [done..|].
      intros ->. rewrite Ha0 in Ha. discriminate Ha.
  - unfold onerror. destruct (bool_decide _); [exact H|].
    pose proof (remember_expiring st (sync_errorKey message source lineno) H) as Hr.
    destruct (_ >? _)%Z.
    + exact Hr.
    + intros k Hk. destruct (Hr k Hk) as (t & Ht & Ha & Hd). exists t.
      split; [|by split].
      cbn [timers post schedule_decrement increment]. apply elem_of_app. by left.
  - unfold onunhandledrejection. destruct (bool_decide _); [exact H|].
    pose proof (remember_expiring st (rejection_errorKey message) H) as Hr.
    destruct (_ >? _)%Z; exact Hr.
Qed.
End ReporterLifetime.

(** X18: over the whole life of the page at most ten promise rejections
    are ever reported, however much time passes between them: the
    rejection handler counts each report in [errorCount] and schedules no
    decrement for it. *)
Theorem X18_rejections_capped_for_life (inputs : list ErrorReporter.Input) :
  (ErrorReporter.count Reports.is_rejection
     (ErrorReporter.sent (ErrorReporter.run_events inputs)) ≤ 10)%nat.
Proof.
  unfold ErrorReporter.run_events.
  apply (fold_lifetime inputs ErrorReporter.initial initial_lifetime).
Qed.

(** X19: once ten promise rejections have been reported, nothing is
    reported any more, neither rejections nor synchronous errors,
    whatever happens and however long the page lives. *)
Theorem X19_reporter_silenced (inputs more : list ErrorReporter.Input) :
  ErrorReporter.count Reports.is_rejection
    (ErrorReporter.sent (ErrorReporter.run_events inputs)) = 10%nat →
  ErrorReporter.sent (ErrorReporter.run_events (inputs ++ more))
  = ErrorReporter.sent (ErrorReporter.run_events inputs).
Proof.
  intros Hten. unfold ErrorReporter.run_events in *. rewrite fold_left_app.
  apply fold_silent; [|exact Hten].
  apply (fold_lifetime inputs ErrorReporter.initial initial_lifetime).
Qed.

Lemma X19_reporter_silenced_witness :
  ErrorReporter.sent
    (ErrorReporter.run_events
       (Scenarios.ten_rejections
        ++ [ ErrorReporter.Elapse 3600000;
             ErrorReporter.ErrorEvent "boom" "app.js" 3 1 ]))
  = ErrorReporter.sent (ErrorReporter.run_events Scenarios.ten_rejections).
Proof.
  apply (X19_reporter_silenced Scenarios.ten_rejections
           [ ErrorReporter.Elapse 3600000;
             ErrorReporter.ErrorEvent "boom" "app.js" 3 1 ]).
  vm_compute. reflexivity.
Defined.

(** X20: the cache of error keys does not keep a key for ever: at every
    moment, each key in [errorCache] has a pending timer that deletes it
    and is due no later than a minute from now. *)
Theorem X20_cached_keys_expire (inputs : list ErrorReporter.Input) (k : string) :
  k ∈ ErrorReporter.errorCache (ErrorReporter.run_events inputs) →
  ∃ t : ErrorReporter.Timer,
    t ∈ ErrorReporter.timers (ErrorReporter.run_events inputs)
    ∧ ErrorReporter.action t = ErrorReporter.DeleteKey k
    ∧ (ErrorReporter.due t
       ≤ ErrorReporter.now (ErrorReporter.run_events inputs) + 60000)%Z.
Proof.
  revert k. change (Reports.Expiring (ErrorReporter.run_events inputs)).
  unfold ErrorReporter.run_events.
  assert (H : Reports.Expiring ErrorReporter.initial).
  { intros k Hk. cbn in Hk. by apply elem_of_empty in Hk. }
  revert H. generalize ErrorReporter.initial.
  induction inputs as [|i inputs IH]; intros st H; [exact H|].
  cbn [fold_left]. by apply IH, step_expiring.
Qed.

Lemma X20_cached_keys_expire_witness :
  ∃ t : ErrorReporter.Timer,
    t ∈ ErrorReporter.timers
          (ErrorReporter.run_events [ErrorReporter.ErrorEvent "boom" "app.js" 3 1])
    ∧ ErrorReporter.action t = ErrorReporter.DeleteKey "boom:app.js:3"
    ∧ (ErrorReporter.due t
       ≤ ErrorReporter.now
           (ErrorReporter.run_events [ErrorReporter.ErrorEvent "boom" "app.js" 3 1])
         + 60000)%Z.
Proof.
  apply (X20_cached_keys_expire [ErrorReporter.ErrorEvent "boom" "app.js" 3 1]
           "boom:app.js:3").
  apply (bool_decide_eq_true_1
           ("boom:app.js:3"
            ∈ ErrorReporter.errorCache
                (ErrorReporter.run_events [ErrorReporter.ErrorEvent "boom" "app.js" 3 1]))).
  vm_compute. reflexivity.
Defined.

(** ** The passkey flows on any page, server and authenticator *)

(** Running a flow on an unknown page: each answer and each test is
    split into its cases. *)
Ltac run_flow w :=
  repeat (unfold Passkey.try_bind, Passkey.throw, Passkey.ok_, Passkey.pure,
            Passkey.lift, Passkey.call;
          cbn -[PasskeyLog.times Passkey.text_of Passkey.json_or
                Passkey.keyLogin_errorMessage Http.or_string Passkey.keyLogin_try
                Passkey.registerPasskey_try String.eqb];
          match goal with
          | |- context [w ?X ?e ?s] => destruct (w X e s) as [? ?]
          | |- context [match ?x with _ => _ end] =>
              lazymatch x with
              | context [@Passkey.exec] => fail
              | _ => destruct x
              end
          end);
  unfold Passkey.try_bind, Passkey.throw, Passkey.ok_, Passkey.pure,
    Passkey.lift, Passkey.call;
  cbn -[PasskeyLog.times Passkey.text_of Passkey.json_or
        Passkey.keyLogin_errorMessage Http.or_string Passkey.keyLogin_try
        Passkey.registerPasskey_try String.eqb].

Section PasskeyFacts.
Import Passkey PasskeyLog.
Local Open Scope list_scope.
Context {S : Type} (w : World S).

Lemma exec_pbind {A B : Type} (m : prog A) (k : A → prog B) (s : S) :
  exec w (pbind m k) s
  = (let '(a, s1, l1) := exec w m s in
     let '(b, s2, l2) := exec w (k a) s1 in
     (b, s2, l1 ++ l2)).
Proof.
  revert s. induction m as [a|X e h IH]; intros s; cbn [pbind exec].
  - by destruct (exec w (k a) s) as [[b s2] l2].
  - destruct (w X e s) as [x s']. rewrite IH.
    destruct (exec w (h x) s') as [[a s1] l1].
    by destruct (exec w (k a) s1) as [[b s2] l2].
Qed.

Lemma times_app (kind : Made → bool) (l1 l2 : list Made) :
  times kind (l1 ++ l2) = (times kind l1 + times kind l2)%nat.
Proof. unfold times. by rewrite List.filter_app, length_app. Qed.

(** The registration flow, after the capability check, shows exactly one
    message when it ends without an error and none when it throws. *)
Lemma registerPasskey_try_outcome (s : S) :
  let '(outcome, _, log) := exec w registerPasskey_try s in
  times is_message log = (if outcome is inl _ then 1 else 0)%nat.
Proof.
  unfold registerPasskey_try. run_flow w. all: done.
Qed.
End PasskeyFacts.

(** X21: a click on the passkey button of a browser with WebAuthn always
    ends by enabling the button again and putting back the label it had,
    whatever the server and the authenticator answer and whatever is
    thrown on the way. *)
Theorem X21_keyLogin_restores_button (S : Type) (w : Passkey.World S) (s : S) :
  (w bool Passkey.HasPublicKeyCredential s).1 = true →
  ∃ log : list Passkey.Made,
    (Passkey.exec w Passkey.keyLogin_onclick s).2
    = (log ++ [ Passkey.made (Passkey.ButtonSetDisabled false);
                Passkey.made (Passkey.ButtonSetHTML
                  (w string Passkey.ButtonGetHTML
                     (w bool Passkey.HasPublicKeyCredential s).2).1) ])%list.
Proof.
  intros Hsupported. unfold Passkey.keyLogin_onclick.
  cbn [Passkey.pbind Passkey.call Passkey.exec].
  destruct (w bool Passkey.HasPublicKeyCredential s) as [supported s1].
  cbn [fst snd] in *. subst supported.
  run_flow w. rewrite exec_pbind.
  destruct (Passkey.exec w Passkey.keyLogin_try _) as [[outcome s5] l].
  destruct outcome as [[]|err]; run_flow w.
  - by eexists (_ :: _ :: _ :: _ :: l)%list.
  - eexists (_ :: _ :: _ :: _ :: l ++ [_])%list.
    cbn [app]. by rewrite <- app_assoc.
Qed.

Lemma X21_keyLogin_restores_button_witness :
  ∃ log : list Passkey.Made,
    (Passkey.exec PasskeyLog.rejecting_server Passkey.keyLogin_onclick tt).2
    = (log ++ [ Passkey.made (Passkey.ButtonSetDisabled false);
                Passkey.made (Passkey.ButtonSetHTML "Войти с ключом") ])%list.
Proof.
  apply (X21_keyLogin_restores_button unit PasskeyLog.rejecting_server tt). reflexivity.
Defined.

Example keyLogin_rejected :
  (Passkey.exec PasskeyLog.rejecting_server Passkey.keyLogin_onclick tt).2
  = [ Passkey.made Passkey.HasPublicKeyCredential;
      Passkey.made Passkey.ButtonGetHTML;
      Passkey.made (Passkey.ButtonSetDisabled true);
      Passkey.made (Passkey.ButtonSetHTML "🔐 Проверка...");
      Passkey.made (Passkey.ApiCall "/auth/passkey/login/options"
                      (Passkey.post_json (Some (Http.JObj []))));
      Passkey.made (Passkey.ButtonSetHTML "🔑 Используйте ключ доступа...");
      Passkey.made (Passkey.CredentialsGet
        {| Passkey.rq_challenge := [xfb; xff; xfe; x3e];
           Passkey.rq_rpId := Some (Http.JStr "cyblight.org");
           Passkey.rq_allowCredentials := [];
           Passkey.rq_timeout := Http.JNum 60000;
           Passkey.rq_userVerification := Http.JStr "preferred" |});
      Passkey.made (Passkey.ButtonSetHTML "✅ Вход...");
      Passkey.made (Passkey.ApiCall "/auth/passkey/login"
        (Passkey.post_json (Some (Http.JObj
           [ ("challengeId", Http.JStr "c-1");
             ("credential", Passkey.assertion_data Samples.sample_assertion) ]))));
      Passkey.made (Passkey.Alert "❌ Invalid signature");
      Passkey.made (Passkey.ButtonSetDisabled false);
      Passkey.made (Passkey.ButtonSetHTML "Войти с ключом") ].
Proof. vm_compute. reflexivity. Qed.


(** ** The login flow with its requests made by [apiCall] *)
Section PasskeyHttpFacts.
Import Passkey PasskeyHttp.
Local Open Scope list_scope.
Context {S : Type} (page : World S) (net : S → Http.Browser).

Lemma exec_http_pbind {A B : Type} (m : prog A) (k : A → prog B) (s : S) :
  exec_http page net (pbind m k) s
  = (let '(a, s1, l1) := exec_http page net m s in
     let '(b, s2, l2) := exec_http page net (k a) s1 in
     (b, s2, l1 ++ l2)).
Proof.
  revert s. induction m as [a|X e h IH]; intros s; cbn [pbind exec_http].
  - by destruct (exec_http page net (k a) s) as [[b s2] l2].
  - destruct (answer page net e s) as [[x s'] during]. rewrite IH.
    destruct (exec_http page net (h x) s') as [[a s1] l1].
    destruct (exec_http page net (k a) s1) as [[b s2] l2].
    by rewrite <- app_assoc.
Qed.

Lemma happened_app (kind : Happened → bool) (l1 l2 : list Happened) :
  times kind (l1 ++ l2) = (times kind l1 + times kind l2)%nat.
Proof. unfold times. by rewrite List.filter_app, length_app. Qed.

Lemma happened_cons (kind : Happened → bool) (h : Happened) (l : list Happened) :
  times kind (h :: l) = ((if kind h then 1 else 0) + times kind l)%nat.
Proof. unfold times. cbn [List.filter]. by destruct (kind h). Qed.

Lemma happened_nil (kind : Happened → bool) : times kind [] = 0%nat.
Proof. reflexivity. Qed.

(** The two endpoints of the login flow are not among the excluded ones. *)
Lemma redirects_login (response : Http.Response) :
  Http.redirects response "/auth/passkey/login/options" = is_401 response
  ∧ Http.redirects response "/auth/passkey/login" = is_401 response.
Proof.
  rewrite !redirects_excluded. unfold is_401.
  split; (destruct (Http.status response =? 401)%Z; [vm_compute; reflexivity | done]).
Qed.

(** What [apiCall] contributes to the counts: nothing but a navigation to
    [username] when it redirects. *)
Lemma apiCall_happened (w : Http.Browser) (endpoint : string)
    (options : option Http.Options) (timeoutMs : option Z) :
  let response := (Http.apiCall w endpoint options timeoutMs).1 in
  let during := map effect (Http.apiCall w endpoint options timeoutMs).2 in
  times alerted during = 0%nat
  ∧ (∀ e test, times (answered e test) during = 0%nat)
  ∧ times (navigated "account-profile") during = 0%nat
  ∧ times (navigated "username") during
    = (if Http.redirects response endpoint then 1 else 0)%nat
  ∧ times navigated_anywhere during
    = (if Http.redirects response endpoint then 1 else 0)%nat.
Proof.
  cbn zeta.
  assert (Hcase : Http.navigator w = Http.NavigatorOnLine false
                  ∨ Http.navigator w ≠ Http.NavigatorOnLine false)
    by (destruct (Http.navigator w) as [|[|]]; [right | right | left]; done).
  destruct Hcase as [Hoff|Hon].
  - rewrite apiCall_offline by exact Hoff. by repeat split.
  - rewrite apiCall_online by exact Hon.
    destruct (Http.fetch w _ _) as [response|error|]; cbn [fst snd];
      [destruct (Http.redirects response endpoint) eqn:E|..];
      by repeat split.
Qed.

(** A response with [ok] true does not have the status 401. *)
Lemma coherent_ok (w : Http.Browser) (endpoint : string)
    (options : option Http.Options) (timeoutMs : option Z) :
  (∀ url init response,
     Http.fetch w url init = Http.Resolved response →
     Http.ok response
     = ((200 <=? Http.status response) && (Http.status response <=? 299))%Z) →
  Http.ok (Http.apiCall w endpoint options timeoutMs).1 = true →
  is_401 (Http.apiCall w endpoint options timeoutMs).1 = false.
Proof.
  intros Hcoh Hok. destruct (apiCall_ok_trace w endpoint options timeoutMs Hok) as [_ Hf].
  rewrite (Hcoh _ _ _ Hf) in Hok. unfold is_401.
  apply andb_prop in Hok as [H1%Z.leb_le H2%Z.leb_le]. apply Z.eqb_neq. lia.
Qed.

(** Running a flow whose requests go through [apiCall]: each answer and
    each test is split into its cases, and of each request is kept what
    [apiCall] does for it. *)
Ltac run_http :=
  repeat (unfold try_bind, throw, ok_, pure, lift, call;
          cbn -[times text_of json_or keyLogin_errorMessage Http.or_string
                keyLogin_try String.eqb Http.apiCall];
          match goal with
          | |- context [Http.apiCall ?b ?e ?o ?t] =>
              let H := fresh "Hcall" in
              let Hc := fresh "Hok" in
              pose proof (apiCall_happened b e o t) as H;
              pose proof (coherent_ok b e o t) as Hc;
              cbn zeta in H;
              rewrite ?(proj1 (redirects_login _)), ?(proj2 (redirects_login _)) in H;
              destruct (Http.apiCall b e o t) as [? ?];
              cbn [fst snd] in H, Hc
          | |- context [page ?X ?e ?s] => destruct (page X e s) as [? ?]
          | |- context [match ?x with _ => _ end] =>
              lazymatch x with
              | context [@exec_http] => fail
              | _ => destruct x eqn:?
              end
          end);
  unfold try_bind, throw, ok_, pure, lift, call;
  cbn -[times text_of json_or keyLogin_errorMessage Http.or_string
        keyLogin_try String.eqb Http.apiCall].

(** What is left at the end of a run: the counts are split along the log,
    what [apiCall] did is counted by [apiCall_happened], and the cases of
    each response are gone through. *)
Ltac count_http :=
  repeat match goal with
         | |- _ ∧ _ => split
         | |- coherent _ → _ => intros ?
         end;
  unfold unauthorized, login_rejected, login_unauthorized;
  repeat (rewrite happened_app || rewrite happened_cons || rewrite happened_nil);
  repeat match goal with
         | H : times alerted (map effect ?l) = _ ∧ _ |- _ =>
             let H1 := fresh in let H2 := fresh in let H3 := fresh in
             let H4 := fresh in let H5 := fresh in
             destruct H as (H1 & H2 & H3 & H4 & H5);
             rewrite ?H1, ?H2, ?H3, ?H4, ?H5; clear H1 H2 H3 H4 H5
         end;
  cbn [alerted navigated navigated_anywhere answered
       String.eqb Ascii.eqb Bool.eqb andb];
  unfold not_ok;
  repeat match goal with
         | H : negb _ = true |- _ => apply negb_true_iff in H
         | H : negb _ = false |- _ => apply negb_false_iff in H
         end;
  repeat match goal with
         | Hc : coherent _, H : (∀ url init response, _) → Http.ok ?r = true → _ |- _ =>
             specialize (H (Hc _))
         end;
  repeat match goal with
         | H : (∀ url init response, _) → Http.ok ?r = true → _ |- _ => clear H
         end;
  repeat match goal with
         | H : Http.ok ?r = true → is_401 ?r = false, H' : Http.ok ?r = true |- _ =>
             rewrite (H H') in *; clear H
         | H : Http.ok ?r = true → is_401 ?r = false, H' : Http.ok ?r = false |- _ =>
             clear H
         end;
  repeat match goal with
         | H : Http.ok ?r = _ |- _ => rewrite ?H in *; clear H
         end;
  cbn [negb andb];
  repeat match goal with
         | |- context [is_401 ?r] => destruct (is_401 r)
         end;
  cbn [negb andb]; try lia; try done.

(** The [try] block of the login flow: it never alerts; it navigates to
    [account-profile] exactly when it ends without an error; [apiCall]
    navigates to [username] once for each answer with the status 401. *)
Lemma keyLogin_try_summary (s : S) :
  let '(outcome, _, log) := exec_http page net keyLogin_try s in
  times alerted log = 0%nat
  ∧ times (navigated "account-profile") log = (if outcome is inl _ then 1 else 0)%nat
  ∧ times (navigated "username") log = times unauthorized log
  ∧ times navigated_anywhere log
    = (times (navigated "account-profile") log + times (navigated "username") log)%nat
  ∧ (coherent net →
     (times unauthorized log ≤ 1)%nat
     ∧ (times unauthorized log = 1%nat →
        times (navigated "account-profile") log = 0%nat))
  ∧ ((1 ≤ times login_rejected log)%nat →
     times (navigated "account-profile") log = 0%nat)
  ∧ (coherent net → (1 ≤ times login_rejected log)%nat →
     times (navigated "username") log = times login_unauthorized log).
Proof.
  unfold keyLogin_try, throw_error_of. run_http.
  all: count_http.
Qed.

(** The click: what the [try] block does, then an alert if it ended with
    an error, between the calls that disable and restore the button. *)
Lemma keyLogin_summary (s : S) :
  let log := (exec_http page net keyLogin_onclick s).2 in
  (times alerted log + times (navigated "account-profile") log = 1)%nat
  ∧ times (navigated "username") log = times unauthorized log
  ∧ times navigated_anywhere log
    = (times (navigated "account-profile") log + times (navigated "username") log)%nat
  ∧ (coherent net →
     (times unauthorized log ≤ 1)%nat
     ∧ (times unauthorized log = 1%nat → times alerted log = 1%nat))
  ∧ (coherent net → (1 ≤ times login_rejected log)%nat →
     times (navigated "account-profile") log = 0%nat
     ∧ times alerted log = 1%nat
     ∧ times (navigated "username") log = times login_unauthorized log).
Proof.
  cbn zeta. unfold keyLogin_onclick.
  cbn [pbind call exec_http answer].
  destruct (page bool HasPublicKeyCredential s) as [supported s1].
  destruct supported; run_http.
  2:{ unfold unauthorized, login_rejected, login_unauthorized.
      repeat split; try (intros; cbn in *; lia); done. }
  rewrite exec_http_pbind.
  pose proof (keyLogin_try_summary s4) as Htry.
  destruct (exec_http page net keyLogin_try s4) as [[outcome s5] l].
  destruct Htry as (Ha & Hp & Hu & Hany & Hq & Hr & Hru).
  destruct outcome as [[]|err]; run_http;
    change (?a :: ?b :: ?c :: ?d :: l ++ ?r)
      with ([a; b; c; d] ++ l ++ r);
    rewrite !happened_app, Ha, Hp, Hany, Hu;
    unfold unauthorized, login_rejected, login_unauthorized in *;
    cbn [times List.filter alerted navigated navigated_anywhere answered length
         String.eqb Ascii.eqb Bool.eqb andb Nat.add].
  all: repeat split; intros.
  all: repeat match goal with
              | H : coherent net → _, Hc : coherent net |- _ => specialize (H Hc)
              end.
  all: lia.
Qed.
End PasskeyHttpFacts.

(** X22: a click on the passkey button ends in exactly one of two things
    done by the handler: one alert, or one navigation to
    [account-profile]; never both, never neither. Besides, [apiCall]
    itself navigates to [username] once for each request of the click
    that is answered with the status 401, and nobody else navigates: so a
    click whose request is answered 401 both navigates (to [username]) and
    alerts. With [ok] standing for a status from 200 to 299, at most one
    request of a click is answered 401. *)
Theorem X22_keyLogin_outcomes (S : Type) (page : Passkey.World S)
    (net : S → Http.Browser) (s : S) :
  (PasskeyHttp.times PasskeyHttp.alerted
     (PasskeyHttp.exec_http page net Passkey.keyLogin_onclick s).2
   + PasskeyHttp.times (PasskeyHttp.navigated "account-profile")
       (PasskeyHttp.exec_http page net Passkey.keyLogin_onclick s).2 = 1)%nat
  ∧ PasskeyHttp.times (PasskeyHttp.navigated "username")
      (PasskeyHttp.exec_http page net Passkey.keyLogin_onclick s).2
    = PasskeyHttp.times PasskeyHttp.unauthorized
        (PasskeyHttp.exec_http page net Passkey.keyLogin_onclick s).2
  ∧ PasskeyHttp.times PasskeyHttp.navigated_anywhere
      (PasskeyHttp.exec_http page net Passkey.keyLogin_onclick s).2
    = (PasskeyHttp.times (PasskeyHttp.navigated "account-profile")
         (PasskeyHttp.exec_http page net Passkey.keyLogin_onclick s).2
       + PasskeyHttp.times (PasskeyHttp.navigated "username")
           (PasskeyHttp.exec_http page net Passkey.keyLogin_onclick s).2)%nat
  ∧ (PasskeyHttp.coherent net →
     (PasskeyHttp.times PasskeyHttp.unauthorized
        (PasskeyHttp.exec_http page net Passkey.keyLogin_onclick s).2 ≤ 1)%nat
     ∧ (PasskeyHttp.times PasskeyHttp.unauthorized
          (PasskeyHttp.exec_http page net Passkey.keyLogin_onclick s).2 = 1%nat →
        PasskeyHttp.times PasskeyHttp.alerted
          (PasskeyHttp.exec_http page net Passkey.keyLogin_onclick s).2 = 1%nat)).
Proof.
  destruct (keyLogin_summary page net s) as (H1 & H2 & H3 & H4 & _).
  split; [exact H1|]. split; [exact H2|]. split; [exact H3 | exact H4].
Qed.

Lemma server_401_coherent : PasskeyHttp.coherent PasskeyHttp.server_401.
Proof.
  intros [] url init response. cbn [PasskeyHttp.server_401 Http.fetch].
  destruct (String.eqb url _); intros [= <-]; reflexivity.
Qed.

Lemma X22_keyLogin_outcomes_witness :
  PasskeyHttp.times (PasskeyHttp.navigated "username")
    (PasskeyHttp.exec_http Samples.page_with_passkeys PasskeyHttp.server_401
       Passkey.keyLogin_onclick tt).2 = 1%nat
  ∧ PasskeyHttp.times PasskeyHttp.alerted
      (PasskeyHttp.exec_http Samples.page_with_passkeys PasskeyHttp.server_401
         Passkey.keyLogin_onclick tt).2 = 1%nat.
Proof.
  destruct (X22_keyLogin_outcomes unit Samples.page_with_passkeys PasskeyHttp.server_401 tt)
    as (_ & Hu & _ & Hq).
  assert (Hone : PasskeyHttp.times PasskeyHttp.unauthorized
                   (PasskeyHttp.exec_http Samples.page_with_passkeys PasskeyHttp.server_401
                      Passkey.keyLogin_onclick tt).2 = 1%nat)
    by (vm_compute; reflexivity).
  split.
  - rewrite Hu. exact Hone.
  - exact (proj2 (Hq server_401_coherent) Hone).
Defined.

(** X23: when the answer to the assertion is not [ok], the handler does
    not navigate to [account-profile] and alerts once; and the click
    navigates to [username], by [apiCall], exactly when that answer has
    the status 401 (with [ok] standing for a status from 200 to 299). *)
Theorem X23_keyLogin_rejected (S : Type) (page : Passkey.World S)
    (net : S → Http.Browser) (s : S) :
  PasskeyHttp.coherent net →
  (1 ≤ PasskeyHttp.times PasskeyHttp.login_rejected
         (PasskeyHttp.exec_http page net Passkey.keyLogin_onclick s).2)%nat →
  PasskeyHttp.times (PasskeyHttp.navigated "account-profile")
    (PasskeyHttp.exec_http page net Passkey.keyLogin_onclick s).2 = 0%nat
  ∧ PasskeyHttp.times PasskeyHttp.alerted
      (PasskeyHttp.exec_http page net Passkey.keyLogin_onclick s).2 = 1%nat
  ∧ PasskeyHttp.times (PasskeyHttp.navigated "username")
      (PasskeyHttp.exec_http page net Passkey.keyLogin_onclick s).2
    = PasskeyHttp.times PasskeyHttp.login_unauthorized
        (PasskeyHttp.exec_http page net Passkey.keyLogin_onclick s).2.
Proof.
  intros Hcoh Hrej.
  destruct (keyLogin_summary page net s) as (_ & _ & _ & _ & H5).
  exact (H5 Hcoh Hrej).
Qed.

Lemma X23_keyLogin_rejected_witness :
  PasskeyHttp.times (PasskeyHttp.navigated "account-profile")
    (PasskeyHttp.exec_http Samples.page_with_passkeys PasskeyHttp.server_401
       Passkey.keyLogin_onclick tt).2 = 0%nat
  ∧ PasskeyHttp.times PasskeyHttp.alerted
      (PasskeyHttp.exec_http Samples.page_with_passkeys PasskeyHttp.server_401
         Passkey.keyLogin_onclick tt).2 = 1%nat
  ∧ PasskeyHttp.times (PasskeyHttp.navigated "username")
      (PasskeyHttp.exec_http Samples.page_with_passkeys PasskeyHttp.server_401
         Passkey.keyLogin_onclick tt).2
    = PasskeyHttp.times PasskeyHttp.login_unauthorized
        (PasskeyHttp.exec_http Samples.page_with_passkeys PasskeyHttp.server_401
           Passkey.keyLogin_onclick tt).2.
Proof.
  apply (X23_keyLogin_rejected unit Samples.page_with_passkeys PasskeyHttp.server_401 tt).
  - exact server_401_coherent.
  - apply Nat.leb_le. vm_compute. reflexivity.
Defined.

(** The assertion answered with a 401: [apiCall] sends the router to
    [username] and the handler alerts. *)
Example keyLogin_unauthorized :
  List.filter (λ h, PasskeyHttp.navigated_anywhere h || PasskeyHttp.alerted h)
    (PasskeyHttp.exec_http Samples.page_with_passkeys PasskeyHttp.server_401
       Passkey.keyLogin_onclick tt).2
  = [ PasskeyHttp.effect (Http.Navigate "username");
      PasskeyHttp.did (Passkey.Alert "❌ Invalid signature") tt ].
Proof. vm_compute. reflexivity. Qed.

(** X24: every run of [registerPasskey] shows exactly one message,
    whatever the page, the server and the authenticator do: the flow is
    never silent and never reports twice. *)
Theorem X24_registerPasskey_one_message (S : Type) (w : Passkey.World S) (s : S) :
  PasskeyLog.times PasskeyLog.is_message
    (Passkey.exec w Passkey.registerPasskey s).2 = 1%nat.
Proof.
  unfold Passkey.registerPasskey.
  cbn [Passkey.pbind Passkey.call Passkey.exec Passkey.try_bind Passkey.lift].
  destruct (w bool Passkey.HasPublicKeyCredential s) as [supported s1].
  destruct supported; run_flow w; [|done].
  rewrite exec_pbind. pose proof (registerPasskey_try_outcome w s1) as Htry.
  destruct (Passkey.exec w Passkey.registerPasskey_try s1) as [[outcome s2] l].
  destruct outcome as [[]|err]; run_flow w;
    change (?a :: l ++ ?r)%list with ([a] ++ l ++ r)%list;
    rewrite !times_app, Htry; reflexivity.
Qed.

(** ** More on base64url *)
Section Base64More.
Import Base64 Base64Text.
Local Open Scope list_scope.

Lemma url_char_table :
  forallb (λ n, Navigation.plain_char (to_url (sextet_char n)))
    (map N.of_nat (seq 0 64)) = true.
Proof. vm_compute. reflexivity. Qed.

Lemma url_char_plain (n : N) :
  (n < 64)%N → Navigation.plain_char (to_url (sextet_char n)) = true.
Proof.
  intros Hn. pose proof url_char_table as H.
  rewrite forallb_forall in H. apply H.
  apply in_map_iff. exists (N.to_nat n). split; [apply N2Nat.id|].
  apply in_seq. lia.
Qed.

Lemma enc_sextets_count (s : list ascii) :
  length (enc_sextets s) = ((4 * length s + 2) / 3)%nat.
Proof.
  induction s as [|a|a b|a b c r IH] using list_ind3;
    [reflexivity | reflexivity | reflexivity |].
  cbn [enc_sextets length]. rewrite IH.
  replace (4 * S (S (S (length r))) + 2)%nat with ((4 * length r + 2) + 4 * 3)%nat by lia.
  rewrite Nat.div_add by lia. lia.
Qed.

Lemma from_url_unknown (c : ascii) :
  char_sextet (from_url c) = None → from_url c = c.
Proof.
  unfold from_url.
  destruct (Ascii.eqb_spec c "-") as [->|_]; [by vm_compute|].
  destruct (Ascii.eqb_spec c "_") as [->|_]; [by vm_compute|]. done.
Qed.

Lemma sextets_of_unknown (l : list ascii) (c : ascii) :
  c ∈ l → char_sextet c = None → sextets_of l = None.
Proof.
  intros Hc Hnone. induction Hc as [c l|c d l Hc IH]; cbn [sextets_of].
  - by rewrite Hnone.
  - rewrite (IH Hnone). by destruct (char_sextet d).
Qed.

Lemma remove_padding_keeps (data : list ascii) (c : ascii) :
  c ∈ data → c ≠ "="%char → c ∈ remove_padding data.
Proof.
  intros Hc Hne. unfold remove_padding.
  destruct (rev data) as [|c1 r1] eqn:E; [done|].
  destruct (Ascii.eqb_spec c1 "=") as [->|_]; [|done].
  assert (H1 : c ∈ r1).
  { apply elem_of_reverse in Hc. unfold reverse in Hc.
    rewrite <- rev_alt in Hc. rewrite E in Hc.
    apply elem_of_cons in Hc as [Hc|Hc]; [done | exact Hc]. }
  assert (Hrev : ∀ l : list ascii, c ∈ l → c ∈ rev l).
  { intros l Hl. apply elem_of_reverse in Hl. unfold reverse in Hl.
    by rewrite <- rev_alt in Hl. }
  destruct r1 as [|c2 r2]; [by apply Hrev|].
  destruct (Ascii.eqb_spec c2 "=") as [->|_]; [|by apply Hrev].
  apply Hrev. apply elem_of_cons in H1 as [H1|H1]; [done | exact H1].
Qed.
End Base64More.

(** X25: the text the encoder writes for a binary field is made of
    letters, digits, [-] and [_] only (no [+], [/] or [=]), and has
    four characters for every three bytes, rounded up: a buffer of [n]
    bytes gives [(4n + 2) / 3] characters. *)
Theorem X25_encoded_text_is_url_safe (buf : list byte) :
  Forall (λ c, Navigation.plain_char c = true) (Base64.base64url_encode buf)
  ∧ length (Base64.base64url_encode buf) = ((4 * length buf + 2) / 3)%nat.
Proof.
  rewrite encode_text. unfold Base64Text.url_text. split.
  - apply List.Forall_map.
    eapply Forall_impl; [apply enc_sextets_bound|].
    intros n Hn. cbn beta. by apply url_char_plain.
  - rewrite length_map, enc_sextets_count. unfold Base64.fromCharCode.
    by rewrite length_map.
Qed.

(** X26: the decoder refuses a text that contains a character outside
    the two alphabets that is neither whitespace nor [=]: [atob] throws,
    whatever the rest of the text is. *)
Theorem X26_decode_refuses_foreign_characters (s : list ascii) (c : ascii) :
  c ∈ s →
  Base64.char_sextet (Base64Text.from_url c) = None →
  Base64.is_ascii_whitespace c = false →
  c ≠ "="%char →
  Base64.base64url_decode s = None.
Proof.
  intros Hc Hnone Hws Hne.
  pose proof (from_url_unknown c Hnone) as Hsame. rewrite Hsame in Hnone.
  unfold Base64.base64url_decode. rewrite replace_all_from_url.
  assert (Hin : c ∈ map Base64Text.from_url s).
  { rewrite <- Hsame. by apply (list_elem_of_fmap_2 Base64Text.from_url). }
  unfold Base64.atob.
  assert (Hf : c ∈ filter (λ c, Base64.is_ascii_whitespace c = false)
                 (map Base64Text.from_url s)).
  { apply list_elem_of_filter. by split. }
  set (data := filter _ _) in *.
  assert (Hdata : c ∈ (if (length data mod 4 =? 0)%nat
                       then Base64.remove_padding data else data)).
  { destruct (_ =? _)%nat; [by apply remove_padding_keeps | exact Hf]. }
  destruct (_ =? 1)%nat; [done|].
  by rewrite (sextets_of_unknown _ c Hdata Hnone).
Qed.

Lemma X26_decode_refuses_foreign_characters_witness :
  Base64.base64url_decode (list_ascii_of_string "SGVs.bG8") = None.
Proof.
  apply (X26_decode_refuses_foreign_characters (list_ascii_of_string "SGVs.bG8") ".").
  - cbn. do 4 apply list_elem_of_further. apply list_elem_of_here.
  - reflexivity.
  - reflexivity.
  - discriminate.
Defined.

(** ** [clearAuthCookie] *)
Section CookieFacts.
Import Cookies.
Local Open Scope list_scope.

Lemma split_nonempty (sep : ascii) (s : string) :
  ∃ h t, split sep s = h :: t.
Proof.
  destruct s as [|c r]; cbn [split]; [by eexists _, _|].
  destruct (c =? sep)%char; [by eexists _, _|].
  destruct (split sep r); by eexists _, _.
Qed.

Lemma split_app (sep : ascii) (s t : string) :
  split sep (s +:+ String sep t) = split sep s ++ split sep t.
Proof.
  induction s as [|c r IH].
  - rewrite append_nil_l. cbn [split]. by rewrite Ascii.eqb_refl.
  - rewrite append_cons. cbn [split]. rewrite IH.
    destruct (c =? sep)%char; [done|].
    by destruct (split_nonempty sep r) as (h & tl & ->).
Qed.

Lemma split_dotless (s : string) : dotless s = true → split "." s = [s].
Proof.
  induction s as [|c r IH]; [done|]. cbn [dotless split].
  intros H. apply andb_prop in H as [Hc Hr].
  apply negb_true_iff in Hc. by rewrite Hc, (IH Hr).
Qed.

Lemma domain_of_labels (before : list string) (a b : string) :
  (if (2 <=? length (before ++ [a; b]))%nat
   then "." +:+ join "." (last_two (before ++ [a; b]))
   else "")
  = "." +:+ a +:+ "." +:+ b.
Proof.
  rewrite length_app. cbn [length].
  replace (2 <=? length before + 2)%nat with true by (symmetry; apply Nat.leb_le; lia).
  unfold last_two. rewrite length_app. cbn [length].
  replace (length before + 2 - 2)%nat with (length before) by lia.
  by rewrite drop_app_length.
Qed.
End CookieFacts.

(** X27: the parent domain [clearAuthCookie] clears the cookie for is a
    dot followed by the last two labels of the host name, however many
    labels come before them; a host name without a dot, such as
    [localhost], is its own domain, so that the second and the third
    cookie text are then the same. *)
Theorem X27_cookie_domain (sub a b : string) :
  Cookies.dotless a = true → Cookies.dotless b = true →
  Cookies.domain (a +:+ "." +:+ b) = "." +:+ a +:+ "." +:+ b
  ∧ Cookies.domain (sub +:+ "." +:+ a +:+ "." +:+ b) = "." +:+ a +:+ "." +:+ b
  ∧ Cookies.domain a = a
  ∧ nth 1 (Cookies.clearAuthCookie a) "" = nth 2 (Cookies.clearAuthCookie a) "".
Proof.
  intros Ha Hb.
  assert (Hone : Cookies.domain a = a).
  { unfold Cookies.domain. by rewrite (split_dotless a Ha). }
  split; [|split; [|split; [exact Hone|]]].
  - unfold Cookies.domain.
    change ("." +:+ b) with (String "." b).
    rewrite !split_app, (split_dotless a Ha), (split_dotless b Hb). reflexivity.
  - unfold Cookies.domain.
    change ("." +:+ b) with (String "." b).
    change ("." +:+ a +:+ String "." b) with (String "." (a +:+ String "." b)) at 1 2.
    rewrite !split_app, (split_dotless a Ha), (split_dotless b Hb).
    cbn [app].
    pose proof (domain_of_labels (Cookies.split "." sub) a b) as H.
    destruct (2 <=? _)%nat eqn:E; [exact H|].
    exfalso. apply Nat.leb_gt in E. rewrite length_app in E. cbn [length] in E. lia.
  - unfold Cookies.clearAuthCookie. cbn [nth]. by rewrite Hone.
Qed.

Lemma X27_cookie_domain_witness :
  Cookies.domain "login.cyblight.org" = ".cyblight.org"
  ∧ Cookies.domain "localhost" = "localhost".
Proof.
  split.
  - apply (proj1 (proj2 (X27_cookie_domain "login" "cyblight" "org" eq_refl eq_refl))).
  - apply (proj1 (proj2 (proj2 (X27_cookie_domain "" "localhost" "" eq_refl eq_refl)))).
Defined.

(** ** [shortId] *)
Section ShortIdFacts.
Import Ids.
Local Open Scope list_scope.
Context {A : Type}.

Lemma slice_prefix (s : list A) (left : Z) :
  (0 ≤ left)%Z → slice s 0 (Some left) = take (Z.to_nat left) s.
Proof.
  intros Hl. unfold slice, relative_index.
  replace (0 <? 0)%Z with false by reflexivity.
  replace (left <? 0)%Z with false by (symmetry; apply Z.ltb_ge; lia).
  replace (Z.to_nat (Z.min 0 (Z.of_nat (length s)))) with 0%nat by lia.
  rewrite drop_0.
  destruct (Z.le_ge_cases left (Z.of_nat (length s))) as [H|H].
  - f_equal. lia.
  - rewrite !take_ge by lia. done.
Qed.

Lemma slice_suffix (s : list A) (right : Z) :
  (0 < right)%Z → slice s (- right) None = drop (length s - Z.to_nat right) s.
Proof.
  intros Hr. unfold slice, relative_index.
  replace (- right <? 0)%Z with true by (symmetry; apply Z.ltb_lt; lia).
  replace (Z.to_nat (Z.max (Z.of_nat (length s) + - right) 0))
    with (length s - Z.to_nat right)%nat by lia.
  apply take_ge. rewrite length_drop. lia.
Qed.

Lemma slice_from (s : list A) (start : Z) :
  (0 ≤ start)%Z → slice s start None = drop (Z.to_nat start) s.
Proof.
  intros Hs. unfold slice, relative_index.
  replace (start <? 0)%Z with false by (symmetry; apply Z.ltb_ge; lia).
  destruct (Z.le_ge_cases start (Z.of_nat (length s))) as [H|H].
  - replace (Z.to_nat (Z.min start (Z.of_nat (length s)))) with (Z.to_nat start) by lia.
    apply take_ge. rewrite length_drop. lia.
  - replace (Z.to_nat (Z.min start (Z.of_nat (length s)))) with (length s) by lia.
    rewrite !drop_ge by lia. by rewrite take_nil.
Qed.
End ShortIdFacts.

(** X28: with [left >= 0], [shortId] returns a string of at most
    [left + right + 3] units unchanged, and for a longer one its first
    [left] units, the ellipsis, and then its last [right] units when
    [right > 0], but the string from its unit [-right] on when
    [right <= 0]. So with [right > 0] (the defaults included) the result
    is never longer than the string, and with [right = 0] the whole
    string comes again after the ellipsis. *)
Theorem X28_shortId (A : Type) (ellipsis : A) (s : list A) (left right : option Z) :
  (0 ≤ default 6%Z left)%Z →
  Ids.shortId ellipsis s left right
  = (if (Z.of_nat (length s) <=? default 6%Z left + default 6%Z right + 3)%Z then s
     else take (Z.to_nat (default 6%Z left)) s ++ [ellipsis]
          ++ (if (0 <? default 6%Z right)%Z
              then drop (length s - Z.to_nat (default 6%Z right)) s
              else drop (Z.to_nat (- default 6%Z right)) s))%list
  ∧ ((0 < default 6%Z right)%Z →
     (length (Ids.shortId ellipsis s left right) ≤ length s)%nat)
  ∧ (default 6%Z right = 0%Z → (default 6%Z left + 3 < Z.of_nat (length s))%Z →
     length (Ids.shortId ellipsis s left right)
     = (Z.to_nat (default 6%Z left) + 1 + length s)%nat).
Proof.
  intros Hl. unfold Ids.shortId.
  generalize dependent (default 6%Z left). generalize (default 6%Z right).
  clear left right. intros right left Hl.
  rewrite slice_prefix by assumption.
  assert (Hsuffix : Ids.slice s (- right) None
                    = if (0 <? right)%Z then drop (length s - Z.to_nat right) s
                      else drop (Z.to_nat (- right)) s).
  { destruct (Z.ltb_spec 0 right); [by apply slice_suffix | apply slice_from; lia]. }
  rewrite Hsuffix. split; [done|].
  destruct (Z.leb_spec (Z.of_nat (length s)) (left + right + 3)) as [Hshort|Hlong].
  - split; [done | lia].
  - split.
    + intros Hr. replace (0 <? right)%Z with true by (symmetry; apply Z.ltb_lt; lia).
      rewrite !length_app, length_take, length_drop. cbn [length]. lia.
    + intros -> _. cbn [Z.ltb Z.compare Z.opp Z.to_nat]. rewrite drop_0.
      rewrite !length_app, length_take. cbn [length]. lia.
Qed.

Lemma X28_shortId_witness :
  Ids.shortId "."%char (list_ascii_of_string "0123456789abcdefghij") None None
  = list_ascii_of_string "012345.efghij"
  ∧ Ids.shortId "."%char (list_ascii_of_string "0123456789") (Some 2%Z) (Some 0%Z)
    = list_ascii_of_string "01.0123456789".
Proof.
  split.
  - apply (proj1 (X28_shortId ascii "."%char (list_ascii_of_string "0123456789abcdefghij")
                    None None ltac:(cbn; lia))).
  - apply (proj1 (X28_shortId ascii "."%char (list_ascii_of_string "0123456789")
                    (Some 2%Z) (Some 0%Z) ltac:(cbn; lia))).
Defined.

(** ** Avatars *)
Section AvatarFacts.
Import Avatars.
Local Open Scope list_scope.

Lemma find_avatar_Some (avatarId : string) (l : list Avatar) (a : Avatar) :
  find_avatar avatarId l = Some a → a ∈ l ∧ id a = avatarId.
Proof.
  unfold find_avatar. intros [Hin Heq]%List.find_some.
  split; [by apply list_elem_of_In | by apply String.eqb_eq].
Qed.

Lemma find_avatar_None (avatarId : string) (l : list Avatar) (a : Avatar) :
  find_avatar avatarId l = None → a ∈ l → id a ≠ avatarId.
Proof.
  unfold find_avatar. intros Hnone Hin Heq.
  pose proof (List.find_none _ _ Hnone a (proj1 (list_elem_of_In _ _) Hin)) as H.
  cbn beta in H. rewrite Heq, String.eqb_refl in H. discriminate H.
Qed.

Lemma includes_role_elem_of (userRole : string) (rs : list string) :
  includes_role userRole rs = true ↔ userRole ∈ rs.
Proof.
  unfold includes_role. rewrite existsb_exists. split.
  - intros (x & Hin & Heq). apply String.eqb_eq in Heq. subst x.
    by apply list_elem_of_In.
  - intros Hin. exists userRole. split; [by apply list_elem_of_In|].
    apply String.eqb_refl.
Qed.
End AvatarFacts.

(** X30: [canUseAvatar] allows an avatar exactly when it is one of the
    standard avatars, or one of the exclusive avatars whose list of
    roles has the user's role; an id that is in neither table is
    refused for every role. *)
Theorem X30_canUseAvatar (avatarId userRole : string) :
  Avatars.canUseAvatar avatarId userRole = true ↔
  (∃ a, a ∈ Avatars.AVAILABLE_AVATARS ∧ Avatars.id a = avatarId)
  ∨ (∃ a rs, a ∈ Avatars.EXCLUSIVE_AVATARS ∧ Avatars.id a = avatarId
             ∧ Avatars.roles a = Some rs ∧ userRole ∈ rs).
Proof.
  unfold Avatars.canUseAvatar. split.
  - destruct (Avatars.find_avatar avatarId Avatars.AVAILABLE_AVATARS) as [a|] eqn:E1.
    + intros _. left. exists a. by apply find_avatar_Some.
    + destruct (Avatars.find_avatar avatarId Avatars.EXCLUSIVE_AVATARS) as [a|] eqn:E2;
        [|discriminate].
      intros H. right. apply find_avatar_Some in E2 as [Hin Hid].
      destruct (Avatars.roles a) as [rs|] eqn:Hroles; [|discriminate H].
      exists a, rs. cbn [default] in H. apply includes_role_elem_of in H. done.
  - intros [(a & Hin & Hid)|(a & rs & Hin & Hid & Hroles & Hrole)].
    + destruct (Avatars.find_avatar avatarId Avatars.AVAILABLE_AVATARS) as [a'|] eqn:E1;
        [done|].
      by destruct (find_avatar_None avatarId _ a E1 Hin).
    + destruct (Avatars.find_avatar avatarId Avatars.AVAILABLE_AVATARS) as [a'|] eqn:E1;
        [done|]. clear E1.
      subst avatarId. apply includes_role_elem_of in Hrole.
      unfold Avatars.EXCLUSIVE_AVATARS in Hin.
      rewrite !elem_of_cons, elem_of_nil in Hin.
      repeat (destruct Hin as [->|Hin];
              [cbn in Hroles; injection Hroles as <-; exact Hrole|]).
      done.
Qed.

Example avatars_example :
  Avatars.canUseAvatar "avatar-fox" "user" = true
  ∧ Avatars.canUseAvatar "avatar-crown" "moderator" = false
  ∧ map Avatars.id (Avatars.offered_exclusive "admin")
    = ["avatar-crown"; "avatar-verified"; "avatar-fire"]
  ∧ Avatars.getAvatarEmoji "avatar-none" = "👤".
Proof. vm_compute. done. Qed.

(** ** The status line *)
Section StatusFacts.
Import Status.
Local Open Scope list_scope.

Lemma push_if_cls (condition : bool) (b : Tag) (P : Tag → Prop) :
  P b → Forall P (push_if condition b).
Proof. intros H. destruct condition; cbn; by repeat constructor. Qed.

(** The badges built without the role badges. *)
Lemma buildBadges_plain (user : User) (includeRoleBadges : bool) :
  (includeRoleBadges = true → role_is "admin" user = false ∧ role_is "moderator" user = false) →
  Forall (λ b, cls b ≠ "badge--admin" ∧ cls b ≠ "badge--mod")
    (buildBadges user includeRoleBadges).
Proof.
  intros Hrole. unfold buildBadges.
  repeat (apply Forall_app; split); try (apply push_if_cls; split; discriminate).
  - constructor; [|constructor]. destruct (emailVerified user); split; discriminate.
  - destruct includeRoleBadges; [|constructor].
    destruct (Hrole eq_refl) as [-> ->]. constructor.
Qed.

(** The rank of the status computed from the days and the sessions. *)
Lemma rank_of_scale (d n : Z) :
  let status :=
    if ((d <? 7) || (n <? 3))%Z then badge "Новичок" "status--newbie"
    else if ((d <? 30) || (n <? 20))%Z then badge "Активный" "status--active"
    else if ((d <? 180) || (n <? 80))%Z then badge "Постоянный" "status--regular"
    else badge "Ветеран" "status--veteran" in
  (rank status = 0%nat ∧ cls status = "status--newbie" ∧ (d < 7 ∨ n < 3)%Z)
  ∨ (rank status = 1%nat ∧ cls status = "status--active"
     ∧ (7 ≤ d)%Z ∧ (3 ≤ n)%Z ∧ (d < 30 ∨ n < 20)%Z)
  ∨ (rank status = 2%nat ∧ cls status = "status--regular"
     ∧ (30 ≤ d)%Z ∧ (20 ≤ n)%Z ∧ (d < 180 ∨ n < 80)%Z)
  ∨ (rank status = 3%nat ∧ cls status = "status--veteran" ∧ (180 ≤ d)%Z ∧ (80 ≤ n)%Z).
Proof.
  cbn zeta.
  destruct ((d <? 7) || (n <? 3))%Z eqn:E1.
  { left. split; [reflexivity|]. split; [reflexivity|]. 
    apply orb_prop in E1 as [E%Z.ltb_lt|E%Z.ltb_lt]; lia. }
  apply orb_false_elim in E1 as [E1%Z.ltb_ge E1'%Z.ltb_ge]. right.
  destruct ((d <? 30) || (n <? 20))%Z eqn:E2.
  { left. split; [reflexivity|]. split; [reflexivity|].
    apply orb_prop in E2 as [E%Z.ltb_lt|E%Z.ltb_lt]; lia. }
  apply orb_false_elim in E2 as [E2%Z.ltb_ge E2'%Z.ltb_ge]. right.
  destruct ((d <? 180) || (n <? 80))%Z eqn:E3.
  { left. split; [reflexivity|]. split; [reflexivity|].
    apply orb_prop in E3 as [E%Z.ltb_lt|E%Z.ltb_lt]; lia. }
  apply orb_false_elim in E3 as [E3%Z.ltb_ge E3'%Z.ltb_ge]. right.
  split; [reflexivity|]. split; [reflexivity|]. lia.
Qed.
End StatusFacts.

(** X5: [getUserStatus] never shows the role badges [ADMIN] and
    [MODERATOR] that [buildBadges] can build: an admin or a moderator gets
    the badges without them, and for everyone else the role is neither;
    a blocked or banned user gets no badge at all, whatever the role, and
    every other user gets at least the badge that tells whether the
    e-mail address is verified. *)
Theorem X5_status_badges (now : Z) (user : Status.User) :
  Forall (λ b, Status.cls b ≠ "badge--admin" ∧ Status.cls b ≠ "badge--mod")
    (Status.badges (Status.getUserStatus now user))
  ∧ (Status.badges (Status.getUserStatus now user) = []
     ↔ Status.isBlocked user || Status.flags_include "banned" user = true).
Proof.
  unfold Status.getUserStatus.
  destruct (Status.isBlocked user || Status.flags_include "banned" user).
  - cbn [Status.badges]. split; [constructor | done].
  - assert (Hne : ∀ b, Status.buildBadges user b ≠ []).
    { intros b. unfold Status.buildBadges. discriminate. }
    destruct (Status.role_is "admin" user) eqn:Hadmin; cbn [orb Status.badges].
    { split; [by apply buildBadges_plain | split; [by intros H%Hne | discriminate]]. }
    destruct (Status.flags_include "admin" user); cbn [Status.badges].
    { split; [by apply buildBadges_plain | split; [by intros H%Hne | discriminate]]. }
    destruct (Status.role_is "moderator" user) eqn:Hmod; cbn [orb Status.badges].
    { split; [by apply buildBadges_plain | split; [by intros H%Hne | discriminate]]. }
    destruct (Status.flags_include "moderator" user); cbn [Status.badges].
    { split; [by apply buildBadges_plain | split; [by intros H%Hne | discriminate]]. }
    split; [by apply buildBadges_plain | split; [by intros H%Hne | discriminate]].
Qed.

(** X29: for a user who is neither blocked, banned, admin nor moderator,
    the status never goes down with more days and more sessions: of two
    such users, the one with at least as many days and sessions has at
    least as high a status in the scale newbie, active, regular, veteran;
    and the status is veteran exactly from 180 days and 80 sessions
    on. *)
Theorem X29_status_rank (now : Z) (u1 u2 : Status.User) :
  Status.special u1 = false → Status.special u2 = false →
  (Status.days now u1 ≤ Status.days now u2)%Z →
  (Status.sessions u1 ≤ Status.sessions u2)%Z →
  (Status.rank (Status.main (Status.getUserStatus now u1))
   ≤ Status.rank (Status.main (Status.getUserStatus now u2)))%nat
  ∧ (Status.cls (Status.main (Status.getUserStatus now u2)) = "status--veteran"
     ↔ (180 ≤ Status.days now u2)%Z ∧ (80 ≤ Status.sessions u2)%Z).
Proof.
  unfold Status.special, Status.getUserStatus. intros H1 H2 Hdays Hsessions.
  repeat (apply orb_false_elim in H1 as [H1 ?]).
  repeat (apply orb_false_elim in H2 as [H2 ?]).
  repeat match goal with H : _ = false |- _ => rewrite H; clear H end.
  cbn [orb Status.main].
  pose proof (rank_of_scale (Status.days now u1) (Status.sessions u1)) as R1.
  pose proof (rank_of_scale (Status.days now u2) (Status.sessions u2)) as R2.
  cbn zeta in R1, R2.
  destruct R1 as [(-> & _ & ?)|[(-> & _ & ?)|[(-> & _ & ?)|(-> & _ & ?)]]];
    destruct R2 as [(-> & -> & ?)|[(-> & -> & ?)|[(-> & -> & ?)|(-> & -> & ?)]]];
    (split; [lia | split; [try discriminate; intros _; lia | try lia; done]]).
Qed.

Lemma X29_status_rank_witness :
  (Status.rank (Status.main (Status.getUserStatus 17366400000 Status.newcomer))
   ≤ Status.rank (Status.main (Status.getUserStatus 17366400000 Status.veteran)))%nat
  ∧ Status.cls (Status.main (Status.getUserStatus 17366400000 Status.veteran))
    = "status--veteran".
Proof.
  pose proof (X29_status_rank 17366400000 Status.newcomer Status.veteran
                eq_refl eq_refl ltac:(vm_compute; discriminate)
                ltac:(vm_compute; discriminate)) as [Hrank Hveteran].
  split; [exact Hrank|].
  apply Hveteran. split; vm_compute; discriminate.
Defined.

Example status_example :
  Status.getUserStatus 17366400000 Status.veteran
  = {| Status.main := Status.badge "Ветеран" "status--veteran";
       Status.badges :=
         [ {| Status.label := Status.verified_icon; Status.cls := "badge--verified";
              Status.title := Some "Verified" |};
           Status.badge "Beta" "badge--beta" ] |}
  ∧ Status.getUserStatus 0 Status.newcomer
    = {| Status.main := Status.badge "Новичок" "status--newbie";
         Status.badges := [ Status.badge "Not verified" "badge--warn" ] |}.
Proof. split; vm_compute; reflexivity. Qed.
